(** * Smart Apply pipeline of mistral-vscode: a shallow embedding

    The development follows the four services of [src/services]:
    - [IntentDetector]  (IntentDetector.ts): classification of a code block;
    - [SymbolResolver]  (SymbolResolver.ts): anchor resolution chain;
    - [DiffPreviewService] (DiffPreviewService.ts): pending changes;
    - [SmartApplyService] (SmartApplyService.ts): the orchestrator.

    JavaScript strings are modelled as lists of 8-bit code units (the
    Latin-1 range of UTF-16); regular expressions are embedded as terms
    of a small backtracking matcher with capture groups; calls into the
    editor host are modelled by a record of oracles indexed by a call
    clock, and the effects of the services by an event trace. *)

From Stdlib Require Import Ascii String List Bool Arith Lia QArith DecimalString.
From stdpp Require Import gmap strings.
Import ListNotations.

Close Scope Q_scope.
Local Open Scope nat_scope.
Local Open Scope list_scope.

(* ================================================================== *)
(** ** JavaScript strings *)
(* ================================================================== *)

Module Js.

(** A string is the list of its code units. *)
Abbreviation str := (list ascii).

(** Literals: [L "abc"]. *)
Definition L (s : string) : str := list_ascii_of_string s.

Definition code (c : ascii) : nat := nat_of_ascii c.

Definition nl : ascii := ascii_of_nat 10.
Definition cr : ascii := ascii_of_nat 13.
Definition dquote : ascii := ascii_of_nat 34.
Definition squote : ascii := ascii_of_nat 39.

Definition between (lo hi n : nat) : bool := (lo <=? n) && (n <=? hi).

(** WhiteSpace and LineTerminator code units below 256: TAB, LF, VT, FF,
    CR, SP and NBSP. This is the set of [\s] and of [String.prototype.trim]. *)
Definition isSpace (c : ascii) : bool :=
  let n := code c in between 9 13 n || (n =? 32) || (n =? 160).

(** [\w] *)
Definition isWord (c : ascii) : bool :=
  let n := code c in
  between 48 57 n || between 65 90 n || between 97 122 n || (n =? 95).

(** [\d] *)
Definition isDigit (c : ascii) : bool := between 48 57 (code c).

(** LineTerminator: excluded by [.], and where [^] and [$] match under
    the [m] flag. *)
Definition isLineTerminator (c : ascii) : bool :=
  let n := code c in (n =? 10) || (n =? 13).

(** [toLowerCase] on one code unit (ASCII and Latin-1 capitals). *)
Definition lowerChar (c : ascii) : ascii :=
  let n := code c in
  if between 65 90 n || between 192 214 n || between 216 222 n
  then ascii_of_nat (n + 32) else c.

Definition toLowerCase (s : str) : str := map lowerChar s.

Definition eqc (a b : ascii) : bool := Ascii.eqb a b.

Fixpoint eqs (a b : str) : bool :=
  match a, b with
  | [], [] => true
  | x :: a', y :: b' => eqc x y && eqs a' b'
  | _, _ => false
  end.

Fixpoint startsWith (s p : str) : bool :=
  match p, s with
  | [], _ => true
  | x :: p', y :: s' => eqc x y && startsWith s' p'
  | _ :: _, [] => false
  end.

(** [s.indexOf(p)]: [None] stands for -1. *)
Fixpoint indexOf (s p : str) : option nat :=
  if startsWith s p then Some 0
  else match s with
       | [] => None
       | _ :: s' => option_map S (indexOf s' p)
       end.

Definition includes (s p : str) : bool :=
  match indexOf s p with Some _ => true | None => false end.

Fixpoint trimStart (s : str) : str :=
  match s with
  | c :: s' => if isSpace c then trimStart s' else s
  | [] => []
  end.

Definition trimEnd (s : str) : str := rev (trimStart (rev s)).

Definition trim (s : str) : str := trimEnd (trimStart s).

(** [s.split(sep)] for a separator of one unit: never empty, the empty
    string gives one empty piece. *)
Fixpoint splitOn (sep : ascii) (s : str) : list str :=
  match s with
  | [] => [[]]
  | c :: s' =>
      if eqc c sep then [] :: splitOn sep s'
      else match splitOn sep s' with
           | l :: ls => (c :: l) :: ls
           | [] => [[c]]
           end
  end.

(** [s.split("\n")] *)
Definition split (s : str) : list str := splitOn nl s.

(** [lines.join("\n")] *)
Fixpoint join (ls : list str) : str :=
  match ls with
  | [] => []
  | [l] => l
  | l :: ls' => l ++ nl :: join ls'
  end.

(** [s.substring(0, n)] and [s.substring(n)] for [n >= 0]. *)
Definition substringTo (s : str) (n : nat) : str := firstn n s.
Definition substringFrom (s : str) (n : nat) : str := skipn n s.

(** Template literal [`${n}`] for a non-negative integer. *)
Definition ofNat (n : nat) : str :=
  L (NilEmpty.string_of_uint (Nat.to_uint n)).

(** Truthiness of [string | undefined]. *)
Definition truthy (o : option str) : bool :=
  match o with
  | Some (_ :: _) => true
  | _ => false
  end.

End Js.

(* ================================================================== *)
(** ** Regular expressions *)
(* ================================================================== *)

Module Regex.
Import Js.

(** The fragment of the ECMAScript pattern language the services use:
    character classes, sequence, ordered alternative, greedy star,
    numbered capture groups and the two assertions. *)
Inductive regex : Type :=
| Eps
| Chr (p : ascii -> bool)
| Seq (r1 r2 : regex)
| Alt (r1 r2 : regex)
| Star (r : regex)
| Group (i : nat) (r : regex)
| Bol
| Eol.

(** Captures: group number and captured text, latest first. *)
Definition caps := list (nat * str).

Fixpoint capture (c : caps) (i : nat) : option str :=
  match c with
  | [] => None
  | (j, s) :: c' => if i =? j then Some s else capture c' i
  end.

Section Matcher.
(** The [m] flag. *)
Variable multiline : bool.

Definition atBol (before : str) : bool :=
  match before with
  | [] => true
  | c :: _ => multiline && isLineTerminator c
  end.

Definition atEol (rest : str) : bool :=
  match rest with
  | [] => true
  | c :: _ => multiline && isLineTerminator c
  end.

(** The greedy loop of [r*], for the matcher [step] of [r] and the
    continuation [k] of the star: one more iteration first, then [k]. An
    iteration that consumes nothing is rejected, as in RepeatMatcher; a
    fuel of one more than the units left is never used up. *)
Section Repeat.
Variable step : str -> str -> caps
                -> (str -> str -> caps -> option (str * caps))
                -> option (str * caps).
Variable k : str -> str -> caps -> option (str * caps).

Fixpoint iterate (fuel : nat) (before rest : str) (c : caps) {struct fuel}
  : option (str * caps) :=
  match fuel with
  | 0 => k before rest c
  | S fuel' =>
      match step before rest c
                 (fun b' s' c' =>
                    if length s' <? length rest
                    then iterate fuel' b' s' c' else None) with
      | Some res => Some res
      | None => k before rest c
      end
  end.
End Repeat.

(** Backtracking matcher in continuation-passing style. [before] is the
    consumed input, last unit first; [rest] is the input still to read. *)
Fixpoint run (r : regex) (before rest : str) (c : caps)
         (k : str -> str -> caps -> option (str * caps)) {struct r}
  : option (str * caps) :=
  match r with
  | Eps => k before rest c
  | Chr p =>
      match rest with
      | x :: rest' => if p x then k (x :: before) rest' c else None
      | [] => None
      end
  | Seq r1 r2 =>
      run r1 before rest c (fun b1 s1 c1 => run r2 b1 s1 c1 k)
  | Alt r1 r2 =>
      match run r1 before rest c k with
      | Some res => Some res
      | None => run r2 before rest c k
      end
  | Star r1 => iterate (run r1) k (S (length rest)) before rest c
  | Group i r1 =>
      run r1 before rest c
          (fun b' s' c' =>
             k b' s' ((i, firstn (length rest - length s') rest) :: c'))
  | Bol => if atBol before then k before rest c else None
  | Eol => if atEol rest then k before rest c else None
  end.

(** Leftmost match: try every start index in turn. *)
Fixpoint search (r : regex) (before rest : str) (idx : nat)
  : option (nat * caps) :=
  match run r before rest [] (fun _ s c => Some (s, c)) with
  | Some (_, c) => Some (idx, c)
  | None =>
      match rest with
      | [] => None
      | x :: rest' => search r (x :: before) rest' (S idx)
      end
  end.
End Matcher.

(** A compiled pattern: the term and its [m] flag. The [i] flag is
    resolved when the term is built (see [lit] and [liti]). *)
Record pattern := { body : regex; flag_m : bool }.

(** [s.match(p)] for a pattern without the [g] flag: index and groups. *)
Definition exec (p : pattern) (s : str) : option (nat * caps) :=
  search (flag_m p) (body p) [] s 0.

(** [p.test(s)] *)
Definition test (p : pattern) (s : str) : bool :=
  match exec p s with Some _ => true | None => false end.

(** Group [i] of a match. *)
Definition group (m : nat * caps) (i : nat) : option str := capture (snd m) i.

(** *** Pattern combinators *)

Definition re (r : regex) : pattern := {| body := r; flag_m := false |}.
Definition re_m (r : regex) : pattern := {| body := r; flag_m := true |}.

Definition seq (rs : list regex) : regex := fold_right Seq Eps rs.

Fixpoint alt (rs : list regex) : regex :=
  match rs with
  | [] => Chr (fun _ => false)
  | [r] => r
  | r :: rs' => Alt r (alt rs')
  end.

Definition plus (r : regex) : regex := Seq r (Star r).
Definition opt (r : regex) : regex := Alt r Eps.

(** A literal unit, case-sensitive and under the [i] flag. *)
Definition chr (c : ascii) : regex := Chr (eqc c).
Definition chri (c : ascii) : regex :=
  Chr (fun x => eqc (lowerChar x) (lowerChar c)).

Definition lit (s : string) : regex := seq (map chr (L s)).
Definition liti (s : string) : regex := seq (map chri (L s)).
Definition lits (s : str) : regex := seq (map chr s).
Definition litsi (s : str) : regex := seq (map chri s).

Definition words (ws : list string) : regex := alt (map lit ws).
Definition wordsi (ws : list string) : regex := alt (map liti ws).

Definition oneOf (s : string) : regex := Chr (fun x => existsb (eqc x) (L s)).

Definition space : regex := Chr isSpace.
Definition nonspace : regex := Chr (fun x => negb (isSpace x)).
Definition word : regex := Chr isWord.
Definition digit : regex := Chr isDigit.
Definition dot : regex := Chr (fun x => negb (isLineTerminator x)).

End Regex.

(* ================================================================== *)
(** ** IntentDetector.ts *)
(* ================================================================== *)

Module IntentDetector.
Import Js Regex.

Inductive Intent : Type := Create | Edit | Command.

Record DetectedIntent : Type := {
  intent : Intent;
  confidence : Q;
  target : option str;
  anchor : option str
}.

(** [a > b] on confidences. The code only compares decimal literals, on
    which the order of doubles and the order of rationals agree. *)
Definition Qgtb (a b : Q) : bool := negb (Qle_bool a b).

Definition verdict (i : Intent) (c : Q) : DetectedIntent :=
  {| intent := i; confidence := c; target := None; anchor := None |}.

(** [lines[0]] of a [split] result. *)
Definition head0 (ls : list str) : str :=
  match ls with l :: _ => l | [] => [] end.

Definition getLineCount (code : str) : nat := length (split code).

(** [for (const pattern of patterns) { const m = s.match(pattern); if (m) ... }] *)
Fixpoint firstExec (ps : list pattern) (s : str) : option (nat * caps) :=
  match ps with
  | [] => None
  | p :: ps' =>
      match exec p s with
      | Some m => Some m
      | None => firstExec ps' s
      end
  end.

(** *** detectCommand *)

(** [/^[$>%]\s+(.+)$/] *)
Definition shellPromptRegex : pattern :=
  re (seq [Bol; oneOf "$>%"; plus space; Group 1 (plus dot); Eol]).

(** [/^(npm|yarn|pnpm|npx)\s+(install|run|start|test|build|dev|init|create)/i] *)
Definition npmRegex : pattern :=
  re (seq [Bol; Group 1 (wordsi ["npm"; "yarn"; "pnpm"; "npx"]); plus space;
           Group 2 (wordsi ["install"; "run"; "start"; "test"; "build";
                            "dev"; "init"; "create"])]).

(** [/^(pip|pip3|python|python3)\s+(install|run|-m)/i] *)
Definition pythonRegex : pattern :=
  re (seq [Bol; Group 1 (wordsi ["pip"; "pip3"; "python"; "python3"]);
           plus space; Group 2 (wordsi ["install"; "run"; "-m"])]).

(** [/^cargo\s+(build|run|test|new|init|add)/i] *)
Definition cargoRegex : pattern :=
  re (seq [Bol; liti "cargo"; plus space;
           Group 1 (wordsi ["build"; "run"; "test"; "new"; "init"; "add"])]).

(** [/^go\s+(run|build|test|mod|get)/i] *)
Definition goRegex : pattern :=
  re (seq [Bol; liti "go"; plus space;
           Group 1 (wordsi ["run"; "build"; "test"; "mod"; "get"])]).

(** [/^git\s+(clone|pull|push|commit|checkout|branch|merge|rebase|stash|add|status|diff)/i] *)
Definition gitRegex : pattern :=
  re (seq [Bol; liti "git"; plus space;
           Group 1 (wordsi ["clone"; "pull"; "push"; "commit"; "checkout";
                            "branch"; "merge"; "rebase"; "stash"; "add";
                            "status"; "diff"])]).

(** [/^docker(-compose)?\s+(run|build|pull|push|up|down|exec|ps|logs)/i] *)
Definition dockerRegex : pattern :=
  re (seq [Bol; liti "docker"; opt (Group 1 (liti "-compose")); plus space;
           Group 2 (wordsi ["run"; "build"; "pull"; "push"; "up"; "down";
                            "exec"; "ps"; "logs"])]).

(** [/^kubectl\s+(apply|get|describe|logs|exec|delete|create)/i] *)
Definition kubectlRegex : pattern :=
  re (seq [Bol; liti "kubectl"; plus space;
           Group 1 (wordsi ["apply"; "get"; "describe"; "logs"; "exec";
                            "delete"; "create"])]).

(** [/^(curl|wget|ssh|scp|rsync|chmod|chown|mkdir|rm|cp|mv|cat|grep|find|awk|sed|head|tail)\s+/i] *)
Definition cliToolsRegex : pattern :=
  re (seq [Bol;
           Group 1 (wordsi ["curl"; "wget"; "ssh"; "scp"; "rsync"; "chmod";
                            "chown"; "mkdir"; "rm"; "cp"; "mv"; "cat";
                            "grep"; "find"; "awk"; "sed"; "head"; "tail"]);
           plus space]).

Definition detectCommand (code : str) : DetectedIntent :=
  let trimmed := trim code in
  let lines := split trimmed in
  let firstLine := trim (head0 lines) in
  if test shellPromptRegex firstLine then verdict Command (95 # 100)
  else if test npmRegex firstLine then verdict Command (9 # 10)
  else if test pythonRegex firstLine then verdict Command (9 # 10)
  else if test cargoRegex firstLine then verdict Command (9 # 10)
  else if test goRegex firstLine then verdict Command (9 # 10)
  else if test gitRegex firstLine then verdict Command (9 # 10)
  else if test dockerRegex firstLine then verdict Command (9 # 10)
  else if test kubectlRegex firstLine then verdict Command (9 # 10)
  else if test cliToolsRegex firstLine then verdict Command (85 # 100)
  else if (length lines =? 1)
          && negb (includes firstLine (L "{"))
          && negb (includes firstLine (L "function"))
          && negb (includes firstLine (L "class"))
          && negb (includes firstLine (L "def "))
          && negb (includes firstLine (L "import "))
          && negb (includes firstLine (L "const "))
          && negb (includes firstLine (L "let "))
          && negb (includes firstLine (L "var "))
  then verdict Command (4 # 10)
  else verdict Command 0.

(** *** detectFileCreation *)

(** [([^\s]+\.\w+)] as group [i]. *)
Definition pathGroup (i : nat) : regex :=
  Group i (seq [plus nonspace; lit "."; plus word]).

Definition tripleQuote : regex := lits [dquote; dquote; dquote].

(** The five path-comment patterns of the classifier, in order. *)
Definition fileCommentPatterns : list pattern :=
  [ re (seq [Bol; lit "//"; Star space; pathGroup 1; Star space; Eol]);
    re (seq [Bol; lit "#"; Star space; pathGroup 1; Star space; Eol]);
    re (seq [Bol; lit "/*"; Star space; pathGroup 1; Star space; lit "*/";
             Star space; Eol]);
    re (seq [Bol; lit "<!--"; Star space; pathGroup 1; Star space; lit "-->";
             Star space; Eol]);
    re (seq [Bol; tripleQuote; Star space; pathGroup 1; Star space;
             tripleQuote; Star space; Eol]) ].

(** [#{1,3}] *)
Definition hashes13 : regex :=
  seq [lit "#"; opt (seq [lit "#"; opt (lit "#")])].

(** [/^#{1,3}\s+([^\s]+\.\w+)\s*$/] *)
Definition markdownHeaderRegex : pattern :=
  re (seq [Bol; hashes13; plus space; pathGroup 1; Star space; Eol]).

(** [/:([^\s]+\.\w+)$/] *)
Definition langPathRegex : pattern :=
  re (seq [lit ":"; pathGroup 1; Eol]).

(** [/^(import\s|from\s|require\(|use\s|using\s)/] *)
Definition hasImportsRegex : pattern :=
  re (seq [Bol;
           Group 1 (alt [seq [lit "import"; space]; seq [lit "from"; space];
                         lit "require("; seq [lit "use"; space];
                         seq [lit "using"; space]])]).

(** [/(export\s+(default\s+)?|module\.exports\s*=)/] *)
Definition hasExportsRegex : pattern :=
  re (Group 1 (alt [seq [lit "export"; plus space;
                         opt (Group 2 (seq [lit "default"; plus space]))];
                    seq [lit "module.exports"; Star space; lit "="]])).

(** [/(^|\n)(class\s+\w+|function\s+\w+|def\s+\w+|fn\s+\w+|func\s+\w+)/] *)
Definition hasClassOrFunctionRegex : pattern :=
  let decl kw := seq [lit kw; plus space; plus word] in
  re (seq [Group 1 (alt [Bol; chr nl]);
           Group 2 (alt [decl "class"; decl "function"; decl "def";
                         decl "fn"; decl "func"])]).

Definition configPatterns : list pattern :=
  [ (* /^{\s*\x22name\x22\s*:/ *)
    re (seq [Bol; lit "{"; Star space; chr dquote; lit "name"; chr dquote;
             Star space; lit ":"]);
    (* /^{\s*\x22compilerOptions\x22\s*:/ *)
    re (seq [Bol; lit "{"; Star space; chr dquote; lit "compilerOptions";
             chr dquote; Star space; lit ":"]);
    (* /^\[tool\./ *)
    re (seq [Bol; lit "[tool."]);
    (* /^version\s*=/ *)
    re (seq [Bol; lit "version"; Star space; lit "="]);
    (* /^FROM\s+/ *)
    re (seq [Bol; lit "FROM"; plus space]);
    (* /^version:\s*['\x22]?\d/ *)
    re (seq [Bol; lit "version:"; Star space;
             opt (alt [chr squote; chr dquote]); digit]) ].

Definition detectFileCreation (code language : str) : DetectedIntent :=
  let trimmed := trim code in
  let lines := split trimmed in
  let firstLine := head0 lines in
  match firstExec fileCommentPatterns firstLine with
  | Some m =>
      {| intent := Create; confidence := 95 # 100;
         target := group m 1; anchor := None |}
  | None =>
  match exec markdownHeaderRegex firstLine with
  | Some headerMatch =>
      {| intent := Create; confidence := 9 # 10;
         target := group headerMatch 1; anchor := None |}
  | None =>
  match exec langPathRegex language with
  | Some langMatch =>
      {| intent := Create; confidence := 9 # 10;
         target := group langMatch 1; anchor := None |}
  | None =>
      let hasImports := test hasImportsRegex trimmed in
      let hasExports := test hasExportsRegex trimmed in
      let hasClassOrFunction := test hasClassOrFunctionRegex trimmed in
      if hasImports && (hasExports || hasClassOrFunction)
         && (20 <? getLineCount code)
      then verdict Create (7 # 10)
      else if existsb (fun p => test p trimmed) configPatterns
      then verdict Create (85 # 100)
      else verdict Create 0
  end end end.

(** *** detectEdit *)

(** [/^(import\s+.+|from\s+.+\s+import\s+.+|const\s+\w+\s*=\s*require\(.+\)|use\s+.+;?)$/] *)
Definition singleImportRegex : pattern :=
  re (seq [Bol;
           Group 1 (alt [
             seq [lit "import"; plus space; plus dot];
             seq [lit "from"; plus space; plus dot; plus space; lit "import";
                  plus space; plus dot];
             seq [lit "const"; plus space; plus word; Star space; lit "=";
                  Star space; lit "require("; plus dot; lit ")"];
             seq [lit "use"; plus space; plus dot; opt (lit ";")]]);
           Eol]).

(** [/^(async\s+)?(function|const|let|var)\s+(\w+)/] *)
Definition singleFunctionRegex : pattern :=
  re (seq [Bol; opt (Group 1 (seq [lit "async"; plus space]));
           Group 2 (words ["function"; "const"; "let"; "var"]);
           plus space; Group 3 (plus word)]).

(** [/^(async\s+)?def\s+(\w+)/] *)
Definition pythonFuncRegex : pattern :=
  re (seq [Bol; opt (Group 1 (seq [lit "async"; plus space]));
           lit "def"; plus space; Group 2 (plus word)]).

(** [/^\s*(public|private|protected|static|async)?\s*(function|def|fn|func)?\s*(\w+)\s*\(/m] *)
Definition methodRegex : pattern :=
  re_m (seq [Bol; Star space;
             opt (Group 1 (words ["public"; "private"; "protected";
                                  "static"; "async"]));
             Star space;
             opt (Group 2 (words ["function"; "def"; "fn"; "func"]));
             Star space; Group 3 (plus word); Star space; lit "("]).

(** [/^(import\s|from\s|require\(|use\s|using\s|package\s)/] *)
Definition hasImportsAtTopRegex : pattern :=
  re (seq [Bol;
           Group 1 (alt [seq [lit "import"; space]; seq [lit "from"; space];
                         lit "require("; seq [lit "use"; space];
                         seq [lit "using"; space];
                         seq [lit "package"; space]])]).

(** [/(if\s+__name__\s*==\s*['\x22]__main__|fn\s+main\s*\(|func\s+main\s*\(|int\s+main\s*\()/] *)
Definition hasMainOrEntryRegex : pattern :=
  let main kw := seq [lit kw; plus space; lit "main"; Star space; lit "("] in
  re (Group 1 (alt [
        seq [lit "if"; plus space; lit "__name__"; Star space; lit "==";
             Star space; alt [chr squote; chr dquote]; lit "__main__"];
        main "fn"; main "func"; main "int"])).

(** [/(export\s+(default\s+)?|module\.exports)/] *)
Definition hasExportsAnyRegex : pattern :=
  re (Group 1 (alt [seq [lit "export"; plus space;
                         opt (Group 2 (seq [lit "default"; plus space]))];
                    lit "module.exports"])).

Definition looksLikeCompleteFile (code : str) : bool :=
  let hasShebang := startsWith code (L "#!") in
  let hasImportsAtTop := test hasImportsAtTopRegex code in
  let hasMainOrEntry := test hasMainOrEntryRegex code in
  let hasExports := test hasExportsAnyRegex code in
  let indicators :=
    (if hasShebang then 1 else 0) + (if hasImportsAtTop then 1 else 0)
    + (if hasMainOrEntry then 1 else 0) + (if hasExports then 1 else 0) in
  2 <=? indicators.

(** [if (m && cond) { return f(m); }] followed by the rest of the function. *)
Definition whenMatch (m : option (nat * caps)) (cond : bool)
           (f : nat * caps -> DetectedIntent) (rest : DetectedIntent)
  : DetectedIntent :=
  match m with
  | Some x => if cond then f x else rest
  | None => rest
  end.

Definition detectEdit (code language : str) (activeFile : option str)
  : DetectedIntent :=
  let trimmed := trim code in
  let lines := split trimmed in
  let lineCount := length lines in
  if (lineCount <=? 3)
     && existsb (fun l => test singleImportRegex (trim l)) lines
  then {| intent := Edit; confidence := 85 # 100;
          target := None; anchor := Some (L "imports") |}
  else
  whenMatch (exec singleFunctionRegex trimmed) (lineCount <? 30)
    (fun funcMatch =>
       {| intent := Edit; confidence := 7 # 10;
          target := None; anchor := group funcMatch 3 |})
  (whenMatch (exec pythonFuncRegex trimmed) (lineCount <? 30)
    (fun pyFuncMatch =>
       {| intent := Edit; confidence := 7 # 10;
          target := None; anchor := group pyFuncMatch 2 |})
  (whenMatch (exec methodRegex trimmed)
             ((lineCount <? 40) && negb (includes trimmed (L "class ")))
    (fun methodMatch =>
       {| intent := Edit; confidence := 6 # 10;
          target := None; anchor := group methodMatch 3 |})
  (if (lineCount <? 20) && negb (looksLikeCompleteFile trimmed)
   then verdict Edit (5 # 10)
   else verdict Edit 0))).

(** *** detect *)

Definition detect (code language : str) (activeFile : option str)
  : DetectedIntent :=
  let commandIntent := detectCommand code in
  if Qgtb (confidence commandIntent) (8 # 10) then commandIntent
  else
    let createIntent := detectFileCreation code language in
    if Qgtb (confidence createIntent) (7 # 10) then createIntent
    else
      let editIntent := detectEdit code language activeFile in
      if Qgtb (confidence editIntent) (5 # 10) then editIntent
      else if truthy activeFile && (getLineCount code <? 50)
      then verdict Edit (4 # 10)
      else verdict Create (3 # 10).

End IntentDetector.

(* ================================================================== *)
(** ** The editor host *)
(* ================================================================== *)

(** The part of the [vscode] API the services call. What the host answers
    is not in the repository: every answer is an oracle of the [Host]
    record, indexed by a clock that advances at each call the services
    wait for. State the host exposes synchronously (active editor, visible
    editors, ...) is read at the current clock without advancing it. *)
Module Vscode.
Import Js.

Record Position : Type := { line : nat; character : nat }.
Record Range : Type := { start : Position; endp : Position }.

Record TextDocument : Type := { uri : str; getText : str }.

(** [document.positionAt(offset)], with lines separated by LF. *)
Definition positionAt (d : TextDocument) (offset : nat) : Position :=
  let before := split (firstn offset (getText d)) in
  {| line := length before - 1; character := length (List.last before []) |}.

Record TextEditor : Type := {
  document : TextDocument;
  selection_active : Position
}.

#[local] Unset Elimination Schemes.
Inductive DocumentSymbol : Type :=
  mkSymbol (name : str) (range : Range) (children : list DocumentSymbol).
#[local] Set Elimination Schemes.

Definition symbolName (s : DocumentSymbol) : str :=
  match s with mkSymbol n _ _ => n end.
Definition symbolRange (s : DocumentSymbol) : Range :=
  match s with mkSymbol _ r _ => r end.
Definition symbolChildren (s : DocumentSymbol) : list DocumentSymbol :=
  match s with mkSymbol _ _ cs => cs end.

(** A call either returns or throws (a rejected promise, once awaited). *)
Inductive Outcome (A : Type) : Type :=
| Ret (a : A)
| Throw (e : str).
Arguments Ret {A} a.
Arguments Throw {A} e.

(** [mistral.apply.*] settings. *)
Inductive PreviewMode : Type := always | edits_only | never.
Inductive CreateFileLocation : Type := workspace_root | current_folder | ask.
Record SmartApplyConfig : Type := {
  previewMode : PreviewMode;
  autoDetectIntent : bool;
  createFileLocation : CreateFileLocation;
  showFallbackWarnings : bool
}.

Record Host : Type := {
  (* state read synchronously *)
  configuration : nat -> SmartApplyConfig;
  activeTextEditor : nat -> option TextEditor;
  visibleTextEditors : nat -> list TextEditor;
  workspaceFolders : nat -> option (list str);
  activeTerminal : nat -> bool;
  (* calls *)
  executeDocumentSymbolProvider : nat -> Outcome (option (list DocumentSymbol));
  editorEdit : nat -> Outcome bool;
  openTextDocument : nat -> Outcome str;      (* the text of the document *)
  showTextDocument : nat -> Outcome Position; (* the cursor of its editor *)
  diffCommand : nat -> Outcome unit;
  closeActiveEditor : nat -> Outcome unit;
  showQuickPick : nat -> Outcome (option str);
  showWarningChoice : nat -> Outcome (option str);
  showOpenDialog : nat -> Outcome (option (list str));
  fsStat : nat -> Outcome unit;
  fsCreateDirectory : nat -> Outcome unit;
  fsWriteFile : nat -> Outcome unit;
  randomUUID : nat -> str;
  dateNow : nat -> nat
}.

(** What the services do to the outside, in order. *)
Inductive Event : Type :=
| ShowWarningMessage (msg : str)
| ShowInformationMessage (msg : str)
| ShowErrorMessage (msg : str)
(** an edit the host accepted on the document [uri]: replace [range]
    when there is one, insert at [position] otherwise *)
| EditApplied (uri : str) (range : option Range) (position : Position)
              (text : str)
| DiffShown (original preview title : str)
| ActiveEditorClosed
| GhostTextShown (uri : str) (position : Position) (contentText : str)
| DocumentShown (uri : str)
| UntitledShown (content language : str)
| DirectoryCreated (path : str)
| FileWritten (path content : str)
| TerminalCreated (name : str)
| TerminalShown
| TerminalText (text : str) (execute : bool).

(** [PendingChange] of DiffPreviewService.ts. *)
Record PendingChange : Type := {
  id : str;
  originalUri : str;
  position : Position;
  range_ : option Range;
  newCode : str;
  proposedContent : str;
  createdAt : nat
}.

(** The state the services own, the clock and the trace. *)
Record World : Type := {
  clock : nat;
  pendingChanges : gmap str PendingChange;
  trace : list Event
}.

Definition M (A : Type) : Type := World -> Outcome A * World.

Definition ret {A} (a : A) : M A := fun w => (Ret a, w).

Definition throw {A} (e : str) : M A := fun w => (Throw e, w).

Definition bind {A B} (c : M A) (f : A -> M B) : M B :=
  fun w =>
    match c w with
    | (Ret a, w') => f a w'
    | (Throw e, w') => (Throw e, w')
    end.

(** [try { c } catch (error) { handler(error) }] *)
Definition tryCatch {A} (c : M A) (handler : str -> M A) : M A :=
  fun w =>
    match c w with
    | (Ret a, w') => (Ret a, w')
    | (Throw e, w') => handler e w'
    end.

(** A call into the host: its answer is read at the current clock, and the
    clock advances. *)
Definition call {A} (oracle : nat -> Outcome A) : M A :=
  fun w =>
    (oracle (clock w),
     {| clock := S (clock w); pendingChanges := pendingChanges w;
        trace := trace w |}).

Definition callPure {A} (oracle : nat -> A) : M A :=
  call (fun n => Ret (oracle n)).

(** Host state, read without waiting. *)
Definition read {A} (state : nat -> A) : M A :=
  fun w => (Ret (state (clock w)), w).

Definition emit (e : Event) : M unit :=
  fun w =>
    (Ret tt,
     {| clock := clock w; pendingChanges := pendingChanges w;
        trace := trace w ++ [e] |}).

Definition getPending : M (gmap str PendingChange) :=
  fun w => (Ret (pendingChanges w), w).

Definition setPending (m : gmap str PendingChange) : M unit :=
  fun w =>
    (Ret tt, {| clock := clock w; pendingChanges := m; trace := trace w |}).

(** The edits the host applied, oldest first: the document mutations. *)
Definition isEdit (e : Event) : bool :=
  match e with EditApplied _ _ _ _ => true | _ => false end.

Definition documentEdits (w : World) : list Event := filter isEdit (trace w).

End Vscode.

Declare Scope js_scope.
Delimit Scope js_scope with js.
Notation "x <- c1 ;; c2" := (Vscode.bind c1 (fun x => c2))
  (at level 100, c1 at next level, right associativity) : js_scope.
Notation "c1 ;; c2" := (Vscode.bind c1 (fun _ => c2))
  (at level 100, right associativity) : js_scope.

(* ================================================================== *)
(** ** SymbolResolver.ts *)
(* ================================================================== *)

Module SymbolResolver.
Import Js Regex Vscode.
Local Open Scope js_scope.

Inductive Method : Type :=
  exact_symbol | fuzzy_symbol | text_search | cursor_fallback.

Record ResolvedPosition : Type := {
  rposition : Position;
  rrange : option Range;
  method : Method;
  rsymbolName : option str
}.

Inductive MatchMode : Type := exact | fuzzy.

(** *** levenshteinDistance *)

(** Row [i] of the matrix from row [i-1]: [prev] is [matrix[i-1][j-1..]],
    [left] is [matrix[i][j-1]], the result is [matrix[i][j..]]. *)
Fixpoint fillRow (bi : ascii) (a : str) (prev : list nat) (left : nat)
  : list nat :=
  match a, prev with
  | aj :: a', diag :: ((up :: _) as prev') =>
      let v := if eqc bi aj then diag
               else Nat.min (diag + 1) (Nat.min (left + 1) (up + 1)) in
      v :: fillRow bi a' prev' v
  | _, _ => []
  end.

(** Rows [i, i+1, ...] for the units of [b] left to read; the last row. *)
Fixpoint fillMatrix (b a : str) (i : nat) (prev : list nat) : list nat :=
  match b with
  | [] => prev
  | bi :: b' => fillMatrix b' a (S i) (i :: fillRow bi a prev i)
  end.

Definition levenshteinDistance (a b : str) : nat :=
  match a, b with
  | [], _ => length b
  | _, [] => length a
  | _, _ => List.last (fillMatrix b a 1 (List.seq 0 (S (length a)))) 0
  end.

(** *** findSymbol *)

Definition symbolMatches (mode : MatchMode) (name : str)
           (symbol : DocumentSymbol) : bool :=
  let normalizedName := toLowerCase name in
  let symbolName := toLowerCase (symbolName symbol) in
  match mode with
  | exact => eqs symbolName normalizedName
  | fuzzy =>
      includes symbolName normalizedName
      || includes normalizedName symbolName
      || (levenshteinDistance symbolName normalizedName <=? 3)
  end.

(** The loop over one level of the tree, with the visit of a symbol and
    of its descendants as a parameter. *)
Section Loop.
Variable visit : DocumentSymbol -> option DocumentSymbol.
Fixpoint firstOf (symbols : list DocumentSymbol) : option DocumentSymbol :=
  match symbols with
  | [] => None
  | symbol :: rest =>
      match visit symbol with
      | Some found => Some found
      | None => firstOf rest
      end
  end.
End Loop.

(** One iteration of the loop: the symbol itself, then its children. *)
Fixpoint findSymbolAt (mode : MatchMode) (name : str)
         (symbol : DocumentSymbol) {struct symbol} : option DocumentSymbol :=
  if symbolMatches mode name symbol then Some symbol
  else match symbol with
       | mkSymbol _ _ children => firstOf (findSymbolAt mode name) children
       end.

Definition findSymbol (symbols : list DocumentSymbol) (name : str)
           (mode : MatchMode) : option DocumentSymbol :=
  firstOf (findSymbolAt mode name) symbols.

(** *** findImportSection *)

(** [/^const\s+\w+\s*=\s*require\(/] *)
Definition requireRegex : pattern :=
  re (Regex.seq [Bol; lit "const"; plus space; plus word; Star space;
                 lit "="; Star space; lit "require("]).

Definition isImportLine (line : str) : bool :=
  startsWith line (L "import ")
  || startsWith line (L "from ")
  || test requireRegex line
  || startsWith line (L "use ")
  || startsWith line (L "using ").

Definition isTopComment (line : str) : bool :=
  eqs line [] || startsWith line (L "//") || startsWith line (L "#")
  || startsWith line (L "/*") || startsWith line (L "*").

(** The first loop: [lines] are the lines from index [i] on; the result is
    [lastImportLine] when the loop ends ([None] for -1). *)
Fixpoint scanImports (lines : list str) (i : nat) (lastImportLine : option nat)
  : option nat :=
  match lines with
  | [] => lastImportLine
  | l :: rest =>
      let line := trim l in
      if (i <? 10) && isTopComment line
      then scanImports rest (S i) lastImportLine
      else if isImportLine line
      then scanImports rest (S i) (Some i)
      else if (match lastImportLine with Some _ => true | None => false end)
              && negb (eqs line [])
      then lastImportLine
      else scanImports rest (S i) lastImportLine
  end.

(** The second loop, over the first [bound] lines. *)
Fixpoint firstCodeLine (lines : list str) (i bound : nat) : option nat :=
  match bound, lines with
  | S bound', l :: rest =>
      let line := trim l in
      if negb (eqs line []) && negb (startsWith line (L "#!"))
         && negb (startsWith line (L "//")) && negb (startsWith line (L "/*"))
      then Some i
      else firstCodeLine rest (S i) bound'
  | _, _ => None
  end.

Definition findImportSection (document : TextDocument) : option Position :=
  let lines := split (getText document) in
  match scanImports lines 0 None with
  | Some lastImportLine =>
      Some {| line := lastImportLine + 1; character := 0 |}
  | None =>
      match firstCodeLine lines 0 (Nat.min 5 (length lines)) with
      | Some i => Some {| line := i; character := 0 |}
      | None => Some {| line := 0; character := 0 |}
      end
  end.

(** *** findTextMatch *)

(** The six declaration patterns, all under the [i] flag. [escapeRegex]
    makes every unit of the anchor match itself, which is [litsi]. *)
Definition funcPatterns (searchText : str) : list pattern :=
  let name := litsi searchText in
  [ re (Regex.seq [liti "function"; plus space; name; Star space; lit "("]);
    re (Regex.seq [liti "def"; plus space; name; Star space; lit "("]);
    re (Regex.seq [Group 1 (wordsi ["const"; "let"; "var"]); plus space; name;
                   Star space; lit "="]);
    re (Regex.seq [liti "class"; plus space; name]);
    re (Regex.seq [liti "fn"; plus space; name; Star space; lit "("]);
    re (Regex.seq [liti "func"; plus space; name; Star space; lit "("]) ].

Fixpoint firstPatternMatch (ps : list pattern) (text : str) : option nat :=
  match ps with
  | [] => None
  | p :: ps' =>
      match exec p text with
      | Some m => Some (fst m)
      | None => firstPatternMatch ps' text
      end
  end.

Definition findTextMatch (document : TextDocument) (searchText : str)
  : option Position :=
  let text := getText document in
  let normalizedSearch := toLowerCase searchText in
  match indexOf (toLowerCase text) normalizedSearch with
  | Some index => Some (positionAt document index)
  | None =>
      match firstPatternMatch (funcPatterns searchText) text with
      | Some index => Some (positionAt document index)
      | None => None
      end
  end.

(** *** getDocumentSymbols and resolveAnchor *)

Section WithHost.
Variable h : Host.

Definition getDocumentSymbols (document : TextDocument)
  : M (option (list DocumentSymbol)) :=
  tryCatch (call (executeDocumentSymbolProvider h)) (fun _ => ret None).

Definition cursorResult (cursorPosition : Position) : ResolvedPosition :=
  {| rposition := cursorPosition; rrange := None;
     method := cursor_fallback; rsymbolName := None |}.

Definition textResult (p : Position) : ResolvedPosition :=
  {| rposition := p; rrange := None; method := text_search;
     rsymbolName := None |}.

Definition symbolResult (m : Method) (s : DocumentSymbol)
  : ResolvedPosition :=
  {| rposition := start (symbolRange s); rrange := Some (symbolRange s);
     method := m; rsymbolName := Some (symbolName s) |}.

(** The symbol stages: [symbols && symbols.length > 0], exact first. *)
Definition symbolStages (symbols : option (list DocumentSymbol))
           (anchor : str) : option ResolvedPosition :=
  match symbols with
  | Some ((_ :: _) as symbols) =>
      match findSymbol symbols anchor exact with
      | Some exactMatch => Some (symbolResult exact_symbol exactMatch)
      | None =>
          match findSymbol symbols anchor fuzzy with
          | Some fuzzyMatch => Some (symbolResult fuzzy_symbol fuzzyMatch)
          | None => None
          end
      end
  | _ => None
  end.

Definition resolveAnchor (document : TextDocument) (anchor : option str)
           (cursorPosition : Position) : M ResolvedPosition :=
  match anchor with
  | None | Some [] => ret (cursorResult cursorPosition)
  | Some anchor =>
      match (if eqs (toLowerCase anchor) (L "imports")
             then findImportSection document else None) with
      | Some importPosition => ret (textResult importPosition)
      | None =>
          symbols <- getDocumentSymbols document ;;
          match symbolStages symbols anchor with
          | Some res => ret res
          | None =>
              match findTextMatch document anchor with
              | Some textPosition => ret (textResult textPosition)
              | None => ret (cursorResult cursorPosition)
              end
          end
      end
  end.
End WithHost.

End SymbolResolver.

(* ================================================================== *)
(** ** DiffPreviewService.ts *)
(* ================================================================== *)

Module DiffPreviewService.
Import Js Vscode.
Local Open Scope js_scope.

Inductive PreviewAction : Type := preview_shown | applied_directly | error.

Record PreviewResult : Type := {
  success : bool;
  action : PreviewAction;
  changeId : option str;
  error_ : option str
}.

(** [path.basename(p)] for POSIX paths. *)
Definition basename (p : str) : str :=
  let stripped := rev (let fix strip (r : str) : str :=
                         match r with
                         | c :: r' => if eqc c "/"%char then strip r' else r
                         | [] => []
                         end in strip (rev p)) in
  List.last (splitOn "/"%char stripped) [].

(** [lines[i] = v] for [i] inside the array. *)
Fixpoint setLine (lines : list str) (i : nat) (v : str) : list str :=
  match lines, i with
  | [], _ => []
  | _ :: rest, 0 => v :: rest
  | l :: rest, S i' => l :: setLine rest i' v
  end.

(** [newLines[0] = f(newLines[0])] and [newLines[last] = g(newLines[last])] *)
Definition mapFirst (f : str -> str) (ls : list str) : list str :=
  match ls with l :: rest => f l :: rest | [] => [] end.
Definition mapLast (g : str -> str) (ls : list str) : list str :=
  rev (mapFirst g (rev ls)).

(** [generateProposedContent]. Reading [lines[i]] beyond the array gives
    [undefined], and [undefined.substring] throws a TypeError. *)
Definition generateProposedContent (originalText : str) (position : Position)
           (newCode : str) (range : option Range) : Outcome str :=
  let lines := split originalText in
  match range with
  | Some range =>
      let beforeLines := firstn (line (start range)) lines in
      let afterLines := skipn (line (endp range) + 1) lines in
      match nth_error lines (line (start range)),
            nth_error lines (line (endp range)) with
      | Some startLine, Some endLine =>
          let startLinePrefix :=
            substringTo startLine (character (start range)) in
          let endLineSuffix :=
            substringFrom endLine (character (endp range)) in
          let newLines := split newCode in
          if length newLines =? 1
          then Ret (join (beforeLines
                          ++ [startLinePrefix ++ newCode ++ endLineSuffix]
                          ++ afterLines))
          else
            let newLines :=
              mapLast (fun l => l ++ endLineSuffix)
                      (mapFirst (fun l => startLinePrefix ++ l) newLines) in
            Ret (join (beforeLines ++ newLines ++ afterLines))
      | _, _ => Throw (L "TypeError")
      end
  | None =>
      let line := line position in
      let char := character position in
      if length lines <=? line
      then Ret (originalText ++ nl :: newCode)
      else
        let currentLine := nth line lines [] in
        let beforeChar := substringTo currentLine char in
        let afterChar := substringFrom currentLine char in
        Ret (join (setLine lines line (beforeChar ++ newCode ++ afterChar)))
  end.

Section WithHost.
Variable h : Host.

Definition lift {A} (o : Outcome A) : M A := fun w => (o, w).

(** [editor.edit(cb, { undoStopBefore: true, undoStopAfter: true })]
    with a callback that replaces [range] or inserts at [position]. *)
Definition edit (editor : TextEditor) (range : option Range)
           (position : Position) (text : str) : M bool :=
  ok <- call (editorEdit h) ;;
  if ok : bool
  then emit (EditApplied (uri (document editor)) range position text) ;;
       ret true
  else ret false.

Definition showPreview (editor : TextEditor) (position : Position)
           (newCode : str) (range : option Range) : M PreviewResult :=
  tryCatch
    (let document := document editor in
     let originalUri := uri document in
     proposedContent <-
       lift (generateProposedContent (getText document) position
                                     newCode range) ;;
     changeId <- callPure (randomUUID h) ;;
     now <- callPure (dateNow h) ;;
     let pendingChange :=
       {| id := changeId; originalUri := originalUri;
          position := position; range_ := range; newCode := newCode;
          proposedContent := proposedContent; createdAt := now |} in
     pending <- getPending ;;
     setPending (<[changeId := pendingChange]> pending) ;;
     let previewUri :=
       L "mistral-preview:" ++ basename originalUri ++ L "?" ++ changeId in
     call (diffCommand h) ;;
     emit (DiffShown originalUri previewUri
                     (L "Preview Changes: " ++ basename originalUri)) ;;
     ret {| success := true; action := preview_shown;
            changeId := Some changeId; error_ := None |})
    (fun err =>
       ret {| success := false; action := error;
              changeId := None; error_ := Some err |}).

(** [showGhostText]: the decoration shows the first line of the code. *)
Definition showGhostText (editor : TextEditor) (position : Position)
           (code : str) : M str :=
  changeId <- callPure (randomUUID h) ;;
  now <- callPure (dateNow h) ;;
  pending <- getPending ;;
  setPending (<[changeId :=
                  {| id := changeId; originalUri := uri (document editor);
                     position := position; range_ := None; newCode := code;
                     proposedContent := []; createdAt := now |}]> pending) ;;
  emit (GhostTextShown (uri (document editor)) position
          (match split code with l :: _ => l | [] => [] end
           ++ if includes code [nl] then L "..." else [])) ;;
  ret changeId.

Definition applyChange (editor : TextEditor) (change : PendingChange)
  : M bool :=
  edit editor (range_ change) (position change) (newCode change).

(** The editor on the document of the change: a visible one, or the
    document is opened and shown. *)
Definition editorFor (change : PendingChange) : M TextEditor :=
  visible <- read (visibleTextEditors h) ;;
  match find (fun e => eqs (uri (document e)) (originalUri change))
             visible with
  | Some editor => ret editor
  | None =>
      text <- call (openTextDocument h) ;;
      let document := {| uri := originalUri change; getText := text |} in
      cursor <- call (showTextDocument h) ;;
      emit (DocumentShown (originalUri change)) ;;
      ret {| document := document; selection_active := cursor |}
  end.

Definition closeDiffView : M unit :=
  call (closeActiveEditor h) ;;
  emit ActiveEditorClosed.

Definition acceptChange (changeId : str) : M bool :=
  pending <- getPending ;;
  match pending !! changeId with
  | None =>
      emit (ShowWarningMessage (L "Change not found or expired.")) ;;
      ret false
  | Some change =>
      tryCatch
        (editor <- editorFor change ;;
         success <- applyChange editor change ;;
         (if success : bool
          then pending <- getPending ;;
               setPending (delete changeId pending) ;;
               closeDiffView ;;
               emit (ShowInformationMessage
                       (L "Changes applied successfully."))
          else ret tt) ;;
         ret success)
        (fun err =>
           emit (ShowErrorMessage (L "Failed to apply changes: " ++ err)) ;;
           ret false)
  end.

Definition rejectChange (changeId : str) : M unit :=
  pending <- getPending ;;
  match pending !! changeId with
  | Some change =>
      setPending (delete changeId pending) ;;
      closeDiffView ;;
      emit (ShowInformationMessage (L "Changes rejected."))
  | None => ret tt
  end.

Definition getPendingChange (changeId : str) : M (option PendingChange) :=
  pending <- getPending ;;
  ret (pending !! changeId).

Definition hasPendingChanges : M bool :=
  pending <- getPending ;;
  ret (0 <? size pending).

Definition clearPendingChanges : M unit := setPending ∅.

(** The body of the cleanup interval: entries older than ten minutes
    (in milliseconds) are deleted. *)
Definition maxAge : nat := 10 * 60 * 1000.

Definition cleanup : M unit :=
  now <- callPure (dateNow h) ;;
  pending <- getPending ;;
  setPending
    (filter (fun kv => (now - createdAt (snd kv) <= maxAge)%nat) pending).

(** *** Overlapping calls of acceptChange

    An [async] function runs until its next [await] and gives the
    thread back; it is resumed with the answer of the call it waits
    for. [AcceptTask] is a call of [acceptChange] between two such
    segments, with the locals it holds. *)
Inductive AcceptTask : Type :=
| Called (changeId : str)
| AwaitOpen (changeId : str) (change : PendingChange)
| AwaitShow (changeId : str) (change : PendingChange)
            (document : TextDocument)
| AwaitEdit (changeId : str) (change : PendingChange) (editor : TextEditor)
| AwaitClose (changeId : str)
| Returned (result : bool).

(** The [catch] block of acceptChange. *)
Definition acceptFailed (err : str) : M AcceptTask :=
  emit (ShowErrorMessage (L "Failed to apply changes: " ++ err)) ;;
  ret (Returned false).

(** One segment: from the call, or from the answer of the awaited host
    call, to the next [await] or to the [return]. *)
Definition acceptStep (t : AcceptTask) : M AcceptTask :=
  match t with
  | Called changeId =>
      pending <- getPending ;;
      match pending !! changeId with
      | None =>
          emit (ShowWarningMessage (L "Change not found or expired.")) ;;
          ret (Returned false)
      | Some change =>
          visible <- read (visibleTextEditors h) ;;
          match find (fun e => eqs (uri (document e)) (originalUri change))
                     visible with
          | Some editor => ret (AwaitEdit changeId change editor)
          | None => ret (AwaitOpen changeId change)
          end
      end
  | AwaitOpen changeId change =>
      tryCatch
        (text <- call (openTextDocument h) ;;
         ret (AwaitShow changeId change
                {| uri := originalUri change; getText := text |}))
        acceptFailed
  | AwaitShow changeId change document =>
      tryCatch
        (cursor <- call (showTextDocument h) ;;
         emit (DocumentShown (originalUri change)) ;;
         ret (AwaitEdit changeId change
                {| document := document; selection_active := cursor |}))
        acceptFailed
  | AwaitEdit changeId change editor =>
      tryCatch
        (success <- applyChange editor change ;;
         if success : bool
         then pending <- getPending ;;
              setPending (delete changeId pending) ;;
              ret (AwaitClose changeId)
         else ret (Returned false))
        acceptFailed
  | AwaitClose changeId =>
      tryCatch
        (closeDiffView ;;
         emit (ShowInformationMessage (L "Changes applied successfully.")) ;;
         ret (Returned true))
        acceptFailed
  | Returned result => ret (Returned result)
  end.

(** A call run alone, segment after segment. *)
Fixpoint acceptRun (fuel : nat) (t : AcceptTask) : M AcceptTask :=
  match fuel with
  | 0 => ret t
  | S fuel' => t' <- acceptStep t ;; acceptRun fuel' t'
  end.

(** rejectChange has one [await], after the entry is deleted. *)
Inductive RejectTask : Type :=
| RejectCalled (changeId : str)
| RejectAwaitClose
| RejectReturned.

Definition rejectStep (t : RejectTask) : M RejectTask :=
  match t with
  | RejectCalled changeId =>
      pending <- getPending ;;
      match pending !! changeId with
      | Some change =>
          setPending (delete changeId pending) ;;
          ret RejectAwaitClose
      | None => ret RejectReturned
      end
  | RejectAwaitClose =>
      closeDiffView ;;
      emit (ShowInformationMessage (L "Changes rejected.")) ;;
      ret RejectReturned
  | RejectReturned => ret RejectReturned
  end.

(** Two calls in flight; the schedule says which one runs its next
    segment ([true] for the first). *)
Fixpoint interleave (schedule : list bool) (a b : AcceptTask)
  : M (AcceptTask * AcceptTask) :=
  match schedule with
  | [] => ret (a, b)
  | true :: schedule' => a' <- acceptStep a ;; interleave schedule' a' b
  | false :: schedule' => b' <- acceptStep b ;; interleave schedule' a b'
  end.
End WithHost.
End DiffPreviewService.

(* ================================================================== *)
(** ** SmartApplyService.ts *)
(* ================================================================== *)

Module SmartApplyService.
Import Js Regex Vscode IntentDetector SymbolResolver.
Local Open Scope js_scope.

(** [intent] is [None] when the message of the webview carries no intent
    the [switch] of applySingle knows. *)
Record ApplyPayload : Type := {
  code : str;
  language : str;
  pintent : option Intent;
  ptarget : option str;
  panchor : option str
}.

Inductive ApplyAction : Type :=
  created | edited | sent_to_terminal | preview_shown | cancelled | error.

Record ApplyResult : Type := {
  success : bool;
  action : ApplyAction;
  message : option str;
  changeId : option str
}.

Definition cancelledResult : ApplyResult :=
  {| success := false; action := cancelled; message := None;
     changeId := None |}.

Definition createdResult (msg : str) : ApplyResult :=
  {| success := true; action := created; message := Some msg;
     changeId := None |}.

(** *** cleanCodeForFile *)

(** The five header patterns of cleanCodeForFile, in order; none has a
    capture group. *)
Definition path : regex := Regex.seq [plus nonspace; lit "."; plus word].

Definition fileHeaderPatterns : list pattern :=
  [ re (Regex.seq [Bol; lit "//"; Star space; path; Star space; Eol]);
    re (Regex.seq [Bol; lit "#"; Star space; path; Star space; Eol]);
    re (Regex.seq [Bol; lit "/*"; Star space; path; Star space; lit "*/";
                   Star space; Eol]);
    re (Regex.seq [Bol; lit "<!--"; Star space; path; Star space; lit "-->";
                   Star space; Eol]);
    re (Regex.seq [Bol; hashes13; plus space; path; Star space; Eol]) ].

(** Whether the first line is a header that cleanCodeForFile removes. *)
Definition isFileHeader (firstLine : str) : bool :=
  existsb (fun p => test p firstLine) fileHeaderPatterns.

Definition cleanCodeForFile (code : str) : str :=
  let lines := split code in
  let firstLine := head0 lines in
  if isFileHeader firstLine
  then trimStart (join (skipn 1 lines))
  else code.

(** *** normalizeLanguage *)

Definition languageMap : list (string * string) :=
  [ ("js", "javascript"); ("ts", "typescript"); ("py", "python");
    ("rb", "ruby"); ("rs", "rust"); ("sh", "shellscript");
    ("bash", "shellscript"); ("zsh", "shellscript"); ("yml", "yaml");
    ("md", "markdown") ]%string.

Fixpoint lookupLanguage (table : list (string * string)) (key : str)
  : option str :=
  match table with
  | [] => None
  | (k, v) :: table' =>
      if eqs (L k) key then Some (L v) else lookupLanguage table' key
  end.

Definition normalizeLanguage (language : str) : str :=
  let langOnly := head0 (splitOn ":"%char language) in
  match lookupLanguage languageMap (toLowerCase langOnly) with
  | Some canonical => canonical
  | None => match langOnly with [] => L "plaintext" | _ => langOnly end
  end.

(** [vscode.Uri.joinPath(base, segment)], kept symbolic. *)
Definition joinPath (base segment : str) : str := base ++ "/"%char :: segment.

(** *** The intent applySingle routes on *)

(** The local [intent] and the payload after the auto-detection block;
    [activeFile] is the path of the active document. *)
Definition resolveIntent (config : SmartApplyConfig) (activeFile : option str)
           (payload : ApplyPayload) : option Intent * ApplyPayload :=
  if autoDetectIntent config then
    let detected := detect (code payload) (language payload) activeFile in
    if Qgtb (confidence detected) (6 # 10) then
      (Some (intent detected),
       {| code := code payload; language := language payload;
          pintent := pintent payload;
          ptarget := if truthy (target detected)
                        && negb (truthy (ptarget payload))
                     then target detected else ptarget payload;
          panchor := if truthy (anchor detected)
                        && negb (truthy (panchor payload))
                     then anchor detected else panchor payload |})
    else (pintent payload, payload)
  else (pintent payload, payload).

(** [shouldPreview] of handleEdit. *)
Definition shouldPreview (config : SmartApplyConfig) (payload : ApplyPayload)
  : bool :=
  match previewMode config with
  | always => true
  | edits_only =>
      match pintent payload with Some Edit => true | _ => false end
  | never => false
  end.

Section WithHost.
Variable h : Host.

(** *** handleCreate *)

(** The folder the file goes to; [None] when the user cancels. *)
Definition chooseBasePath (config : SmartApplyConfig) (workspaceRoot : str)
  : M (option str) :=
  let currentFolder :=
    activeFile <- read (activeTextEditor h) ;;
    ret (Some (match activeFile with
               | Some e => joinPath (uri (document e)) (L "..")
               | None => workspaceRoot
               end)) in
  match createFileLocation config with
  | current_folder => currentFolder
  | ask =>
      choice <- call (showQuickPick h) ;;
      match choice with
      | None => ret None
      | Some value =>
          if eqs value (L "current") then currentFolder
          else if eqs value (L "choose") then
            folders <- call (showOpenDialog h) ;;
            match folders with
            | Some (folder :: _) => ret (Some folder)
            | _ => ret None
            end
          else ret (Some workspaceRoot)
      end
  | workspace_root => ret (Some workspaceRoot)
  end.

Definition handleCreate (payload : ApplyPayload) : M ApplyResult :=
  config <- read (configuration h) ;;
  let cleanedCode := cleanCodeForFile (code payload) in
  folders <- read (workspaceFolders h) ;;
  match ptarget payload, folders with
  | Some ((_ :: _) as target), Some [] =>
      (* workspaceFolders[0] is undefined *)
      throw (L "TypeError")
  | Some ((_ :: _) as target), Some (workspaceRoot :: _) =>
      basePath <- chooseBasePath config workspaceRoot ;;
      match basePath with
      | None => ret cancelledResult
      | Some basePath =>
          let targetUri := joinPath basePath target in
          declined <-
            tryCatch
              (call (fsStat h) ;;
               overwrite <- call (showWarningChoice h) ;;
               ret (match overwrite with
                    | Some o => negb (eqs o (L "Overwrite"))
                    | None => true
                    end))
              (fun _ => ret false) ;;
          if declined : bool then ret cancelledResult
          else
            let parentDir := joinPath targetUri (L "..") in
            tryCatch
              (call (fsCreateDirectory h) ;; emit (DirectoryCreated parentDir))
              (fun _ => ret tt) ;;
            call (fsWriteFile h) ;;
            emit (FileWritten targetUri cleanedCode) ;;
            call (openTextDocument h) ;;
            call (showTextDocument h) ;;
            emit (DocumentShown targetUri) ;;
            ret (createdResult (L "Created " ++ target))
      end
  | _, _ =>
      call (openTextDocument h) ;;
      call (showTextDocument h) ;;
      emit (UntitledShown cleanedCode (normalizeLanguage (language payload))) ;;
      ret (createdResult (L "Created new file"))
  end.

(** *** handleCommand *)

(** [code.trim().replace(/^[$>%]\s*/, "").trim()] *)
Definition cleanCommand (code : str) : str :=
  trim (match trim code with
        | c :: rest =>
            if existsb (eqc c) (L "$>%") then trimStart rest else c :: rest
        | [] => []
        end).

Definition handleCommand (payload : ApplyPayload) : M ApplyResult :=
  let cleanedCommand := cleanCommand (code payload) in
  terminal <- read (activeTerminal h) ;;
  (if terminal : bool then ret tt else emit (TerminalCreated (L "Mistral"))) ;;
  emit TerminalShown ;;
  emit (TerminalText cleanedCommand false) ;;
  ret {| success := true; action := sent_to_terminal;
         message := Some (L "Command sent to terminal (press Enter to run)");
         changeId := None |}.

(** *** handleEdit *)

Inductive TargetCheck : Type := applyHere | createNewFile | cancel.

(** The target validation at the head of handleEdit. *)
Definition checkTarget (editor : TextEditor) (payload : ApplyPayload)
  : M TargetCheck :=
  match ptarget payload with
  | Some ((_ :: _) as target) =>
      let activeFileName :=
        DiffPreviewService.basename (uri (document editor)) in
      let targetFileName := DiffPreviewService.basename target in
      if negb (eqs activeFileName targetFileName) then
        choice <- call (showWarningChoice h) ;;
        match choice with
        | None => ret cancel
        | Some choice =>
            if eqs choice (L "Create New File") then ret createNewFile
            else if eqs choice (L "Cancel") then ret cancel
            else ret applyHere
        end
      else ret applyHere
  | _ => ret applyHere
  end.

(** The notices after the anchor is resolved. *)
Definition fallbackNotice (config : SmartApplyConfig)
           (payload : ApplyPayload) (resolved : ResolvedPosition) : M unit :=
  match method resolved, panchor payload, rsymbolName resolved with
  | cursor_fallback, Some ((_ :: _) as anchor), _ =>
      if showFallbackWarnings config
      then emit (ShowWarningMessage
                   (L "Could not find " ++ dquote :: anchor
                    ++ dquote :: L ". Inserting at cursor position."))
      else ret tt
  | fuzzy_symbol, _, Some ((_ :: _) as name) =>
      emit (ShowInformationMessage
              (L "Matched to " ++ dquote :: name
               ++ dquote :: L " (fuzzy match)"))
  | _, _, _ => ret tt
  end.

(** handleEdit from the resolution of the anchor on: the editor is
    there and the target check said "apply here". *)
Definition editInPlace (editor : TextEditor) (payload : ApplyPayload)
           (config : SmartApplyConfig) : M ApplyResult :=
  resolved <- resolveAnchor h (document editor) (panchor payload)
                            (selection_active editor) ;;
  fallbackNotice config payload resolved ;;
  if shouldPreview config payload then
    previewResult <-
      DiffPreviewService.showPreview h editor (rposition resolved)
                                     (code payload) (rrange resolved) ;;
    if DiffPreviewService.success previewResult
    then ret {| success := true; action := preview_shown; message := None;
                changeId := DiffPreviewService.changeId previewResult |}
    else ret {| success := false; action := error;
                message := DiffPreviewService.error_ previewResult;
                changeId := None |}
  else
    success <- DiffPreviewService.edit h editor (rrange resolved)
                                       (rposition resolved) (code payload) ;;
    ret {| success := success;
           action := if success then edited else error;
           message := Some (if success then L "Code applied"
                            else L "Failed to apply code");
           changeId := None |}.

Definition handleEdit (payload : ApplyPayload) (config : SmartApplyConfig)
  : M ApplyResult :=
  editor <- read (activeTextEditor h) ;;
  match editor with
  | None => handleCreate payload
  | Some editor =>
      check <- checkTarget editor payload ;;
      match check with
      | createNewFile => handleCreate payload
      | cancel => ret cancelledResult
      | applyHere => editInPlace editor payload config
      end
  end.

(** *** applySingle and apply *)

Definition applySingle (payload : ApplyPayload) : M ApplyResult :=
  config <- read (configuration h) ;;
  activeEditor <- read (activeTextEditor h) ;;
  let activeFile := option_map (fun e => uri (document e)) activeEditor in
  let (intent, payload) := resolveIntent config activeFile payload in
  match intent with
  | Some Create => handleCreate payload
  | Some Command => handleCommand payload
  | Some Edit => handleEdit payload config
  | None => handleEdit payload config
  end.

(** The loop of [apply] over the payloads left; [n] is [payload.length]. *)
Fixpoint applyEach (payloads : list ApplyPayload) (n : nat) : M ApplyResult :=
  match payloads with
  | [] =>
      ret (createdResult (L "Applied " ++ ofNat n ++ L " files"))
  | p :: rest =>
      result <- applySingle p ;;
      if success result then applyEach rest n else ret result
  end.

Definition apply (payload : ApplyPayload + list ApplyPayload)
  : M ApplyResult :=
  match payload with
  | inr payloads => applyEach payloads (length payloads)
  | inl single => applySingle single
  end.

Definition acceptChange (changeId : str) : M bool :=
  DiffPreviewService.acceptChange h changeId.

Definition rejectChange (changeId : str) : M unit :=
  DiffPreviewService.rejectChange h changeId.
End WithHost.
End SmartApplyService.

(* ================================================================== *)
(** ** Notions the properties are stated with *)
(* ================================================================== *)

Module Notions.
Import Js Vscode SymbolResolver SmartApplyService.

(** The symbols of a tree in the order findSymbol visits them (a symbol,
    then its descendants, then its next sibling). *)
Fixpoint descendants (s : DocumentSymbol) : list DocumentSymbol :=
  match s with
  | mkSymbol _ _ children => s :: flat_map descendants children
  end.

Definition allSymbols (symbols : list DocumentSymbol) : list DocumentSymbol :=
  flat_map descendants symbols.

(** What getDocumentSymbols obtains from the symbol index at world [w]. *)
Definition indexedSymbols (h : Host) (w : World)
  : option (list DocumentSymbol) :=
  match executeDocumentSymbolProvider h (clock w) with
  | Ret symbols => symbols
  | Throw _ => None
  end.

(** No stage of the chain (exact symbol, fuzzy symbol, text search)
    locates the anchor. *)
Definition noStageLocates (h : Host) (document : TextDocument)
           (anchor : str) (w : World) : Prop :=
  symbolStages (indexedSymbols h w) anchor = None
  /\ findTextMatch document anchor = None.

(** Deleting [n] units at [position]: the line of the position keeps its
    first [character] units and what follows the [n] deleted ones. *)
Definition deleteAt (text : str) (position : Position) (n : nat) : str :=
  let lines := split text in
  let current := nth (line position) lines [] in
  if length lines <=? line position then text
  else join (DiffPreviewService.setLine lines (line position)
               (firstn (character position) current
                ++ skipn (character position + n) current)).

(** A position inside the text: an existing line, and a column of it. *)
Definition insideText (text : str) (position : Position) : Prop :=
  line position < length (split text)
  /\ character position <= length (nth (line position) (split text) []).

Definition singleLine (code : str) : Prop := ~ In nl code.

(** The world after the units of [payloads] ran in order from [w] and
    each returned a result with [success: true]; [None] if one did not. *)
Fixpoint runSucceeding (h : Host) (payloads : list ApplyPayload) (w : World)
  : option World :=
  match payloads with
  | [] => Some w
  | p :: rest =>
      match applySingle h p w with
      | (Ret r, w') => if success r then runSucceeding h rest w' else None
      | (Throw _, _) => None
      end
  end.

(** How the loop of [apply] ends in world [w1] with the units [rest] left,
    [n] being the length of the array: no unit is left, and the result
    is "Applied n files" in [w1]; or the next unit returns a result with
    [success: false], which is the result, in the world that unit left. *)
Definition batchEnds (h : Host) (n : nat) (w1 : World)
           (rest : list ApplyPayload) (r : ApplyResult) (w2 : World) : Prop :=
  (rest = []
   /\ r = {| success := true; action := created;
             message := Some (L "Applied " ++ ofNat n ++ L " files");
             changeId := None |}
   /\ w2 = w1)
  \/ (exists p post,
         rest = p :: post
         /\ applySingle h p w1 = (Ret r, w2)
         /\ success r = false).

(** The id is not pending in [w] because it never was, or because [w] is
    the world a successful acceptChange or a rejectChange of it left. *)
Definition unknownOrResolved (h : Host) (changeId : str) (w : World) : Prop :=
  pendingChanges w !! changeId = None
  \/ (exists w0, DiffPreviewService.acceptChange h changeId w0 = (Ret true, w))
  \/ (exists w0 o, DiffPreviewService.rejectChange h changeId w0 = (o, w)).

(** The intent and the confidence of a verdict, whatever target and
    anchor it carries. *)
Definition rated (i : IntentDetector.Intent) (cs : list Q)
           (d : IntentDetector.DetectedIntent) : Prop :=
  IntentDetector.intent d = i /\ In (IntentDetector.confidence d) cs.

(** A pattern without its capture groups. *)
Fixpoint erase (r : Regex.regex) : Regex.regex :=
  match r with
  | Regex.Seq r1 r2 => Regex.Seq (erase r1) (erase r2)
  | Regex.Alt r1 r2 => Regex.Alt (erase r1) (erase r2)
  | Regex.Star r1 => Regex.Star (erase r1)
  | Regex.Group _ r1 => erase r1
  | _ => r
  end.

Definition isSome {A} (o : option A) : bool :=
  match o with Some _ => true | None => false end.

(** The header predicate of the create stage of the classifier, on a first
    line: one of the five path comments, or the markdown heading. *)
Definition classifierHeader (firstLine : str) : bool :=
  isSome (IntentDetector.firstExec IntentDetector.fileCommentPatterns firstLine)
  || isSome (Regex.exec IntentDetector.markdownHeaderRegex firstLine).

(** Its fifth path comment, the docstring. *)
Definition docstringPattern : Regex.pattern :=
  nth 4 IntentDetector.fileCommentPatterns (Regex.re Regex.Eps).

(** Line [i] of the document as the loops of findImportSection read it:
    trimmed. *)
Definition trimmedLine (lines : list str) (i : nat) : str :=
  trim (nth i lines []).

(** The first loop skips line [i]: one of the first ten lines, empty or
    a comment. *)
Definition skippedAt (lines : list str) (i : nat) : bool :=
  (i <? 10) && isTopComment (trimmedLine lines i).

(** The first loop takes line [i] for an import. *)
Definition importAt (lines : list str) (i : nat) : bool :=
  negb (skippedAt lines i) && isImportLine (trimmedLine lines i).

(** Line [i] ends the import section once an import was seen: it is not
    skipped, no import, and not empty. *)
Definition endsImports (lines : list str) (i : nat) : bool :=
  negb (skippedAt lines i) && negb (isImportLine (trimmedLine lines i))
  && negb (eqs (trimmedLine lines i) []).

(** The second loop takes line [i] for code: not empty, no shebang and
    no [//] or [/*] comment. *)
Definition codeAt (lines : list str) (i : nat) : bool :=
  negb (eqs (trimmedLine lines i) [])
  && negb (startsWith (trimmedLine lines i) (L "#!"))
  && negb (startsWith (trimmedLine lines i) (L "//"))
  && negb (startsWith (trimmedLine lines i) (L "/*")).

(** Where the import-section locator puts line [n], for the lines of a
    document. Line [n] is the last import of the import section: it is an
    import; no line before it ended the section (a line that ends it has
    no import before it); and every import after it lies beyond a line
    that ends the section. *)
Definition lastImportOfSection (lines : list str) (n : nat) : Prop :=
  n < length lines
  /\ importAt lines n = true
  /\ (forall k m, k < n -> endsImports lines k = true -> m < k ->
                  importAt lines m = false)
  /\ (forall j, n < j < length lines -> importAt lines j = true ->
                exists k, n < k < j /\ endsImports lines k = true).

(** Line [i] is the first line with code among the first five. *)
Definition firstCodeAmongFive (lines : list str) (i : nat) : Prop :=
  i < 5 /\ i < length lines
  /\ codeAt lines i = true
  /\ forall j, j < i -> codeAt lines j = false.

(** None of the first five lines has code. *)
Definition noCodeAmongFive (lines : list str) : Prop :=
  forall j, j < 5 -> j < length lines -> codeAt lines j = false.

(** No line of the document is taken for an import. *)
Definition noImport (lines : list str) : Prop :=
  forall m, m < length lines -> importAt lines m = false.

(** What the first loop knows after the lines before [i], with
    [lastImportLine] as it is then. *)
Definition scanned (lines : list str) (i : nat) (lastImportLine : option nat)
  : Prop :=
  match lastImportLine with
  | None => forall m, m < i -> importAt lines m = false
  | Some n =>
      n < i
      /\ importAt lines n = true
      /\ (forall j, n < j < i ->
                    importAt lines j = false /\ endsImports lines j = false)
      /\ (forall k m, k < n -> endsImports lines k = true -> m < k ->
                      importAt lines m = false)
  end.

(** The result of a finished call. *)
Definition returned (t : DiffPreviewService.AcceptTask) : option bool :=
  match t with
  | DiffPreviewService.Returned b => Some b
  | _ => None
  end.
End Notions.

(* ================================================================== *)
(** ** Concrete hosts, documents and payloads *)
(* ================================================================== *)

Module Scenario.
Import Js Vscode IntentDetector SymbolResolver SmartApplyService.

Definition at_ (l c : nat) : Position := {| line := l; character := c |}.

Definition config0 : SmartApplyConfig :=
  {| previewMode := edits_only; autoDetectIntent := true;
     createFileLocation := ask; showFallbackWarnings := true |}.

Definition appTs : TextDocument :=
  {| uri := L "/w/src/app.ts"; getText := L "const x = 1;" |}.

Definition editor0 : TextEditor :=
  {| document := appTs; selection_active := at_ 0 3 |}.

(** A host with [app.ts] active but not among the visible editors, no
    symbol provider, which accepts every edit and whose user dismisses
    every prompt. *)
Definition host0 : Host :=
  {| configuration := fun _ => config0;
     activeTextEditor := fun _ => Some editor0;
     visibleTextEditors := fun _ => [];
     workspaceFolders := fun _ => Some [L "/w"];
     activeTerminal := fun _ => false;
     executeDocumentSymbolProvider := fun _ => Ret None;
     editorEdit := fun _ => Ret true;
     openTextDocument := fun _ => Ret (getText appTs);
     showTextDocument := fun _ => Ret (at_ 0 0);
     diffCommand := fun _ => Ret tt;
     closeActiveEditor := fun _ => Ret tt;
     showQuickPick := fun _ => Ret None;
     showWarningChoice := fun _ => Ret None;
     showOpenDialog := fun _ => Ret None;
     fsStat := fun _ => Throw (L "FileNotFound");
     fsCreateDirectory := fun _ => Ret tt;
     fsWriteFile := fun _ => Ret tt;
     randomUUID := fun n => L "change-" ++ ofNat n;
     dateNow := fun n => 1000 * n |}.

(** [host0] with another symbol provider. *)
Definition withSymbols
           (provider : nat -> Outcome (option (list DocumentSymbol)))
  : Host :=
  {| configuration := configuration host0;
     activeTextEditor := activeTextEditor host0;
     visibleTextEditors := visibleTextEditors host0;
     workspaceFolders := workspaceFolders host0;
     activeTerminal := activeTerminal host0;
     executeDocumentSymbolProvider := provider;
     editorEdit := editorEdit host0;
     openTextDocument := openTextDocument host0;
     showTextDocument := showTextDocument host0;
     diffCommand := diffCommand host0;
     closeActiveEditor := closeActiveEditor host0;
     showQuickPick := showQuickPick host0;
     showWarningChoice := showWarningChoice host0;
     showOpenDialog := showOpenDialog host0;
     fsStat := fsStat host0;
     fsCreateDirectory := fsCreateDirectory host0;
     fsWriteFile := fsWriteFile host0;
     randomUUID := randomUUID host0;
     dateNow := dateNow host0 |}.

Definition world0 : World :=
  {| clock := 0; pendingChanges := ∅; trace := [] |}.

Definition payload (i : option Intent) (c : str) : ApplyPayload :=
  {| code := c; language := L "ts"; pintent := i; ptarget := None;
     panchor := None |}.

(** A one-line import, sent by the webview as a "create" block. *)
Definition importLine : str := L "import x from 'y'".
Definition importAsCreate : ApplyPayload := payload (Some Create) importLine.

(** A block whose header is a Python docstring naming the file. *)
Definition docstringHeader : str :=
  [dquote; dquote; dquote] ++ L " src/main.py "
  ++ [dquote; dquote; dquote] ++ nl :: L "print(1)".

(** A block whose path comment follows a blank line. *)
Definition indentedHeader : str :=
  nl :: L "// src/app.ts" ++ nl :: L "export const x = 1;".

(** Scenario C: the tree has [formatDateTime], the text has neither. *)
Definition dateSymbols : list DocumentSymbol :=
  [ mkSymbol (L "formatDateTime")
             {| start := at_ 2 0; endp := at_ 4 1 |} [] ].

Definition dateDoc : TextDocument :=
  {| uri := L "/w/src/dates.ts"; getText := L "// generated" |}.

Definition emptyDoc : TextDocument :=
  {| uri := L "/w/src/empty.ts"; getText := [] |}.

(** A comment, an import, code, and an import after the code. *)
Definition importsDoc : TextDocument :=
  {| uri := L "/w/src/main.ts";
     getText := L "// main" ++ nl :: L "import a from 'a'" ++ nl
                :: L "run();" ++ nl :: L "import b from 'b'" |}.

(** A shebang, then code; no import. *)
Definition scriptDoc : TextDocument :=
  {| uri := L "/w/run.sh";
     getText := L "#!/bin/sh" ++ nl :: L "echo hi" |}.

(** Comments only. *)
Definition commentsDoc : TextDocument :=
  {| uri := L "/w/src/notes.ts";
     getText := L "// a" ++ nl :: L "/* b */" |}.

(** A batch: a command, a file creation the user cancels, a command. *)
Definition unitA : ApplyPayload := payload (Some Command) (L "$ npm test").
Definition unitB : ApplyPayload :=
  payload (Some Create) (L "// src/new.ts" ++ nl :: L "export {};").
Definition unitC : ApplyPayload := payload (Some Command) (L "$ npm run build").

(** The worlds the units leave. *)
Definition afterA : World := snd (applySingle host0 unitA world0).
Definition afterB : World := snd (applySingle host0 unitB afterA).
Definition afterAC : World := snd (applySingle host0 unitC afterA).

(** The world after [host0] previewed the import line in [app.ts]. *)
Definition previewed : World :=
  snd (applySingle host0 (payload (Some Edit) importLine) world0).

Definition previewId : str := L "change-0".

(** The world after that change was accepted. *)
Definition accepted : World :=
  snd (DiffPreviewService.acceptChange host0 previewId previewed).

(** Two calls of acceptChange for the same id, ten segments: the second
    call starts while the first waits for openTextDocument; the first
    then runs to its end; the second follows. *)
Definition overlap : list bool :=
  [true; false; true; true; true; true; false; false; false; false].
End Scenario.

(* ================================================================== *)
(** ** More of the services *)
(* ================================================================== *)

(** SymbolResolver.findAllMatchingSymbols. *)
Module SymbolSearch.
Import Js Vscode SymbolResolver.
Local Open Scope js_scope.

(** [searchSymbols] on one symbol: the symbol if its name contains the
    pattern, then what its children give, in order. *)
Fixpoint searchSymbolsAt (normalizedPattern : str) (symbol : DocumentSymbol)
  : list DocumentSymbol :=
  (if includes (toLowerCase (symbolName symbol)) normalizedPattern
   then [symbol] else [])
  ++ match symbol with
     | mkSymbol _ _ children =>
         flat_map (searchSymbolsAt normalizedPattern) children
     end.

Definition searchSymbols (normalizedPattern : str)
           (syms : list DocumentSymbol) : list DocumentSymbol :=
  flat_map (searchSymbolsAt normalizedPattern) syms.

Definition findAllMatchingSymbols (h : Host) (document : TextDocument)
           (pattern : str) : M (list DocumentSymbol) :=
  symbols <- getDocumentSymbols h document ;;
  match symbols with
  | None => ret []
  | Some symbols => ret (searchSymbols (toLowerCase pattern) symbols)
  end.
End SymbolSearch.

(** MistralSidebarProvider._handleApplyUpdate, the caller of [apply]. The
    value returned stands for the "applyResult" message posted to the
    webview. *)
Module SidebarProvider.
Import Js Vscode IntentDetector SmartApplyService.
Local Open Scope js_scope.

(** [result.message || fallback] *)
Definition messageOr (message : option str) (fallback : string) : str :=
  match message with
  | Some ((_ :: _) as m) => m
  | _ => L fallback
  end.

(** The notice shown after the result is posted. *)
Definition notify (result : ApplyResult) : M unit :=
  if success result then
    match action result with
    | created =>
        emit (ShowInformationMessage (messageOr (message result) "File created"))
    | sent_to_terminal =>
        emit (ShowInformationMessage
                (messageOr (message result) "Command sent to terminal"))
    | edited =>
        emit (ShowInformationMessage (messageOr (message result) "Code applied"))
    | _ => ret tt
    end
  else
    match action result with
    | cancelled => ret tt
    | _ =>
        emit (ShowErrorMessage
                (messageOr (message result) "Failed to apply code"))
    end.

Definition handleApplyUpdate (h : Host)
           (payload : ApplyPayload + list ApplyPayload) : M ApplyResult :=
  tryCatch
    (result <- apply h payload ;;
     notify result ;;
     ret result)
    (fun err =>
       emit (ShowErrorMessage (L "Failed to apply code: " ++ err)) ;;
       ret {| success := false; action := error; message := Some err;
              changeId := None |}).

(** The legacy "applyCode" message: an edit, in "plaintext" when the
    message names no language. *)
Definition legacyPayload (code : str) (language : option str) : ApplyPayload :=
  {| code := code;
     language := match language with
                 | Some ((_ :: _) as l) => l
                 | _ => L "plaintext"
                 end;
     pintent := Some Edit; ptarget := None; panchor := None |}.
End SidebarProvider.

(** What a pattern matches, as a relation: from the input split into
    [before] (consumed, last unit first) and [rest], to the split after
    the match. *)
Module RegexMeaning.
Import Js Regex.

Inductive Den (ml : bool) : regex -> str -> str -> str -> str -> Prop :=
| DenEps b s : Den ml Eps b s b s
| DenChr p x b s : p x = true -> Den ml (Chr p) b (x :: s) (x :: b) s
| DenSeq r1 r2 b s b1 s1 b2 s2 :
    Den ml r1 b s b1 s1 -> Den ml r2 b1 s1 b2 s2 ->
    Den ml (Seq r1 r2) b s b2 s2
| DenAltL r1 r2 b s b' s' : Den ml r1 b s b' s' -> Den ml (Alt r1 r2) b s b' s'
| DenAltR r1 r2 b s b' s' : Den ml r2 b s b' s' -> Den ml (Alt r1 r2) b s b' s'
| DenStarStop r b s : Den ml (Star r) b s b s
| DenStarStep r b s b1 s1 b2 s2 :
    Den ml r b s b1 s1 -> Den ml (Star r) b1 s1 b2 s2 ->
    Den ml (Star r) b s b2 s2
| DenGroup i r b s b' s' : Den ml r b s b' s' -> Den ml (Group i r) b s b' s'
| DenBol b s : atBol ml b = true -> Den ml Bol b s b s
| DenEol b s : atEol ml s = true -> Den ml Eol b s b s.
End RegexMeaning.

(** Properties of a computation of the services, for every world. *)
Module Behaviour.
Import Js Vscode.

(** Every event the computation adds to the trace satisfies [P]; the
    trace is only extended. *)
Definition emits {A} (P : Event -> Prop) (c : M A) : Prop :=
  forall w, exists evs,
    trace (snd (c w)) = trace w ++ evs /\ Forall P evs.

(** When the computation returns, its value satisfies [Q]. *)
Definition returns {A} (Q : A -> Prop) (c : M A) : Prop :=
  forall w a w', c w = (Ret a, w') -> Q a.

(** The computation does not touch the pending changes. *)
Definition keepsPending {A} (c : M A) : Prop :=
  forall w, pendingChanges (snd (c w)) = pendingChanges w.

(** Text staged in a terminal is never executed. *)
Definition notExecuted (e : Event) : Prop :=
  match e with
  | TerminalText _ execute => execute = false
  | _ => True
  end.

(** The event is no document edit. *)
Definition noEdit (e : Event) : Prop := isEdit e = false.

(** What creating a file does. *)
Definition fromCreate (e : Event) : Prop :=
  match e with
  | DirectoryCreated _ | FileWritten _ _ | DocumentShown _
  | UntitledShown _ _ => True
  | _ => False
  end.

(** What staging a command does. *)
Definition fromCommand (e : Event) : Prop :=
  match e with
  | TerminalCreated _ | TerminalShown => True
  | TerminalText _ execute => execute = false
  | _ => False
  end.

(** What previewing an edit does. *)
Definition fromPreview (e : Event) : Prop :=
  match e with
  | ShowWarningMessage _ | ShowInformationMessage _ | DiffShown _ _ _ => True
  | _ => False
  end.

(** The computation shows nothing and does not touch the pending
    changes. *)
Definition quiet {A} (c : M A) : Prop :=
  forall w, trace (snd (c w)) = trace w
            /\ pendingChanges (snd (c w)) = pendingChanges w.

(** When the computation returns a value satisfying [Q], it has shown
    nothing and has not touched the pending changes. *)
Definition silentWhen {A} (Q : A -> Prop) (c : M A) : Prop :=
  forall w a w',
    c w = (Ret a, w') -> Q a ->
    trace w' = trace w /\ pendingChanges w' = pendingChanges w.

(** A result as the webview expects it: [success] goes with the action,
    and an id comes only with a preview. *)
Definition wellFormed (r : SmartApplyService.ApplyResult) : Prop :=
  SmartApplyService.success r
  = match SmartApplyService.action r with
    | SmartApplyService.cancelled | SmartApplyService.error => false
    | _ => true
    end
  /\ (SmartApplyService.changeId r = None
      \/ SmartApplyService.action r = SmartApplyService.preview_shown).

(** The event is a notice to the user. *)
Definition isNotice (e : Event) : Prop :=
  match e with
  | ShowWarningMessage _ | ShowInformationMessage _ | ShowErrorMessage _ => True
  | _ => False
  end.
End Behaviour.

(** Notions the further properties are stated with. *)
Module Invariants.
Import Js Vscode.

(** A row of the edit-distance matrix: entry [k] of the row is at most
    [max i (j + k)]. *)
Definition bounded (i j : nat) (row : list nat) : Prop :=
  forall k v, nth_error row k = Some v -> v <= Nat.max i (j + k).

(** The text of [lines] before and from a position of an existing line. *)
Definition textBefore (lines : list str) (p : Position) : str :=
  join (firstn (line p) lines
        ++ [substringTo (nth (line p) lines []) (character p)]).

Definition textFrom (lines : list str) (p : Position) : str :=
  join (substringFrom (nth (line p) lines []) (character p)
        :: skipn (line p + 1) lines).

(** The edit of a pending change. *)
Definition editOf (change : PendingChange) : Event :=
  EditApplied (originalUri change) (range_ change) (position change)
              (newCode change).

(** The clock at which acceptChange asks the editor of the change for
    the edit: at once when the document is in a visible editor, after
    the document was opened and shown otherwise; or what opening or
    showing it threw. *)
Definition editCall (h : Host) (change : PendingChange) (w : World)
  : Outcome nat :=
  match find (fun e => eqs (uri (document e)) (originalUri change))
             (visibleTextEditors h (clock w)) with
  | Some _ => Ret (clock w)
  | None =>
      match openTextDocument h (clock w) with
      | Throw e => Throw e
      | Ret _ =>
          match showTextDocument h (S (clock w)) with
          | Throw e => Throw e
          | Ret _ => Ret (S (S (clock w)))
          end
      end
  end.

(** From [w] to [w'] the last thing shown is [e]. *)
Definition shownLast (e : Event) (w w' : World) : Prop :=
  exists evs, trace w' = trace w ++ evs ++ [e].

(** From [w] to [w'] no notice is shown. *)
Definition noNotice (w w' : World) : Prop :=
  exists evs,
    trace w' = trace w ++ evs
    /\ Forall (fun e => match e with
                        | ShowWarningMessage _ | ShowInformationMessage _
                        | ShowErrorMessage _ => False
                        | _ => True
                        end) evs.

(** From [w] to [w'] no document is edited and the pending changes are
    kept. *)
Definition untouched (w w' : World) : Prop :=
  documentEdits w' = documentEdits w
  /\ pendingChanges w' = pendingChanges w.

(** From [w] to [w'] the change [cid] was applied: its edit is the one
    edit made, and its entry is deleted. *)
Definition appliedChange (cid : str) (change : PendingChange) (w w' : World)
  : Prop :=
  documentEdits w' = documentEdits w ++ [editOf change]
  /\ pendingChanges w' = delete cid (pendingChanges w).

(** Both ends of the range are on lines of the text. *)
Definition rangeInside (text : str) (r : Range) : Prop :=
  line (start r) < length (split text)
  /\ line (endp r) < length (split text).

(** Where a change starts and ends: the ends of its range, or its
    position twice. *)
Definition changeStart (position : Position) (range : option Range)
  : Position :=
  match range with Some r => start r | None => position end.

Definition changeEnd (position : Position) (range : option Range)
  : Position :=
  match range with Some r => endp r | None => position end.

(** The change is on lines of the text. *)
Definition changeInside (text : str) (position : Position)
           (range : option Range) : Prop :=
  line (changeStart position range) < length (split text)
  /\ line (changeEnd position range) < length (split text).
End Invariants.

(** Further hosts for the scenarios. *)
Module Hosts.
Import Js Vscode Scenario.

(** [host0] whose diff command and whose command closing the active
    editor answer as given. *)
Definition withCommands (diff close : nat -> Outcome unit) : Host :=
  {| configuration := configuration host0;
     activeTextEditor := activeTextEditor host0;
     visibleTextEditors := visibleTextEditors host0;
     workspaceFolders := workspaceFolders host0;
     activeTerminal := activeTerminal host0;
     executeDocumentSymbolProvider := executeDocumentSymbolProvider host0;
     editorEdit := editorEdit host0;
     openTextDocument := openTextDocument host0;
     showTextDocument := showTextDocument host0;
     diffCommand := diff;
     closeActiveEditor := close;
     showQuickPick := showQuickPick host0;
     showWarningChoice := showWarningChoice host0;
     showOpenDialog := showOpenDialog host0;
     fsStat := fsStat host0;
     fsCreateDirectory := fsCreateDirectory host0;
     fsWriteFile := fsWriteFile host0;
     randomUUID := randomUUID host0;
     dateNow := dateNow host0 |}.

(** The diff view cannot be opened. *)
Definition noDiff : Host :=
  withCommands (fun _ => Throw (L "Error: command 'vscode.diff' failed"))
               (closeActiveEditor host0).

(** The active editor cannot be closed. *)
Definition noClose : Host :=
  withCommands (diffCommand host0)
               (fun _ => Throw (L "Error: command failed")).

(** [host0] with another configuration. *)
Definition withConfiguration (config : SmartApplyConfig) : Host :=
  {| configuration := fun _ => config;
     activeTextEditor := activeTextEditor host0;
     visibleTextEditors := visibleTextEditors host0;
     workspaceFolders := workspaceFolders host0;
     activeTerminal := activeTerminal host0;
     executeDocumentSymbolProvider := executeDocumentSymbolProvider host0;
     editorEdit := editorEdit host0;
     openTextDocument := openTextDocument host0;
     showTextDocument := showTextDocument host0;
     diffCommand := diffCommand host0;
     closeActiveEditor := closeActiveEditor host0;
     showQuickPick := showQuickPick host0;
     showWarningChoice := showWarningChoice host0;
     showOpenDialog := showOpenDialog host0;
     fsStat := fsStat host0;
     fsCreateDirectory := fsCreateDirectory host0;
     fsWriteFile := fsWriteFile host0;
     randomUUID := randomUUID host0;
     dateNow := dateNow host0 |}.

Definition alwaysPreview : SmartApplyConfig :=
  {| previewMode := always; autoDetectIntent := true;
     createFileLocation := ask; showFallbackWarnings := true |}.

Definition neverPreview : SmartApplyConfig :=
  {| previewMode := never; autoDetectIntent := true;
     createFileLocation := ask; showFallbackWarnings := true |}.



(** A change previewed at time [t] (milliseconds). *)
Definition changeAt (t : nat) : PendingChange :=
  {| id := L "c"; originalUri := uri appTs; position := at_ 0 0;
     range_ := None; newCode := L "x"; proposedContent := L "xconst x = 1;";
     createdAt := t |}.
End Hosts.
(* ================================================================== *)
(** ** Facts about strings *)
(* ================================================================== *)

Module JsFacts.
Import Js.

Lemma eqc_true (a b : ascii) : eqc a b = true <-> a = b.
Proof. unfold eqc. apply Ascii.eqb_eq. Qed.

Lemma eqc_false (a b : ascii) : eqc a b = false <-> a <> b.
Proof. unfold eqc. apply Ascii.eqb_neq. Qed.

Lemma eqs_true (a b : str) : eqs a b = true <-> a = b.
Proof.
  revert b. induction a as [|x a IH]; intros [|y b]; simpl; try easy.
  rewrite andb_true_iff, eqc_true, IH. split.
  - intros [-> ->]. reflexivity.
  - intros [= -> ->]. auto.
Qed.

Lemma eqs_false (a b : str) : eqs a b = false <-> a <> b.
Proof.
  rewrite <- eqs_true. destruct (eqs a b); split; congruence.
Qed.

Lemma splitOn_nonempty sep s : splitOn sep s <> [].
Proof.
  destruct s as [|c s]; simpl; [discriminate|].
  destruct (eqc c sep); [discriminate|].
  destruct (splitOn sep s); discriminate.
Qed.

(** No piece of a split contains the separator. *)
Lemma splitOn_pieces sep s : Forall (fun l => ~ In sep l) (splitOn sep s).
Proof.
  induction s as [|c s IH]; simpl.
  - constructor; [intros []|constructor].
  - destruct (eqc c sep) eqn:E.
    + constructor; [intros []|exact IH].
    + apply eqc_false in E.
      destruct (splitOn sep s) as [|l ls]; inversion IH; subst.
      * constructor; [|constructor]. intros [H|[]]. congruence.
      * constructor; [|assumption]. intros [H|H]; [congruence|auto].
Qed.

Lemma join_cons l l' ls : join (l :: l' :: ls) = l ++ nl :: join (l' :: ls).
Proof. reflexivity. Qed.

Lemma join_split s : join (split s) = s.
Proof.
  unfold split. induction s as [|c s IH]; simpl; [reflexivity|].
  destruct (eqc c nl) eqn:E.
  - apply eqc_true in E. subst c.
    pose proof (splitOn_nonempty nl s) as Hne.
    destruct (splitOn nl s) as [|l ls]; [congruence|].
    rewrite join_cons, IH. reflexivity.
  - pose proof (splitOn_nonempty nl s) as Hne.
    destruct (splitOn nl s) as [|l ls]; [congruence|].
    destruct ls as [|l' ls].
    + simpl in *. now subst.
    + rewrite <- IH, !join_cons. reflexivity.
Qed.

Lemma split_line l : ~ In nl l -> split l = [l].
Proof.
  unfold split. induction l as [|c l IH]; simpl; intros H; [reflexivity|].
  destruct (eqc c nl) eqn:E.
  - apply eqc_true in E. tauto.
  - rewrite IH by tauto. reflexivity.
Qed.

Lemma split_app_nl l s : ~ In nl l -> split (l ++ nl :: s) = l :: split s.
Proof.
  unfold split. induction l as [|c l IH]; simpl; intros H.
  - reflexivity.
  - destruct (eqc c nl) eqn:E.
    + apply eqc_true in E. tauto.
    + rewrite IH by tauto. reflexivity.
Qed.

(** Lines without a line feed are recovered from their join. *)
Lemma split_join ls :
  ls <> [] -> Forall (fun l => ~ In nl l) ls -> split (join ls) = ls.
Proof.
  induction ls as [|l ls IH]; intros Hne Hall; [congruence|].
  inversion Hall as [|? ? Hl Hls]; subst.
  destruct ls as [|l' ls].
  - simpl. apply split_line. assumption.
  - rewrite join_cons, split_app_nl by assumption.
    rewrite IH; [reflexivity|discriminate|assumption].
Qed.
End JsFacts.

(* ================================================================== *)
(** ** DiffPreviewService: splicing *)
(* ================================================================== *)

Module SpliceFacts.
Import Js Vscode DiffPreviewService Notions JsFacts.

Lemma setLine_length ls i v : length (setLine ls i v) = length ls.
Proof.
  revert i. induction ls as [|l ls IH]; intros [|i]; simpl; auto.
Qed.

Lemma setLine_nth ls i v :
  i < length ls -> nth i (setLine ls i v) [] = v.
Proof.
  revert i. induction ls as [|l ls IH]; intros [|i]; simpl; intros H;
    try lia; auto. apply IH. lia.
Qed.

Lemma setLine_twice ls i u v : setLine (setLine ls i u) i v = setLine ls i v.
Proof.
  revert i. induction ls as [|l ls IH]; intros [|i]; simpl; auto.
  now rewrite IH.
Qed.

Lemma setLine_same ls i : setLine ls i (nth i ls []) = ls.
Proof.
  revert i. induction ls as [|l ls IH]; intros [|i]; simpl; auto.
  now rewrite IH.
Qed.

Lemma setLine_Forall (P : str -> Prop) ls i v :
  Forall P ls -> P v -> Forall P (setLine ls i v).
Proof.
  intros Hls Hv. revert i.
  induction Hls as [|l ls Hl Hls IH]; intros [|i]; simpl; auto.
Qed.

Lemma nth_Forall (P : str -> Prop) ls i :
  Forall P ls -> i < length ls -> P (nth i ls []).
Proof.
  intros Hls. revert i.
  induction Hls as [|l ls Hl Hls IH]; intros [|i]; simpl; intros H;
    try lia; auto. apply IH. lia.
Qed.

(** Cutting the inserted units out of a line gives the line back. *)
Lemma cut_inserted (l code : str) c :
  c <= length l ->
  firstn c (firstn c l ++ code ++ skipn c l)
  ++ skipn (c + length code) (firstn c l ++ code ++ skipn c l) = l.
Proof.
  intros Hc.
  assert (Hlen : length (firstn c l) = c) by (rewrite length_firstn; lia).
  rewrite firstn_app, Hlen, Nat.sub_diag, firstn_O, app_nil_r.
  rewrite firstn_firstn, Nat.min_id.
  rewrite skipn_app, Hlen.
  replace (c + length code - c) with (length code) by lia.
  rewrite (skipn_all2 (firstn c l)) by lia.
  rewrite skipn_app, skipn_all, Nat.sub_diag. simpl.
  change (skipn 0 (skipn c l)) with (skipn c l).
  apply firstn_skipn.
Qed.

(** The line the code is inserted in has no line feed when the code has
    none. *)
Lemma spliced_line_single (l code : str) c :
  ~ In nl l -> ~ In nl code ->
  ~ In nl (firstn c l ++ code ++ skipn c l).
Proof.
  intros Hl Hcode Hin.
  apply in_app_or in Hin as [Hin|Hin].
  - apply Hl. rewrite <- (firstn_skipn c l). apply in_or_app. auto.
  - apply in_app_or in Hin as [Hin|Hin]; [auto|].
    apply Hl. rewrite <- (firstn_skipn c l). apply in_or_app. auto.
Qed.

(** C5, as amended. For every original text, every position inside the
    text (an existing line and a column within it) and every inserted
    code without a line feed, generateProposedContent without a range
    returns the original with the code spliced into the line of the
    position at its column, and deleting as many units as the code has at
    the same position gives the original text back. *)
Theorem insertion_round_trip (text : str) (position : Position) (code : str) :
  singleLine code ->
  insideText text position ->
  exists proposed,
    generateProposedContent text position code None = Ret proposed
    /\ proposed =
         join (setLine (split text) (line position)
                 (firstn (character position)
                         (nth (line position) (split text) [])
                  ++ code
                  ++ skipn (character position)
                           (nth (line position) (split text) [])))
    /\ deleteAt proposed position (length code) = text.
Proof.
  intros Hcode [Hline Hchar].
  unfold generateProposedContent, substringTo, substringFrom.
  apply Nat.leb_gt in Hline as Hleb. rewrite Hleb.
  eexists. split; [reflexivity|]. split; [reflexivity|].
  set (lines := split text) in *.
  set (current := nth (line position) lines []) in *.
  set (spliced := firstn (character position) current ++ code
                  ++ skipn (character position) current).
  assert (Hpieces : Forall (fun l => ~ In nl l) lines)
    by apply splitOn_pieces.
  assert (Hcur : ~ In nl current) by (apply nth_Forall; assumption).
  assert (Hsplit : split (join (setLine lines (line position) spliced))
                   = setLine lines (line position) spliced).
  { apply split_join.
    - intros Hnil. apply (f_equal (@length _)) in Hnil.
      rewrite setLine_length in Hnil. simpl in Hnil. lia.
    - apply setLine_Forall; [assumption|].
      apply spliced_line_single; assumption. }
  unfold deleteAt. rewrite Hsplit, setLine_length, Hleb.
  rewrite setLine_nth by assumption.
  unfold spliced. rewrite cut_inserted by assumption.
  rewrite setLine_twice. unfold current. rewrite setLine_same.
  apply join_split.
Qed.

Lemma insertion_round_trip_witness :
  singleLine (L "XY")
  /\ insideText (L "ab" ++ nl :: L "cd") (Scenario.at_ 1 1)
  /\ exists proposed,
       generateProposedContent (L "ab" ++ nl :: L "cd") (Scenario.at_ 1 1)
                               (L "XY") None = Ret proposed
       /\ proposed =
            join (setLine (split (L "ab" ++ nl :: L "cd")) 1
                    (firstn 1 (nth 1 (split (L "ab" ++ nl :: L "cd")) [])
                     ++ L "XY"
                     ++ skipn 1 (nth 1 (split (L "ab" ++ nl :: L "cd")) [])))
       /\ deleteAt proposed (Scenario.at_ 1 1) (length (L "XY"))
          = L "ab" ++ nl :: L "cd".
Proof.
  assert (H1 : singleLine (L "XY")).
  { intros [H|[H|[]]]; discriminate H. }
  assert (H2 : insideText (L "ab" ++ nl :: L "cd") (Scenario.at_ 1 1)).
  { split; simpl; lia. }
  split; [exact H1|]. split; [exact H2|].
  exact (insertion_round_trip _ _ _ H1 H2).
Defined.

(** C5 as stated fails: the position of an insertion may lie beyond the
    last line (the import section of a document that ends with its
    imports is the line after them), where the code is appended after a
    line feed that the deletion leaves behind. *)
Lemma insertion_round_trip_counterexample :
  ~ (forall (text : str) (position : Position) (code : str),
        singleLine code ->
        exists proposed,
          generateProposedContent text position code None = Ret proposed
          /\ deleteAt proposed position (length code) = text).
Proof.
  intros H.
  destruct (H (L "import a") (Scenario.at_ 1 0) (L "import b"))
    as [proposed [Hgen Hdel]].
  - intros Hin. simpl in Hin.
    repeat (destruct Hin as [Hin|Hin]; [discriminate Hin|]). exact Hin.
  - vm_compute in Hgen. injection Hgen as <-.
    vm_compute in Hdel. discriminate Hdel.
Qed.
End SpliceFacts.

(* ================================================================== *)
(** ** IntentDetector: confidences *)
(* ================================================================== *)

Module IntentDetectorFacts.
Import Js Regex IntentDetector Notions.

(** Case analysis on the test that heads the verdict. *)
Ltac branch :=
  match goal with
  | |- rated _ _ (if ?b then _ else _) => destruct b
  | |- rated _ _ (match ?o with Some _ => _ | None => _ end) => destruct o
  end.

Ltac pick := split; [reflexivity | simpl; tauto].

Lemma detectCommand_rated code :
  rated Command ([95 # 100; 9 # 10; 85 # 100; 4 # 10; 0])%Q (detectCommand code).
Proof.
  unfold detectCommand, verdict. cbv zeta. repeat (branch; [pick|]). pick.
Qed.

Lemma detectFileCreation_rated code language :
  rated Create ([95 # 100; 9 # 10; 7 # 10; 85 # 100; 0])%Q
        (detectFileCreation code language).
Proof.
  unfold detectFileCreation, verdict. cbv zeta.
  repeat (branch; [pick|]). pick.
Qed.

Lemma detectEdit_rated code language activeFile :
  rated Edit ([85 # 100; 7 # 10; 6 # 10; 5 # 10; 0])%Q
        (detectEdit code language activeFile).
Proof.
  unfold detectEdit, whenMatch, verdict. cbv zeta.
  repeat (branch; try pick).
Qed.

(** What detect can return: the command stage only above 0.8, the create
    stage only above 0.7, the edit stage only above 0.5, or a fallback. *)
Lemma detect_rated code language activeFile :
  let d := detect code language activeFile in
  rated Command ([95 # 100; 9 # 10; 85 # 100])%Q d
  \/ rated Create ([95 # 100; 9 # 10; 85 # 100; 3 # 10])%Q d
  \/ rated Edit ([85 # 100; 7 # 10; 6 # 10; 4 # 10])%Q d.
Proof.
  unfold detect.
  destruct (detectCommand_rated code) as [Hci Hcc].
  destruct (detectFileCreation_rated code language) as [Hfi Hfc].
  destruct (detectEdit_rated code language activeFile) as [Hei Hec].
  destruct (detectCommand code) as [ci cc ct ca].
  destruct (detectFileCreation code language) as [fi fc ft fa].
  destruct (detectEdit code language activeFile) as [ei ec et ea].
  unfold rated, verdict in *. simpl in *. subst ci fi ei.
  repeat (destruct Hcc as [<-|Hcc]; [|]); try contradiction;
    vm_compute Qgtb; cbv iota; simpl; try tauto;
    repeat (destruct Hfc as [<-|Hfc]; [|]); try contradiction;
      vm_compute Qgtb; cbv iota; simpl; try tauto;
      repeat (destruct Hec as [<-|Hec]; [|]); try contradiction;
        vm_compute Qgtb; cbv iota; simpl; try tauto;
        destruct (truthy activeFile && (getLineCount code <? 50));
        simpl; tauto.
Qed.

(** C9. Every result of detect has a confidence between 0 and 1; every
    result with intent "command" has a confidence of at least 0.85, so
    the weak single-line command signal (0.4) is never what detect
    returns. *)
Theorem detect_confidence (code language : str) (activeFile : option str) :
  let d := detect code language activeFile in
  (0 <= confidence d)%Q
  /\ (confidence d <= 1)%Q
  /\ (intent d = Command -> (85 # 100 <= confidence d)%Q)
  /\ ~ (intent d = Command /\ (confidence d == 4 # 10)%Q).
Proof.
  intros d. subst d.
  destruct (detect_rated code language activeFile) as [H|[H|H]];
    destruct H as [Hi Hc]; rewrite Hi; simpl in Hc;
    repeat (destruct Hc as [<-|Hc]; [|]); try contradiction;
    unfold Qle, Qeq; simpl;
    (split; [lia|]); (split; [lia|]);
    (split; [first [discriminate | intros _; lia]|]);
    intros [Hx Hy]; first [discriminate Hx | lia].
Qed.
End IntentDetectorFacts.

(* ================================================================== *)
(** ** SymbolResolver: the resolution chain *)
(* ================================================================== *)

Module SymbolResolverFacts.
Import Js Vscode SymbolResolver Notions JsFacts.

(** Induction on a symbol tree, with the hypothesis on every child. *)
Lemma DocumentSymbol_tree_ind (P : DocumentSymbol -> Prop) :
  (forall name range children,
      Forall P children -> P (mkSymbol name range children)) ->
  forall s, P s.
Proof.
  intros step. fix go 1. intros [name range children]. apply step.
  induction children as [|c cs IH]; constructor; [apply go|exact IH].
Qed.

Lemma find_app {A} (f : A -> bool) (l1 l2 : list A) :
  find f (l1 ++ l2)
  = match find f l1 with Some x => Some x | None => find f l2 end.
Proof.
  induction l1 as [|x l1 IH]; simpl; [reflexivity|].
  destruct (f x); [reflexivity|exact IH].
Qed.

Lemma firstOf_flat (visit : DocumentSymbol -> option DocumentSymbol)
      (f : DocumentSymbol -> bool) (symbols : list DocumentSymbol) :
  Forall (fun s => visit s = find f (descendants s)) symbols ->
  firstOf visit symbols = find f (flat_map descendants symbols).
Proof.
  induction 1 as [|s rest Hs _ IH]; simpl; [reflexivity|].
  rewrite find_app, <- Hs, IH. reflexivity.
Qed.

Lemma findSymbolAt_find mode name s :
  findSymbolAt mode name s = find (symbolMatches mode name) (descendants s).
Proof.
  induction s as [n r children IH] using DocumentSymbol_tree_ind.
  simpl.
  destruct (symbolMatches mode name (mkSymbol n r children));
    [reflexivity|].
  apply firstOf_flat. exact IH.
Qed.

(** findSymbol returns the first symbol, in the order of the visit, that
    matches. *)
Lemma findSymbol_find symbols name mode :
  findSymbol symbols name mode
  = find (symbolMatches mode name) (allSymbols symbols).
Proof.
  unfold findSymbol, allSymbols. apply firstOf_flat.
  apply Forall_forall. intros s _. apply findSymbolAt_find.
Qed.

Lemma findSymbol_none symbols name mode :
  (forall s, In s (allSymbols symbols) -> symbolMatches mode name s = false) ->
  findSymbol symbols name mode = None.
Proof.
  intros H. rewrite findSymbol_find.
  destruct (find _ _) as [s|] eqn:E; [|reflexivity].
  apply find_some in E as [Hin Hm]. rewrite (H s Hin) in Hm. discriminate.
Qed.

Lemma findSymbol_some symbols name mode s :
  In s (allSymbols symbols) -> symbolMatches mode name s = true ->
  exists found, findSymbol symbols name mode = Some found.
Proof.
  intros Hin Hm. rewrite findSymbol_find.
  destruct (find _ _) as [found|] eqn:E; [eauto|].
  rewrite (find_none _ _ E s Hin) in Hm. discriminate.
Qed.

Lemma getDocumentSymbols_returns h document w :
  getDocumentSymbols h document w
  = (Ret (indexedSymbols h w),
     {| clock := S (clock w); pendingChanges := pendingChanges w;
        trace := trace w |}).
Proof.
  unfold getDocumentSymbols, tryCatch, call, indexedSymbols, ret.
  destruct (executeDocumentSymbolProvider h (clock w)); reflexivity.
Qed.

(** The second loop of findImportSection returns the first line with
    code among those it reads. *)
Lemma firstCodeLine_found lines :
  forall bound rest pre j,
    lines = pre ++ rest ->
    firstCodeLine rest (length pre) bound = Some j ->
    length pre <= j < length pre + bound
    /\ j < length lines
    /\ codeAt lines j = true
    /\ forall k, length pre <= k < j -> codeAt lines k = false.
Proof.
  induction bound as [|bound IH]; intros [|l rest] pre j Hlines; simpl;
    try discriminate.
  assert (Hl : trimmedLine lines (length pre) = trim l)
    by (unfold trimmedLine; rewrite Hlines, nth_middle; reflexivity).
  destruct (negb (eqs (trim l) []) && _ && _ && _) eqn:Hcode.
  - intros [= <-]. split; [lia|]. split.
    + rewrite Hlines, length_app. simpl. lia.
    + split; [unfold codeAt; rewrite Hl; exact Hcode|]. intros k Hk. lia.
  - intros Hrest.
    assert (Hlines' : lines = (pre ++ [l]) ++ rest)
      by (rewrite <- app_assoc; exact Hlines).
    replace (S (length pre)) with (length (pre ++ [l])) in Hrest
      by (rewrite length_app; simpl; lia).
    destruct (IH rest (pre ++ [l]) j Hlines' Hrest) as [Hj [Hlen [Hc Hbefore]]].
    rewrite length_app in Hj, Hbefore. simpl in Hj, Hbefore.
    split; [lia|]. split; [exact Hlen|]. split; [exact Hc|].
    intros k Hk. destruct (Nat.eq_dec k (length pre)) as [->|Hne].
    + unfold codeAt. rewrite Hl. exact Hcode.
    + apply Hbefore. lia.
Qed.

Lemma firstCodeLine_none lines :
  forall bound rest pre,
    lines = pre ++ rest ->
    firstCodeLine rest (length pre) bound = None ->
    forall k, length pre <= k < length pre + bound -> k < length lines ->
              codeAt lines k = false.
Proof.
  induction bound as [|bound IH]; intros rest pre Hlines Hnone k Hk Hlen;
    [lia|].
  destruct rest as [|l rest].
  - rewrite Hlines, app_nil_r in Hlen. lia.
  - simpl in Hnone.
    assert (Hl : trimmedLine lines (length pre) = trim l)
      by (unfold trimmedLine; rewrite Hlines, nth_middle; reflexivity).
    destruct (negb (eqs (trim l) []) && _ && _ && _) eqn:Hcode;
      [discriminate|].
    destruct (Nat.eq_dec k (length pre)) as [->|Hne].
    + unfold codeAt. rewrite Hl. exact Hcode.
    + assert (Hlines' : lines = (pre ++ [l]) ++ rest)
        by (rewrite <- app_assoc; exact Hlines).
      replace (S (length pre)) with (length (pre ++ [l])) in Hnone
        by (rewrite length_app; simpl; lia).
      apply (IH rest (pre ++ [l]) Hlines' Hnone); [|exact Hlen].
      rewrite length_app. simpl. lia.
Qed.

Lemma scanImports_section lines :
  forall rest pre lastImportLine,
    lines = pre ++ rest ->
    scanned lines (length pre) lastImportLine ->
    match scanImports rest (length pre) lastImportLine with
    | Some n => lastImportOfSection lines n
    | None => noImport lines
    end.
Proof.
  induction rest as [|l rest IH]; intros pre last Hlines Hinv.
  - simpl. rewrite app_nil_r in Hlines. subst pre.
    destruct last as [n|]; [|exact Hinv].
    destruct Hinv as [Hn [Himp [Hafter Hbefore]]].
    split; [exact Hn|]. split; [exact Himp|]. split; [exact Hbefore|].
    intros j Hj Hj'. destruct (Hafter j Hj) as [Hfalse _]. congruence.
  - assert (Hl : trimmedLine lines (length pre) = trim l)
      by (unfold trimmedLine; rewrite Hlines, nth_middle; reflexivity).
    assert (Hlines' : lines = (pre ++ [l]) ++ rest)
      by (rewrite <- app_assoc; exact Hlines).
    assert (Hlen : length (pre ++ [l]) = S (length pre))
      by (rewrite length_app; simpl; lia).
    assert (Hinside : length pre < length lines)
      by (rewrite Hlines, length_app; simpl; lia).
    cbn [scanImports]. cbv zeta. rewrite <- Hlen.
    destruct ((length pre <? 10) && isTopComment (trim l)) eqn:Hskip.
    { (* skipped *)
      assert (Hi : importAt lines (length pre) = false
                   /\ endsImports lines (length pre) = false).
      { unfold importAt, endsImports, skippedAt. rewrite Hl, Hskip.
        split; reflexivity. }
      apply IH; [exact Hlines'|]. rewrite Hlen.
      destruct last as [n|].
      - destruct Hinv as [Hn [Himp [Hafter Hbefore]]].
        split; [lia|]. split; [exact Himp|]. split; [|exact Hbefore].
        intros j Hj. destruct (Nat.eq_dec j (length pre)) as [->|Hne];
          [exact Hi|apply Hafter; lia].
      - intros m Hm. destruct (Nat.eq_dec m (length pre)) as [->|Hne];
          [apply Hi|apply Hinv; lia]. }
    destruct (isImportLine (trim l)) eqn:Himport.
    { (* an import *)
      assert (Hi : importAt lines (length pre) = true).
      { unfold importAt, skippedAt. rewrite Hl, Hskip, Himport. reflexivity. }
      apply IH; [exact Hlines'|]. rewrite Hlen.
      split; [lia|]. split; [exact Hi|]. split; [intros j Hj; lia|].
      intros k m Hk Hends Hm.
      destruct last as [n|].
      - destruct Hinv as [Hn [Himp [Hafter Hbefore]]].
        destruct (Nat.lt_trichotomy k n) as [Hlt|[->|Hgt]].
        + exact (Hbefore k m Hlt Hends Hm).
        + unfold importAt in Himp. unfold endsImports in Hends.
          destruct (skippedAt lines n), (isImportLine (trimmedLine lines n));
            simpl in *; congruence.
        + destruct (Hafter k ltac:(lia)) as [_ Hfalse]. congruence.
      - apply Hinv. lia. }
    destruct last as [n|].
    + destruct Hinv as [Hn [Himp [Hafter Hbefore]]].
      destruct (negb (eqs (trim l) [])) eqn:Hblank; cbn [andb].
      * (* the line that ends the section *)
        assert (Hends : endsImports lines (length pre) = true).
        { unfold endsImports, skippedAt. rewrite Hl, Hskip, Himport, Hblank.
          reflexivity. }
        assert (Hnot : importAt lines (length pre) = false).
        { unfold importAt. rewrite Hl, Himport. apply andb_false_r. }
        split; [lia|]. split; [exact Himp|]. split; [exact Hbefore|].
        intros j Hj Hj'.
        destruct (Nat.lt_trichotomy j (length pre)) as [Hlt|[->|Hgt]].
        -- destruct (Hafter j ltac:(lia)) as [Hfalse _]. congruence.
        -- congruence.
        -- exists (length pre). split; [lia|exact Hends].
      * (* an empty line after the first ten *)
        assert (Hi : importAt lines (length pre) = false
                     /\ endsImports lines (length pre) = false).
        { unfold importAt, endsImports. rewrite Hl, Himport, Hblank.
          split; [apply andb_false_r|apply andb_false_r]. }
        apply IH; [exact Hlines'|]. rewrite Hlen.
        split; [lia|]. split; [exact Himp|]. split; [|exact Hbefore].
        intros j Hj. destruct (Nat.eq_dec j (length pre)) as [->|Hne];
          [exact Hi|apply Hafter; lia].
    + cbn [andb].
      assert (Hi : importAt lines (length pre) = false).
      { unfold importAt. rewrite Hl, Himport. apply andb_false_r. }
      apply IH; [exact Hlines'|]. rewrite Hlen.
      intros m Hm. destruct (Nat.eq_dec m (length pre)) as [->|Hne];
        [exact Hi|apply Hinv; lia].
Qed.
(** The import-section locator always gives a position, at column 0:
    the line after the last import of the import section; or, when no
    line is an import, the first line with code among the first five;
    or, when none of them has code, line 0. *)
Lemma findImportSection_total document :
  let lines := split (getText document) in
  exists p,
    findImportSection document = Some p
    /\ character p = 0
    /\ ((exists n, lastImportOfSection lines n /\ line p = n + 1)
        \/ (noImport lines
            /\ ((exists i, firstCodeAmongFive lines i /\ line p = i)
                \/ (noCodeAmongFive lines /\ line p = 0)))).
Proof.
  cbv zeta. unfold findImportSection.
  pose proof (scanImports_section (split (getText document))
                (split (getText document)) [] None eq_refl) as Hscan.
  simpl in Hscan.
  destruct (scanImports _ _ _) as [n|].
  - eexists. split; [reflexivity|]. split; [reflexivity|]. left.
    exists n. split; [|reflexivity]. apply Hscan. intros m Hm. lia.
  - assert (Hnone : noImport (split (getText document)))
      by (apply Hscan; intros m Hm; lia).
    destruct (firstCodeLine _ _ _) as [i|] eqn:E.
    + apply (firstCodeLine_found (split (getText document)) _ _ [] i eq_refl)
        in E as [Hi [Hlen [Hcode Hbefore]]].
      cbn [length Nat.add] in Hi, Hbefore.
      eexists. split; [reflexivity|]. split; [reflexivity|]. right.
      split; [exact Hnone|]. left. exists i. split; [|reflexivity].
      split; [lia|]. split; [exact Hlen|]. split; [exact Hcode|].
      intros j Hj. apply Hbefore. lia.
    + pose proof (firstCodeLine_none (split (getText document)) _ _ []
                    eq_refl E) as Hno. cbn [length Nat.add] in Hno.
      eexists. split; [reflexivity|]. split; [reflexivity|]. right.
      split; [exact Hnone|]. right. split; [|reflexivity].
      intros j Hj Hlen. apply Hno; [lia|exact Hlen].
Qed.

(** resolveAnchor returns, whatever the host does. *)
Lemma resolveAnchor_returns h document anchor cursor w :
  exists r w', resolveAnchor h document anchor cursor w = (Ret r, w').
Proof.
  unfold resolveAnchor.
  destruct anchor as [[|c anchor]|]; [unfold ret; eauto| |unfold ret; eauto].
  destruct (if eqs _ _ then _ else _); [unfold ret; eauto|].
  unfold bind. rewrite getDocumentSymbols_returns.
  destruct (symbolStages _ _); [unfold ret; eauto|].
  destruct (findTextMatch _ _); unfold ret; eauto.
Qed.

(** For an anchor other than "imports", resolveAnchor is the chain: one
    query of the symbol index, then the stages in order. *)
Lemma resolveAnchor_chain h document anchor cursor w :
  anchor <> [] ->
  toLowerCase anchor <> L "imports" ->
  resolveAnchor h document (Some anchor) cursor w
  = (Ret match symbolStages (indexedSymbols h w) anchor with
         | Some res => res
         | None =>
             match findTextMatch document anchor with
             | Some textPosition => textResult textPosition
             | None => cursorResult cursor
             end
         end,
     {| clock := S (clock w); pendingChanges := pendingChanges w;
        trace := trace w |}).
Proof.
  intros Hne Hnot. unfold resolveAnchor.
  destruct anchor as [|c anchor]; [congruence|].
  apply eqs_false in Hnot. rewrite Hnot.
  unfold bind. rewrite getDocumentSymbols_returns.
  destruct (symbolStages _ _); [reflexivity|].
  destruct (findTextMatch _ _); reflexivity.
Qed.

(** C10. For every document and cursor, an anchor that is "imports" up
    to case resolves with method "text_search" at the position of the
    import-section locator, which always gives one, at column 0: the
    line after the last import of the import section; or, when no line
    is an import, the first line among the first five that is not
    blank, no shebang and no comment; or, when there is none, line 0.
    The symbol index is not queried and the world is unchanged. *)
Theorem resolveAnchor_imports (h : Host) (document : TextDocument)
        (anchor : str) (cursor : Position) (w : World) :
  toLowerCase anchor = L "imports" ->
  exists p,
    findImportSection document = Some p
    /\ character p = 0
    /\ ((exists n,
            lastImportOfSection (split (getText document)) n
            /\ line p = n + 1)
        \/ (noImport (split (getText document))
            /\ ((exists i,
                    firstCodeAmongFive (split (getText document)) i
                    /\ line p = i)
                \/ (noCodeAmongFive (split (getText document))
                    /\ line p = 0))))
    /\ resolveAnchor h document (Some anchor) cursor w
       = (Ret {| rposition := p; rrange := None; method := text_search;
                 rsymbolName := None |}, w).
Proof.
  intros Hlow.
  destruct (findImportSection_total document) as [p [Hp [Hc Hl]]].
  exists p. split; [exact Hp|]. split; [exact Hc|]. split; [exact Hl|].
  unfold resolveAnchor.
  destruct anchor as [|c anchor]; [discriminate Hlow|].
  apply eqs_true in Hlow. rewrite Hlow, Hp. reflexivity.
Qed.

Lemma resolveAnchor_imports_witness :
  toLowerCase (L "Imports") = L "imports"
  /\ exists p,
      findImportSection Scenario.importsDoc = Some p
      /\ character p = 0
      /\ ((exists n,
              lastImportOfSection (split (getText Scenario.importsDoc)) n
              /\ line p = n + 1)
          \/ (noImport (split (getText Scenario.importsDoc))
              /\ ((exists i,
                      firstCodeAmongFive (split (getText Scenario.importsDoc))
                                         i
                      /\ line p = i)
                  \/ (noCodeAmongFive (split (getText Scenario.importsDoc))
                      /\ line p = 0))))
      /\ resolveAnchor Scenario.host0 Scenario.importsDoc (Some (L "Imports"))
                       (Scenario.at_ 0 3) Scenario.world0
         = (Ret {| rposition := p; rrange := None; method := text_search;
                   rsymbolName := None |}, Scenario.world0).
Proof.
  split; [reflexivity|].
  exact (resolveAnchor_imports Scenario.host0 Scenario.importsDoc
                               (L "Imports") (Scenario.at_ 0 3)
                               Scenario.world0 eq_refl).
Defined.

(** The three outcomes of the locator, on documents: after the import
    of a document with a comment, an import and code; at the first line
    with code (the second) of a document without imports; at line 0 of a
    document of comments. *)
Lemma findImportSection_outcomes :
  findImportSection Scenario.importsDoc = Some (Scenario.at_ 2 0)
  /\ findImportSection Scenario.scriptDoc = Some (Scenario.at_ 1 0)
  /\ findImportSection Scenario.commentsDoc = Some (Scenario.at_ 0 0).
Proof. repeat split; vm_compute; reflexivity. Qed.

(** C6, as amended. For every document, cursor position and anchor other
    than "imports" (up to case) that no stage of the chain locates,
    whatever the symbol index answers (symbols, nothing, or a failure),
    resolveAnchor returns the result with method "cursor_fallback" at the
    supplied cursor position; and resolveAnchor returns, never throws,
    for every input. *)
Theorem resolveAnchor_cursor_fallback (h : Host) (document : TextDocument)
        (anchor : str) (cursor : Position) (w : World) :
  toLowerCase anchor <> L "imports" ->
  noStageLocates h document anchor w ->
  (exists w',
      resolveAnchor h document (Some anchor) cursor w
      = (Ret {| rposition := cursor; rrange := None;
                method := cursor_fallback; rsymbolName := None |}, w'))
  /\ (forall document' anchor' cursor' w0,
         exists r w',
           resolveAnchor h document' anchor' cursor' w0 = (Ret r, w')).
Proof.
  intros Hnot [Hsym Htext]. split.
  - unfold resolveAnchor.
    destruct anchor as [|c anchor]; [unfold ret; eauto|].
    apply eqs_false in Hnot. rewrite Hnot.
    unfold bind. rewrite getDocumentSymbols_returns, Hsym, Htext.
    unfold ret, cursorResult. eauto.
  - intros. apply resolveAnchor_returns.
Qed.

Lemma resolveAnchor_cursor_fallback_witness :
  toLowerCase (L "formatTime") <> L "imports"
  /\ noStageLocates (Scenario.withSymbols (fun _ => Throw (L "no provider")))
                    Scenario.dateDoc (L "formatTime") Scenario.world0
  /\ (exists w',
         resolveAnchor (Scenario.withSymbols (fun _ => Throw (L "no provider")))
                       Scenario.dateDoc (Some (L "formatTime"))
                       (Scenario.at_ 0 3) Scenario.world0
         = (Ret {| rposition := Scenario.at_ 0 3; rrange := None;
                   method := cursor_fallback; rsymbolName := None |}, w'))
  /\ (forall document' anchor' cursor' w0,
         exists r w',
           resolveAnchor (Scenario.withSymbols (fun _ => Throw (L "no provider")))
                         document' anchor' cursor' w0 = (Ret r, w')).
Proof.
  assert (H1 : toLowerCase (L "formatTime") <> L "imports")
    by discriminate.
  assert (H2 : noStageLocates
                 (Scenario.withSymbols (fun _ => Throw (L "no provider")))
                 Scenario.dateDoc (L "formatTime") Scenario.world0)
    by (split; reflexivity).
  split; [exact H1|]. split; [exact H2|].
  exact (resolveAnchor_cursor_fallback _ _ _ (Scenario.at_ 0 3) _ H1 H2).
Defined.

(** C6 as stated fails for the anchor "imports": in an empty document
    without symbols no stage of the chain locates it, and the result is
    the start of the document with method "text_search", not the cursor. *)
Lemma resolveAnchor_cursor_fallback_counterexample :
  ~ (forall (h : Host) (document : TextDocument) (anchor : str)
            (cursor : Position) (w : World),
        noStageLocates h document anchor w ->
        exists w',
          resolveAnchor h document (Some anchor) cursor w
          = (Ret {| rposition := cursor; rrange := None;
                    method := cursor_fallback; rsymbolName := None |}, w')).
Proof.
  intros H.
  destruct (H Scenario.host0 Scenario.emptyDoc (L "imports")
              (Scenario.at_ 3 4) Scenario.world0) as [w' Hres].
  - split; reflexivity.
  - vm_compute in Hres. discriminate Hres.
Qed.

(** C1, as amended. For a document whose symbol tree contains
    "formatDateTime" and no symbol named "formatDate" (up to case), the
    exact stage fails for the anchor "formatDate", and the fuzzy stage
    succeeds: the edit distance is 4, above 3, but the name of the symbol
    contains the anchor. The result has method "fuzzy_symbol" and carries
    the range and the name of the first symbol of the visit that matches;
    text search is not reached. *)
Theorem resolveAnchor_formatDate (h : Host) (document : TextDocument)
        (symbols : list DocumentSymbol) (cursor : Position) (w : World) :
  indexedSymbols h w = Some symbols ->
  (exists s, In s (allSymbols symbols) /\ symbolName s = L "formatDateTime") ->
  (forall s, In s (allSymbols symbols) ->
             toLowerCase (symbolName s) <> L "formatdate") ->
  levenshteinDistance (L "formatdatetime") (L "formatdate") = 4
  /\ findSymbol symbols (L "formatDate") exact = None
  /\ exists found w',
       findSymbol symbols (L "formatDate") fuzzy = Some found
       /\ resolveAnchor h document (Some (L "formatDate")) cursor w
          = (Ret {| rposition := start (symbolRange found);
                    rrange := Some (symbolRange found);
                    method := fuzzy_symbol;
                    rsymbolName := Some (symbolName found) |}, w').
Proof.
  intros Hidx [s0 [Hin0 Hname0]] Hnone.
  split; [reflexivity|].
  assert (Hexact : findSymbol symbols (L "formatDate") exact = None).
  { apply findSymbol_none. intros s Hin. unfold symbolMatches.
    apply eqs_false. exact (Hnone s Hin). }
  split; [exact Hexact|].
  assert (Hm0 : symbolMatches fuzzy (L "formatDate") s0 = true).
  { destruct s0 as [n r cs]. simpl in Hname0. subst n. reflexivity. }
  destruct (findSymbol_some symbols (L "formatDate") fuzzy s0 Hin0 Hm0)
    as [found Hfuzzy].
  exists found. eexists. split; [exact Hfuzzy|].
  rewrite resolveAnchor_chain by discriminate.
  rewrite Hidx. unfold symbolStages.
  destruct symbols as [|s1 rest]; [destruct Hin0|].
  rewrite Hexact, Hfuzzy. reflexivity.
Qed.

Lemma resolveAnchor_formatDate_witness :
  indexedSymbols (Scenario.withSymbols (fun _ => Ret (Some Scenario.dateSymbols)))
                 Scenario.world0 = Some Scenario.dateSymbols
  /\ (exists s, In s (allSymbols Scenario.dateSymbols)
                /\ symbolName s = L "formatDateTime")
  /\ (forall s, In s (allSymbols Scenario.dateSymbols) ->
                toLowerCase (symbolName s) <> L "formatdate")
  /\ levenshteinDistance (L "formatdatetime") (L "formatdate") = 4
  /\ findSymbol Scenario.dateSymbols (L "formatDate") exact = None
  /\ exists found w',
       findSymbol Scenario.dateSymbols (L "formatDate") fuzzy = Some found
       /\ resolveAnchor
            (Scenario.withSymbols (fun _ => Ret (Some Scenario.dateSymbols)))
            Scenario.dateDoc (Some (L "formatDate")) (Scenario.at_ 0 3)
            Scenario.world0
          = (Ret {| rposition := start (symbolRange found);
                    rrange := Some (symbolRange found);
                    method := fuzzy_symbol;
                    rsymbolName := Some (symbolName found) |}, w').
Proof.
  assert (H1 : indexedSymbols
                 (Scenario.withSymbols (fun _ => Ret (Some Scenario.dateSymbols)))
                 Scenario.world0 = Some Scenario.dateSymbols)
    by reflexivity.
  assert (H2 : exists s, In s (allSymbols Scenario.dateSymbols)
                         /\ symbolName s = L "formatDateTime").
  { eexists. split; [left; reflexivity|reflexivity]. }
  assert (H3 : forall s, In s (allSymbols Scenario.dateSymbols) ->
                         toLowerCase (symbolName s) <> L "formatdate").
  { intros s [<-|[]]. discriminate. }
  split; [exact H1|]. split; [exact H2|]. split; [exact H3|].
  exact (resolveAnchor_formatDate _ Scenario.dateDoc _ (Scenario.at_ 0 3)
                                  _ H1 H2 H3).
Defined.

(** C1 as stated fails: with "formatDateTime" in the tree and no
    "formatDate" anywhere in the text, the fuzzy stage does not fail and
    the result is not the cursor fallback. *)
Lemma resolveAnchor_formatDate_counterexample :
  ~ (forall (h : Host) (document : TextDocument)
            (symbols : list DocumentSymbol) (cursor : Position) (w : World),
        indexedSymbols h w = Some symbols ->
        (exists s, In s (allSymbols symbols)
                   /\ symbolName s = L "formatDateTime") ->
        (forall s, In s (allSymbols symbols) ->
                   toLowerCase (symbolName s) <> L "formatdate") ->
        indexOf (toLowerCase (getText document)) (L "formatdate") = None ->
        findSymbol symbols (L "formatDate") exact = None
        /\ findSymbol symbols (L "formatDate") fuzzy = None
        /\ exists w',
             resolveAnchor h document (Some (L "formatDate")) cursor w
             = (Ret {| rposition := cursor; rrange := None;
                       method := cursor_fallback; rsymbolName := None |}, w')).
Proof.
  intros H.
  destruct (H (Scenario.withSymbols (fun _ => Ret (Some Scenario.dateSymbols)))
              Scenario.dateDoc Scenario.dateSymbols (Scenario.at_ 0 3)
              Scenario.world0) as [_ [Hfuzzy _]].
  - reflexivity.
  - eexists. split; [left; reflexivity|reflexivity].
  - intros s [<-|[]]. discriminate.
  - reflexivity.
  - vm_compute in Hfuzzy. discriminate Hfuzzy.
Qed.
End SymbolResolverFacts.

(* ================================================================== *)
(** ** DiffPreviewService: accept and reject *)
(* ================================================================== *)

Module PendingChangeFacts.
Import Js Vscode DiffPreviewService Notions.

(** Running the monad of the services by hand. *)
Ltac unfold_monad :=
  unfold editorFor, applyChange, edit, closeDiffView, acceptFailed, lift,
    bind, tryCatch, call, callPure, read, emit, ret, throw, getPending,
    setPending in *;
  simpl in *.

Ltac split_outcome :=
  match goal with
  | |- context [match ?x with Ret _ => _ | Throw _ => _ end] =>
      destruct x eqn:?
  | |- context [match ?x with Some _ => _ | None => _ end] =>
      destruct x eqn:?
  | |- context [if ?x then _ else _] => destruct x eqn:?
  | H : context [match ?x with Ret _ => _ | Throw _ => _ end] |- _ =>
      destruct x eqn:?
  | H : context [match ?x with Some _ => _ | None => _ end] |- _ =>
      destruct x eqn:?
  | H : context [if ?x then _ else _] |- _ => destruct x eqn:?
  end; simpl in *.

(** An absent id: a warning, nothing else. *)
Lemma acceptChange_absent h changeId w :
  pendingChanges w !! changeId = None ->
  acceptChange h changeId w
  = (Ret false,
     {| clock := clock w; pendingChanges := pendingChanges w;
        trace := trace w
                 ++ [ShowWarningMessage (L "Change not found or expired.")] |}).
Proof.
  intros Habsent. unfold acceptChange. unfold_monad.
  rewrite Habsent. reflexivity.
Qed.

Lemma rejectChange_absent h changeId w :
  pendingChanges w !! changeId = None ->
  rejectChange h changeId w = (Ret tt, w).
Proof.
  intros Habsent. unfold rejectChange. unfold_monad.
  rewrite Habsent. reflexivity.
Qed.

(** A successful accept leaves the id absent. *)
Lemma acceptChange_resolves h changeId w0 w :
  acceptChange h changeId w0 = (Ret true, w) ->
  pendingChanges w !! changeId = None.
Proof.
  unfold acceptChange. unfold_monad. intros H.
  repeat split_outcome; try discriminate H;
    injection H as <-; simpl; apply lookup_delete_eq.
Qed.

(** So does a reject, however it ends. *)
Lemma rejectChange_resolves h changeId w0 o w :
  rejectChange h changeId w0 = (o, w) ->
  pendingChanges w !! changeId = None.
Proof.
  unfold rejectChange. unfold_monad. intros H.
  repeat split_outcome; injection H as <- <-; simpl;
    first [apply lookup_delete_eq | assumption].
Qed.

Lemma unknownOrResolved_absent h changeId w :
  unknownOrResolved h changeId w -> pendingChanges w !! changeId = None.
Proof.
  intros [H|[[w0 H]|[w0 [o H]]]].
  - exact H.
  - exact (acceptChange_resolves _ _ _ _ H).
  - exact (rejectChange_resolves _ _ _ _ _ H).
Qed.

Lemma documentEdits_warning w msg :
  documentEdits {| clock := clock w; pendingChanges := pendingChanges w;
                   trace := trace w ++ [ShowWarningMessage msg] |}
  = documentEdits w.
Proof.
  unfold documentEdits. simpl. rewrite filter_app. simpl. apply app_nil_r.
Qed.

(** acceptChange returns, never throws, and is the run of its segments. *)
Lemma acceptChange_segments h changeId w :
  exists b w',
    acceptChange h changeId w = (Ret b, w')
    /\ acceptRun h 5 (Called changeId) w = (Ret (Returned b), w').
Proof.
  unfold acceptChange, acceptRun, acceptStep. unfold_monad.
  repeat split_outcome; eauto.
Qed.

(** C4. For an id that is unknown or already resolved (the world is the
    one a successful acceptChange or a rejectChange of this id left),
    acceptChange returns false without throwing, and changes neither the
    pending-change map nor any document nor the clock of host calls;
    rejectChange returns without throwing and leaves the world as it is. *)
Theorem accept_reject_unknown_id (h : Host) (changeId : str) (w : World) :
  unknownOrResolved h changeId w ->
  (exists w',
      acceptChange h changeId w = (Ret false, w')
      /\ pendingChanges w' = pendingChanges w
      /\ documentEdits w' = documentEdits w
      /\ clock w' = clock w)
  /\ rejectChange h changeId w = (Ret tt, w).
Proof.
  intros Hid. apply unknownOrResolved_absent in Hid. split.
  - eexists. split; [apply acceptChange_absent; exact Hid|].
    split; [reflexivity|]. split; [apply documentEdits_warning|reflexivity].
  - apply rejectChange_absent. exact Hid.
Qed.

Lemma accept_reject_unknown_id_witness :
  unknownOrResolved Scenario.host0 Scenario.previewId Scenario.accepted
  /\ (exists w',
         acceptChange Scenario.host0 Scenario.previewId Scenario.accepted
         = (Ret false, w')
         /\ pendingChanges w' = pendingChanges Scenario.accepted
         /\ documentEdits w' = documentEdits Scenario.accepted
         /\ clock w' = clock Scenario.accepted)
  /\ rejectChange Scenario.host0 Scenario.previewId Scenario.accepted
     = (Ret tt, Scenario.accepted).
Proof.
  assert (H : unknownOrResolved Scenario.host0 Scenario.previewId
                                Scenario.accepted).
  { right. left. exists Scenario.previewed. vm_compute. reflexivity. }
  split; [exact H|].
  exact (accept_reject_unknown_id Scenario.host0 Scenario.previewId
                                  Scenario.accepted H).
Defined.

(** Whatever the host, a call of acceptChange that starts while another
    one for the same id waits for the host finds the entry that the
    first call found: the entry is deleted only after the edit. *)
Lemma second_call_observes_entry h changeId change w t1 w1 :
  pendingChanges w !! changeId = Some change ->
  acceptStep h (Called changeId) w = (Ret t1, w1) ->
  returned t1 = None
  /\ exists t2 w2,
       acceptStep h (Called changeId) w1 = (Ret t2, w2)
       /\ returned t2 = None.
Proof.
  intros Hlive. unfold acceptStep. unfold_monad. rewrite Hlive.
  destruct (find _ _) eqn:Hvisible; intros [= <- <-]; simpl;
    rewrite Hlive, ?Hvisible;
    (split; [reflexivity|]); do 2 eexists; split; reflexivity.
Qed.

(** rejectChange is the run of its two segments. *)
Lemma rejectChange_segments h changeId w :
  rejectChange h changeId w
  = (t <- rejectStep h (RejectCalled changeId) ;;
     t' <- rejectStep h t ;;
     ret tt)%js w.
Proof.
  unfold rejectChange, rejectStep. unfold_monad.
  repeat split_outcome; reflexivity.
Qed.

(** The sibling path: a call of rejectChange that starts while another
    one for the same id waits for the host finds no entry and returns at
    once, leaving the world as it is. *)
Lemma second_reject_observes_absent h changeId change w t1 w1 :
  pendingChanges w !! changeId = Some change ->
  rejectStep h (RejectCalled changeId) w = (Ret t1, w1) ->
  t1 = RejectAwaitClose
  /\ rejectStep h (RejectCalled changeId) w1 = (Ret RejectReturned, w1).
Proof.
  intros Hlive. unfold rejectStep. unfold_monad. rewrite Hlive.
  intros [= <- <-]. simpl. rewrite lookup_delete_eq. split; reflexivity.
Qed.

(** C8, on the code. One pending change, two calls of acceptChange for
    its id, the second started while the first waits for the document to
    open: after the first segment of each, both calls hold the entry;
    at the end both have returned true and the host has applied the
    edit twice. *)
Theorem overlapping_accepts_apply_twice :
  (exists change,
      pendingChanges Scenario.previewed !! Scenario.previewId = Some change
      /\ size (pendingChanges Scenario.previewed) = 1
      /\ exists w1,
           interleave Scenario.host0 [true; false]
                      (Called Scenario.previewId) (Called Scenario.previewId)
                      Scenario.previewed
           = (Ret (AwaitOpen Scenario.previewId change,
                   AwaitOpen Scenario.previewId change), w1))
  /\ exists w',
       interleave Scenario.host0 Scenario.overlap
                  (Called Scenario.previewId) (Called Scenario.previewId)
                  Scenario.previewed
       = (Ret (Returned true, Returned true), w')
       /\ documentEdits w'
          = [EditApplied (uri Scenario.appTs) None (Scenario.at_ 0 0)
                         Scenario.importLine;
             EditApplied (uri Scenario.appTs) None (Scenario.at_ 0 0)
                         Scenario.importLine].
Proof.
  split.
  - eexists. split; [vm_compute; reflexivity|].
    split; [vm_compute; reflexivity|].
    eexists. vm_compute. reflexivity.
  - eexists. split; vm_compute; reflexivity.
Qed.
End PendingChangeFacts.

(* ================================================================== *)
(** ** SmartApplyService: batches, previews, headers *)
(* ================================================================== *)

Module SmartApplyFacts.
Import Js Regex Vscode IntentDetector SymbolResolver SmartApplyService Notions.

(** The loop skips over a prefix of units that succeed. *)
Lemma applyEach_succeeding h pre rest n w w1 :
  runSucceeding h pre w = Some w1 ->
  applyEach h (pre ++ rest) n w = applyEach h rest n w1.
Proof.
  revert w. induction pre as [|p pre IH]; simpl; intros w Hrun.
  - injection Hrun as ->. reflexivity.
  - unfold bind at 1.
    destruct (applySingle h p w) as [[r|e] w'] eqn:Hp; [|discriminate Hrun].
    destruct (success r); [|discriminate Hrun].
    apply IH. exact Hrun.
Qed.

(** C3. For every array of payloads, split into a prefix whose units, run
    in array order, each return success, and the rest: if nothing is left,
    [apply] returns success, action "created", message "Applied N files"
    with N the length of the array, in the world the units left; if the
    next unit returns a result with success false, [apply] returns that
    result in the world this unit left, whatever units follow it: none of
    them runs. *)
Theorem apply_batch_fail_fast (h : Host) (pre rest : list ApplyPayload)
        (w w1 w2 : World) (r : ApplyResult) :
  runSucceeding h pre w = Some w1 ->
  batchEnds h (length (pre ++ rest)) w1 rest r w2 ->
  apply h (inr (pre ++ rest)) w = (Ret r, w2).
Proof.
  intros Hrun Hend. unfold apply.
  rewrite (applyEach_succeeding _ _ _ _ _ _ Hrun).
  destruct Hend as [[-> [-> ->]]|[p [post [-> [Hp Hfail]]]]].
  - reflexivity.
  - simpl. unfold bind. rewrite Hp, Hfail. reflexivity.
Qed.

Lemma apply_batch_fail_fast_witness :
  (* a batch that fails at its second unit *)
  (runSucceeding Scenario.host0 [Scenario.unitA] Scenario.world0
   = Some Scenario.afterA
   /\ batchEnds Scenario.host0
                (length ([Scenario.unitA] ++ [Scenario.unitB; Scenario.unitC]))
                Scenario.afterA [Scenario.unitB; Scenario.unitC]
                cancelledResult Scenario.afterB
   /\ apply Scenario.host0
            (inr ([Scenario.unitA] ++ [Scenario.unitB; Scenario.unitC]))
            Scenario.world0
      = (Ret cancelledResult, Scenario.afterB))
  (* a batch whose two units succeed *)
  /\ (runSucceeding Scenario.host0 [Scenario.unitA; Scenario.unitC]
                    Scenario.world0
      = Some Scenario.afterAC
      /\ batchEnds Scenario.host0
                   (length ([Scenario.unitA; Scenario.unitC] ++ []))
                   Scenario.afterAC []
                   {| success := true; action := created;
                      message := Some (L "Applied 2 files");
                      changeId := None |}
                   Scenario.afterAC
      /\ apply Scenario.host0 (inr ([Scenario.unitA; Scenario.unitC] ++ []))
               Scenario.world0
         = (Ret {| success := true; action := created;
                   message := Some (L "Applied 2 files"); changeId := None |},
            Scenario.afterAC)).
Proof.
  assert (H1 : runSucceeding Scenario.host0 [Scenario.unitA] Scenario.world0
               = Some Scenario.afterA) by (vm_compute; reflexivity).
  assert (H2 : batchEnds Scenario.host0
                 (length ([Scenario.unitA] ++ [Scenario.unitB; Scenario.unitC]))
                 Scenario.afterA [Scenario.unitB; Scenario.unitC]
                 cancelledResult Scenario.afterB).
  { right. exists Scenario.unitB, [Scenario.unitC].
    split; [reflexivity|]. split; vm_compute; reflexivity. }
  assert (H3 : runSucceeding Scenario.host0 [Scenario.unitA; Scenario.unitC]
                             Scenario.world0
               = Some Scenario.afterAC) by (vm_compute; reflexivity).
  assert (H4 : batchEnds Scenario.host0
                 (length ([Scenario.unitA; Scenario.unitC] ++ []))
                 Scenario.afterAC []
                 {| success := true; action := created;
                    message := Some (L "Applied 2 files"); changeId := None |}
                 Scenario.afterAC).
  { left. split; [reflexivity|]. split; reflexivity. }
  split.
  - split; [exact H1|]. split; [exact H2|].
    exact (apply_batch_fail_fast _ _ _ _ _ _ _ H1 H2).
  - split; [exact H3|]. split; [exact H4|].
    exact (apply_batch_fail_fast _ _ _ _ _ _ _ H3 H4).
Defined.

(** Scenario F: the command of A reaches the terminal, the user cancels
    the creation of B, and the command of C never reaches the terminal. *)
Lemma apply_batch_scenario_F :
  exists w',
    apply Scenario.host0
          (inr [Scenario.unitA; Scenario.unitB; Scenario.unitC])
          Scenario.world0
    = (Ret cancelledResult, w')
    /\ trace w' = [TerminalCreated (L "Mistral"); TerminalShown;
                   TerminalText (L "npm test") false].
Proof. eexists. split; vm_compute; reflexivity. Qed.

(** What handleEdit previews under "edits_only": the blocks whose payload
    says "edit". *)
Lemma shouldPreview_edits_only config payload :
  previewMode config = edits_only ->
  shouldPreview config payload = true <-> pintent payload = Some Edit.
Proof.
  intros Hmode. unfold shouldPreview. rewrite Hmode.
  destruct (pintent payload) as [[]|]; split; congruence.
Qed.

(** The auto-detection block fills the target and the anchor of the payload
    and leaves its intent as the webview sent it. *)
Lemma resolveIntent_keeps_payload_intent config activeFile payload :
  pintent (snd (resolveIntent config activeFile payload)) = pintent payload.
Proof.
  unfold resolveIntent.
  destruct (autoDetectIntent config); [|reflexivity].
  destruct (Qgtb _ _); reflexivity.
Qed.

(** So under "edits_only" handleEdit previews by the intent of the payload,
    not by the intent applySingle routed on. *)
Lemma preview_by_payload_intent config activeFile payload :
  previewMode config = edits_only ->
  shouldPreview config (snd (resolveIntent config activeFile payload)) = true
  <-> pintent payload = Some Edit.
Proof.
  intros Hmode. rewrite shouldPreview_edits_only by exact Hmode.
  rewrite resolveIntent_keeps_payload_intent. reflexivity.
Qed.

(** C2, on the code. Under "edits_only", a one-line import that the
    webview sent as "create" is classified "edit" with confidence 0.85,
    so the final intent is "edit" and applySingle calls handleEdit; the
    payload still says "create", and handleEdit edits the document
    directly: no preview is shown and no change is pending. *)
Theorem detected_edit_not_previewed :
  previewMode Scenario.config0 = edits_only
  /\ pintent Scenario.importAsCreate = Some Create
  /\ intent (detect Scenario.importLine (L "ts")
                    (Some (uri Scenario.appTs))) = Edit
  /\ confidence (detect Scenario.importLine (L "ts")
                        (Some (uri Scenario.appTs))) = (85 # 100)%Q
  /\ fst (resolveIntent Scenario.config0 (Some (uri Scenario.appTs))
                        Scenario.importAsCreate) = Some Edit
  /\ exists w',
       applySingle Scenario.host0 Scenario.importAsCreate Scenario.world0
       = (Ret {| success := true; action := edited;
                 message := Some (L "Code applied"); changeId := None |}, w')
       /\ pendingChanges w' = ∅
       /\ trace w' = [EditApplied (uri Scenario.appTs) None
                                  (Scenario.at_ 0 0) Scenario.importLine].
Proof.
  repeat (split; [vm_compute; reflexivity|]).
  eexists. repeat split; vm_compute; reflexivity.
Qed.

(** The same block, sent as "edit": the preview is shown. *)
Lemma explicit_edit_previewed :
  exists w',
    applySingle Scenario.host0
                (Scenario.payload (Some Edit) Scenario.importLine)
                Scenario.world0
    = (Ret {| success := true; action := preview_shown; message := None;
              changeId := Some Scenario.previewId |}, w')
    /\ documentEdits w' = []
    /\ size (pendingChanges w') = 1.
Proof. eexists. repeat split; vm_compute; reflexivity. Qed.

(** C7, on the code. A first line that is a docstring naming a path makes
    the create stage of the classifier return "create" at 0.95 with the
    path as target, and cleanCodeForFile keeps that line; so does a path
    comment after a blank line, which the classifier reads after trimming
    and cleanCodeForFile does not. *)
Theorem docstring_header_not_stripped :
  (let d := detectFileCreation Scenario.docstringHeader (L "py") in
   intent d = Create /\ confidence d = (95 # 100)%Q
   /\ target d = Some (L "src/main.py"))
  /\ cleanCodeForFile Scenario.docstringHeader = Scenario.docstringHeader
  /\ (let d := detectFileCreation Scenario.indentedHeader (L "ts") in
      intent d = Create /\ confidence d = (95 # 100)%Q
      /\ target d = Some (L "src/app.ts"))
  /\ cleanCodeForFile Scenario.indentedHeader = Scenario.indentedHeader.
Proof. repeat split; vm_compute; reflexivity. Qed.

(** Where both agree: the path comment of Scenario A is a header for the
    classifier and is removed by cleanCodeForFile. *)
Lemma comment_header_stripped :
  target (detectFileCreation
            (L "// src/app.ts" ++ nl :: L "export const x = 1;") (L "ts"))
  = Some (L "src/app.ts")
  /\ cleanCodeForFile (L "// src/app.ts" ++ nl :: L "export const x = 1;")
     = L "export const x = 1;".
Proof. split; vm_compute; reflexivity. Qed.
End SmartApplyFacts.

(* ================================================================== *)
(** ** The header patterns of the classifier and of cleanCodeForFile *)
(* ================================================================== *)

Module HeaderFacts.
Import Js Regex Vscode IntentDetector SmartApplyService Notions.

(** Two loops whose steps and continuations succeed together succeed
    together. *)
Lemma iterate_isSome step step' k k' :
  (forall b s c c' j j',
      (forall b1 s1 c1 c1', isSome (j b1 s1 c1) = isSome (j' b1 s1 c1')) ->
      isSome (step b s c j) = isSome (step' b s c' j')) ->
  (forall b s c c', isSome (k b s c) = isSome (k' b s c')) ->
  forall fuel before rest c c',
    isSome (iterate step k fuel before rest c)
    = isSome (iterate step' k' fuel before rest c').
Proof.
  intros Hstep Hk.
  induction fuel as [|fuel IH]; intros before rest c c'; simpl; [apply Hk|].
  match goal with
  | |- isSome (match ?x with _ => _ end) = isSome (match ?y with _ => _ end) =>
      assert (Hiter : isSome x = isSome y);
      [|destruct x, y; simpl in *; try congruence; apply Hk]
  end.
  apply Hstep. intros b1 s1 c1 c1'.
  destruct (length s1 <? length rest); [apply IH|reflexivity].
Qed.

(** Capture groups do not change whether a pattern matches. *)
Lemma run_erase ml r :
  forall before rest c c' k k',
    (forall b s c1 c1', isSome (k b s c1) = isSome (k' b s c1')) ->
    isSome (run ml r before rest c k)
    = isSome (run ml (erase r) before rest c' k').
Proof.
  induction r as [|p|r1 IH1 r2 IH2|r1 IH1 r2 IH2|r1 IH1|i r1 IH1| |];
    intros before rest c c' k k' Hk; cbn [run erase].
  - apply Hk.
  - destruct rest as [|x rest]; [reflexivity|].
    destruct (p x); [apply Hk|reflexivity].
  - apply IH1. intros. apply IH2. exact Hk.
  - specialize (IH1 before rest c c' k k' Hk).
    specialize (IH2 before rest c c' k k' Hk).
    destruct (run ml r1 before rest c k), (run ml (erase r1) before rest c' k');
      simpl in *; congruence.
  - apply iterate_isSome; [|exact Hk].
    intros b s c0 c0' j j' Hj. apply IH1. exact Hj.
  - apply IH1. intros. apply Hk.
  - destruct (atBol ml before); [apply Hk|reflexivity].
  - destruct (atEol ml rest); [apply Hk|reflexivity].
Qed.

Lemma search_erase ml r rest :
  forall before idx,
    isSome (search ml r before rest idx)
    = isSome (search ml (erase r) before rest idx).
Proof.
  induction rest as [|x rest IH]; intros before idx; simpl.
  - pose proof (run_erase ml r before [] [] []
                          (fun _ s c => Some (s, c)) (fun _ s c => Some (s, c))
                          (fun _ _ _ _ => eq_refl)) as H.
    destruct (run ml r _ _ _ _) as [[? ?]|],
             (run ml (erase r) _ _ _ _) as [[? ?]|]; simpl in *; congruence.
  - pose proof (run_erase ml r before (x :: rest) [] []
                          (fun _ s c => Some (s, c)) (fun _ s c => Some (s, c))
                          (fun _ _ _ _ => eq_refl)) as H.
    destruct (run ml r _ _ _ _) as [[? ?]|],
             (run ml (erase r) _ _ _ _) as [[? ?]|]; simpl in *;
      first [congruence | apply IH].
Qed.

Lemma test_erase p s :
  test p s = test {| body := erase (body p); flag_m := flag_m p |} s.
Proof.
  unfold test, exec. simpl.
  pose proof (search_erase (flag_m p) (body p) s [] 0) as H.
  destruct (search _ (body p) _ _ _), (search _ (erase (body p)) _ _ _);
    simpl in *; congruence.
Qed.

Lemma isSome_exec p s : isSome (exec p s) = test p s.
Proof. unfold test. destruct (exec p s); reflexivity. Qed.

Lemma isSome_firstExec ps s :
  isSome (firstExec ps s) = existsb (fun p => test p s) ps.
Proof.
  induction ps as [|p ps IH]; simpl; [reflexivity|].
  rewrite <- isSome_exec. destruct (exec p s); simpl; [reflexivity|exact IH].
Qed.

(** On one and the same first line, the classifier sees a header exactly
    when cleanCodeForFile does or the line is a docstring naming a path:
    the five patterns of cleanCodeForFile are the first four path comments
    and the markdown heading of the classifier, without their groups. *)
Lemma classifierHeader_isFileHeader (firstLine : str) :
  classifierHeader firstLine
  = isFileHeader firstLine || test docstringPattern firstLine.
Proof.
  assert (Hsame : forall p q,
             erase (body p) = body q -> flag_m p = flag_m q ->
             test p firstLine = test q firstLine).
  { intros p [q m] Hbody Hflag. rewrite test_erase. simpl in *.
    rewrite Hbody, Hflag. reflexivity. }
  unfold classifierHeader, isFileHeader, docstringPattern.
  rewrite isSome_firstExec, isSome_exec.
  unfold fileCommentPatterns, fileHeaderPatterns. cbn [existsb nth].
  match goal with
  | |- test ?p1 _ || (test ?p2 _ || (test ?p3 _ || (test ?p4 _
         || (test ?p5 _ || false)))) || test ?pm _
       = test ?q1 _ || (test ?q2 _ || (test ?q3 _ || (test ?q4 _
         || (test ?qm _ || false)))) || _ =>
      rewrite (Hsame p1 q1 eq_refl eq_refl), (Hsame p2 q2 eq_refl eq_refl),
        (Hsame p3 q3 eq_refl eq_refl), (Hsame p4 q4 eq_refl eq_refl),
        (Hsame pm qm eq_refl eq_refl)
  end.
  repeat match goal with
         | |- context [test ?p firstLine] =>
             let b := fresh "b" in
             set (b := test p firstLine) in *; clearbody b
         end.
  repeat match goal with b : bool |- _ => destruct b end; reflexivity.
Qed.

(** What cleanCodeForFile strips, the classifier reads as a header. *)
Lemma isFileHeader_classifierHeader (firstLine : str) :
  isFileHeader firstLine = true -> classifierHeader firstLine = true.
Proof.
  intros H. rewrite classifierHeader_isFileHeader, H. reflexivity.
Qed.
End HeaderFacts.

(* ================================================================== *)
(** ** SymbolResolver: search order, fuzzy matching, import section *)
(* ================================================================== *)

Module SymbolSearchFacts.
Import Js Regex Vscode SymbolResolver SymbolSearch Notions Invariants
       JsFacts SymbolResolverFacts.

Lemma find_first {A} (f : A -> bool) (l : list A) :
  match find f l with
  | Some x =>
      exists earlier later,
        l = earlier ++ x :: later
        /\ f x = true
        /\ Forall (fun e => f e = false) earlier
  | None => Forall (fun e => f e = false) l
  end.
Proof.
  induction l as [|y l IH]; simpl; [constructor|].
  destruct (f y) eqn:Hy.
  - exists [], l. repeat split; [exact Hy|constructor].
  - destruct (find f l) as [x|].
    + destruct IH as [earlier [later [-> [Hx Hall]]]].
      exists (y :: earlier), later. repeat split; [exact Hx|].
      constructor; assumption.
    + constructor; assumption.
Qed.

(** X1. findSymbol returns the first symbol that matches in the order of
    its visit (a symbol before its children, the children of a symbol
    before its next sibling): every symbol visited before the result does
    not match; it returns nothing exactly when no symbol of the tree,
    nested ones included, matches. *)
Theorem findSymbol_first_match (symbols : list DocumentSymbol) (name : str)
        (mode : MatchMode) :
  match findSymbol symbols name mode with
  | Some found =>
      exists earlier later,
        allSymbols symbols = earlier ++ found :: later
        /\ symbolMatches mode name found = true
        /\ Forall (fun s => symbolMatches mode name s = false) earlier
  | None =>
      Forall (fun s => symbolMatches mode name s = false) (allSymbols symbols)
  end.
Proof.
  rewrite findSymbol_find. apply find_first.
Qed.

(** *** The edit distance *)

Lemma bounded_tail i j x row :
  bounded i j (x :: row) -> bounded i (S j) row.
Proof.
  intros H k v Hk. specialize (H (S k) v Hk). lia.
Qed.

Lemma fillRow_bounded bi a :
  forall prev left i j,
    bounded i j prev ->
    bounded (S i) (S j) (fillRow bi a prev left).
Proof.
  induction a as [|aj a IH]; intros prev left i j Hprev k v Hk.
  - destruct k; discriminate Hk.
  - simpl in Hk. destruct prev as [|diag [|up prev]];
      try (destruct k; discriminate Hk).
    assert (Hdiag : diag <= Nat.max i j).
    { specialize (Hprev 0 diag eq_refl). rewrite Nat.add_0_r in Hprev.
      exact Hprev. }
    destruct k as [|k].
    + injection Hk as <-. destruct (eqc bi aj); lia.
    + simpl in Hk.
      apply (IH (up :: prev) _ i (S j) (bounded_tail _ _ _ _ Hprev)) in Hk.
      lia.
Qed.

Lemma fillRow_length bi a :
  forall prev left,
    length prev = S (length a) -> length (fillRow bi a prev left) = length a.
Proof.
  induction a as [|aj a IH]; intros prev left Hlen; [reflexivity|].
  destruct prev as [|diag [|up prev]]; try discriminate Hlen.
  simpl. f_equal. apply IH. simpl in *. lia.
Qed.

Lemma fillMatrix_bounded a b :
  forall i prev,
    length prev = S (length a) ->
    bounded i 0 prev ->
    length (fillMatrix b a (S i) prev) = S (length a)
    /\ bounded (i + length b) 0 (fillMatrix b a (S i) prev).
Proof.
  induction b as [|bi b IH]; intros i prev Hlen Hprev; simpl.
  - rewrite Nat.add_0_r. auto.
  - replace (i + S (length b)) with (S i + length b) by lia.
    apply IH.
    + simpl. f_equal. apply fillRow_length. exact Hlen.
    + intros k v Hk. destruct k as [|k].
      * injection Hk as <-. lia.
      * simpl in Hk.
        apply (fillRow_bounded bi a prev (S i) i 0 Hprev) in Hk. lia.
Qed.

Lemma seq_bounded n : bounded 0 0 (List.seq 0 n).
Proof.
  intros k v Hk.
  assert (Hlt : k < n).
  { destruct (Nat.lt_ge_cases k n) as [H|H]; [exact H|].
    assert (Hnone : nth_error (List.seq 0 n) k = None)
      by (apply nth_error_None; rewrite length_seq; exact H).
    congruence. }
  rewrite (nth_error_nth' _ 0) in Hk by (rewrite length_seq; exact Hlt).
  rewrite seq_nth in Hk by exact Hlt. injection Hk as <-. lia.
Qed.

Lemma last_nth_error (row : list nat) n :
  length row = S n -> nth_error row n = Some (List.last row 0).
Proof.
  revert n. induction row as [|x row IH]; intros n Hlen; [discriminate|].
  destruct row as [|y row].
  - simpl in Hlen. injection Hlen as <-. reflexivity.
  - destruct n as [|n]; [discriminate Hlen|].
    simpl in Hlen. injection Hlen as Hlen.
    change (nth_error (y :: row) n = Some (List.last (y :: row) 0)).
    apply IH. simpl. f_equal. exact Hlen.
Qed.

Lemma levenshteinDistance_le (a b : str) :
  levenshteinDistance a b <= Nat.max (length a) (length b).
Proof.
  unfold levenshteinDistance.
  destruct a as [|x a]; [simpl; lia|]. destruct b as [|y b]; [simpl; lia|].
  destruct (fillMatrix_bounded (x :: a) (y :: b) 0
              (List.seq 0 (S (length (x :: a))))) as [Hlen Hb].
  - apply length_seq.
  - apply seq_bounded.
  - apply last_nth_error in Hlen. apply Hb in Hlen. lia.
Qed.

(** X2. The distance computed by levenshteinDistance is never more than the
    length of the longer string, and the distance to the empty string is
    the length of the other string. *)
Theorem levenshteinDistance_bound (a b : str) :
  levenshteinDistance a b <= Nat.max (length a) (length b)
  /\ levenshteinDistance [] b = length b
  /\ levenshteinDistance a [] = length a.
Proof.
  split; [apply levenshteinDistance_le|].
  split; [reflexivity|destruct a; reflexivity].
Qed.

(** X3. Names of at most three units always match in fuzzy mode: for an
    anchor of at most three units, the fuzzy stage accepts every symbol
    whose name has at most three units, whatever the two names are
    (units are below 256, where toLowerCase keeps the length). *)
Theorem short_names_match_fuzzy (name : str) (symbol : DocumentSymbol) :
  length name <= 3 ->
  length (symbolName symbol) <= 3 ->
  symbolMatches fuzzy name symbol = true.
Proof.
  intros Hname Hsym. unfold symbolMatches.
  apply orb_true_intro. right. apply Nat.leb_le.
  pose proof (levenshteinDistance_le (toLowerCase (symbolName symbol))
                                     (toLowerCase name)) as H.
  assert (Hlen : forall s, length (toLowerCase s) = length s)
    by (intros s; apply length_map).
  rewrite !Hlen in H. cbv zeta. lia.
Qed.

Lemma short_names_match_fuzzy_witness :
  length (L "foo") <= 3
  /\ length (symbolName (mkSymbol (L "bar")
                                  {| start := Scenario.at_ 0 0;
                                     endp := Scenario.at_ 0 3 |} [])) <= 3
  /\ symbolMatches fuzzy (L "foo")
                   (mkSymbol (L "bar")
                             {| start := Scenario.at_ 0 0;
                                endp := Scenario.at_ 0 3 |} []) = true.
Proof.
  assert (H1 : length (L "foo") <= 3) by (simpl; lia).
  assert (H2 : length (symbolName (mkSymbol (L "bar")
                                     {| start := Scenario.at_ 0 0;
                                        endp := Scenario.at_ 0 3 |} [])) <= 3)
    by (simpl; lia).
  split; [exact H1|]. split; [exact H2|].
  exact (short_names_match_fuzzy _ _ H1 H2).
Defined.
End SymbolSearchFacts.

Module SymbolSearchFacts2.
Import Js Regex Vscode SymbolResolver SymbolSearch Notions JsFacts
       SymbolResolverFacts.

Lemma filter_flat_map {A B} (f : B -> bool) (g : A -> list B) (l : list A) :
  List.filter f (flat_map g l) = flat_map (fun x => List.filter f (g x)) l.
Proof.
  induction l as [|x l IH]; simpl; [reflexivity|].
  rewrite List.filter_app, IH. reflexivity.
Qed.

Lemma flat_map_ext_Forall {A B} (f g : A -> list B) (l : list A) :
  Forall (fun x => f x = g x) l -> flat_map f l = flat_map g l.
Proof.
  induction 1 as [|x l Hx _ IH]; simpl; [reflexivity|].
  rewrite Hx, IH. reflexivity.
Qed.

Lemma searchSymbolsAt_filter p s :
  searchSymbolsAt p s
  = List.filter (fun x => includes (toLowerCase (symbolName x)) p)
                (descendants s).
Proof.
  induction s as [n r children IH] using DocumentSymbol_tree_ind.
  simpl. rewrite filter_flat_map.
  rewrite (flat_map_ext_Forall _ _ _ IH).
  destruct (includes (toLowerCase n) p); reflexivity.
Qed.

Lemma searchSymbols_filter p symbols :
  searchSymbols p symbols
  = List.filter (fun x => includes (toLowerCase (symbolName x)) p)
                (allSymbols symbols).
Proof.
  unfold searchSymbols, allSymbols. rewrite filter_flat_map.
  apply flat_map_ext_Forall. apply Forall_forall. intros s _.
  apply searchSymbolsAt_filter.
Qed.

(** X4. findAllMatchingSymbols never throws: it returns the symbols of the
    tree, nested ones included and in the order of the visit, whose name
    contains the pattern up to case; when the symbol index fails or
    answers nothing it returns the empty list. It shows nothing and leaves
    the pending changes alone. *)
Theorem findAllMatchingSymbols_filter (h : Host) (document : TextDocument)
        (pattern : str) (w : World) :
  exists w',
    findAllMatchingSymbols h document pattern w
    = (Ret (List.filter
              (fun s => includes (toLowerCase (symbolName s))
                                 (toLowerCase pattern))
              (match indexedSymbols h w with
               | Some symbols => allSymbols symbols
               | None => []
               end)), w')
    /\ trace w' = trace w
    /\ pendingChanges w' = pendingChanges w.
Proof.
  unfold findAllMatchingSymbols, bind.
  rewrite getDocumentSymbols_returns.
  destruct (indexedSymbols h w) as [symbols|]; unfold ret; eexists.
  - split; [rewrite searchSymbols_filter; reflexivity|split; reflexivity].
  - split; [reflexivity|split; reflexivity].
Qed.

Lemma startsWith_refl s : startsWith s s = true.
Proof.
  induction s as [|c s IH]; simpl; [reflexivity|].
  unfold eqc. rewrite Ascii.eqb_refl. exact IH.
Qed.

Lemma includes_refl s : includes s s = true.
Proof.
  unfold includes. destruct s as [|c s]; [reflexivity|].
  unfold indexOf. rewrite startsWith_refl. reflexivity.
Qed.

(** X5. The symbol the exact stage of findSymbol returns for a name is one
    of the symbols findAllMatchingSymbols collects for that name as the
    pattern. *)
Theorem exact_match_among_all_matching (symbols : list DocumentSymbol)
        (name : str) (found : DocumentSymbol) :
  findSymbol symbols name exact = Some found ->
  In found (searchSymbols (toLowerCase name) symbols).
Proof.
  intros Hfind. rewrite findSymbol_find in Hfind.
  apply find_some in Hfind as [Hin Hmatch].
  rewrite searchSymbols_filter. apply List.filter_In. split; [exact Hin|].
  unfold symbolMatches in Hmatch. apply eqs_true in Hmatch.
  rewrite Hmatch. apply includes_refl.
Qed.

Lemma exact_match_among_all_matching_witness :
  findSymbol Scenario.dateSymbols (L "FormatDateTime") exact
  = Some (mkSymbol (L "formatDateTime")
                   {| start := Scenario.at_ 2 0; endp := Scenario.at_ 4 1 |} [])
  /\ In (mkSymbol (L "formatDateTime")
                  {| start := Scenario.at_ 2 0; endp := Scenario.at_ 4 1 |} [])
        (searchSymbols (toLowerCase (L "FormatDateTime")) Scenario.dateSymbols).
Proof.
  assert (H : findSymbol Scenario.dateSymbols (L "FormatDateTime") exact
              = Some (mkSymbol (L "formatDateTime")
                        {| start := Scenario.at_ 2 0;
                           endp := Scenario.at_ 4 1 |} []))
    by reflexivity.
  split; [exact H|].
  exact (exact_match_among_all_matching _ _ _ H).
Defined.

(** *** The import section *)

Lemma scanImports_import lines :
  forall i last n,
    scanImports lines i last = Some n ->
    last = Some n
    \/ (i <= n < i + length lines
        /\ isImportLine (trim (nth (n - i) lines [])) = true).
Proof.
  induction lines as [|l rest IH]; intros i last n; simpl.
  - auto.
  - destruct (_ && isTopComment _).
    + intros H. apply IH in H as [H|[Hn Himp]]; [auto|right].
      split; [lia|]. replace (n - i) with (S (n - S i)) by lia. exact Himp.
    + destruct (isImportLine (trim l)) eqn:Himport.
      * intros H. apply IH in H as [H|[Hn Himp]]; right.
        -- injection H as <-. split; [lia|].
           rewrite Nat.sub_diag. exact Himport.
        -- split; [lia|]. replace (n - i) with (S (n - S i)) by lia.
           exact Himp.
      * destruct (_ && negb _); [auto|].
        intros H. apply IH in H as [H|[Hn Himp]]; [auto|right].
        split; [lia|]. replace (n - i) with (S (n - S i)) by lia. exact Himp.
Qed.

(** X6. When the scan of findImportSection finds an import, the position
    it returns is column 0 of the line after a line of the document that
    is an import statement (import, from, const x = require(, use, using);
    that position is at most one line past the last line. *)
Theorem findImportSection_after_import (document : TextDocument) (n : nat) :
  scanImports (split (getText document)) 0 None = Some n ->
  findImportSection document = Some {| line := n + 1; character := 0 |}
  /\ n < length (split (getText document))
  /\ isImportLine (trim (nth n (split (getText document)) [])) = true.
Proof.
  intros Hscan. unfold findImportSection. rewrite Hscan.
  split; [reflexivity|].
  apply scanImports_import in Hscan as [H|[Hn Himp]]; [discriminate H|].
  rewrite Nat.sub_0_r in Himp. split; [lia|exact Himp].
Qed.

Lemma findImportSection_after_import_witness :
  scanImports (split (L "// app" ++ nl :: L "import a" ++ nl :: L "run()"))
              0 None = Some 1
  /\ findImportSection
       {| uri := L "/w/src/app.ts";
          getText := L "// app" ++ nl :: L "import a" ++ nl :: L "run()" |}
     = Some {| line := 1 + 1; character := 0 |}
  /\ 1 < length (split (L "// app" ++ nl :: L "import a" ++ nl :: L "run()"))
  /\ isImportLine
       (trim (nth 1 (split (L "// app" ++ nl :: L "import a" ++ nl :: L "run()"))
                  [])) = true.
Proof.
  assert (H : scanImports
                (split (L "// app" ++ nl :: L "import a" ++ nl :: L "run()"))
                0 None = Some 1) by reflexivity.
  split; [exact H|].
  exact (findImportSection_after_import
           {| uri := L "/w/src/app.ts";
              getText := L "// app" ++ nl :: L "import a" ++ nl :: L "run()" |}
           1 H).
Defined.

(** X7. resolveAnchor only reads: it returns for every input, shows
    nothing, leaves the pending changes alone and queries the symbol index
    at most once. Its result carries a range and a symbol name exactly
    when the method is a symbol method, and then its position is the start
    of that range; with the method "cursor_fallback" the position is the
    cursor. *)
Theorem resolveAnchor_reads_only (h : Host) (document : TextDocument)
        (anchor : option str) (cursor : Position) (w : World) :
  exists r w',
    resolveAnchor h document anchor cursor w = (Ret r, w')
    /\ trace w' = trace w
    /\ pendingChanges w' = pendingChanges w
    /\ clock w <= clock w' <= S (clock w)
    /\ match method r with
       | exact_symbol | fuzzy_symbol =>
           exists range name,
             rrange r = Some range /\ rsymbolName r = Some name
             /\ rposition r = start range
       | text_search => rrange r = None /\ rsymbolName r = None
       | cursor_fallback =>
           rrange r = None /\ rsymbolName r = None /\ rposition r = cursor
       end.
Proof.
  unfold resolveAnchor.
  destruct anchor as [[|c anchor]|];
    try (unfold ret, cursorResult; do 2 eexists;
         repeat (split; [reflexivity|]); simpl; auto with arith; fail).
  destruct (if eqs _ _ then _ else _) as [p|].
  - unfold ret. do 2 eexists. repeat (split; [reflexivity|]).
    simpl. auto with arith.
  - unfold bind. rewrite getDocumentSymbols_returns.
    unfold symbolStages.
    destruct (indexedSymbols h w) as [[|s0 symbols]|];
      try destruct (findSymbol _ _ exact);
      try destruct (findSymbol _ _ fuzzy);
      try destruct (findTextMatch _ _);
      unfold ret; do 2 eexists; repeat (split; [reflexivity|]); simpl;
        (split; [auto with arith|]); eauto.
Qed.
End SymbolSearchFacts2.

(* ================================================================== *)
(** ** The matcher is sound; the text search of SymbolResolver *)
(* ================================================================== *)

Module TextSearchFacts.
Import Js Regex Vscode SymbolResolver RegexMeaning Notions JsFacts.

Lemma iterate_sound ml r1 step k :
  (forall b s c j res,
      step b s c j = Some res ->
      exists b' s' c', Den ml r1 b s b' s' /\ j b' s' c' = Some res) ->
  forall fuel b s c res,
    iterate step k fuel b s c = Some res ->
    exists b' s' c', Den ml (Star r1) b s b' s' /\ k b' s' c' = Some res.
Proof.
  intros Hstep. induction fuel as [|fuel IH]; intros b s c res; simpl.
  - intros Hk. exists b, s, c. split; [constructor|exact Hk].
  - destruct (step b s c _) as [res'|] eqn:Hrun.
    + intros [= <-].
      apply Hstep in Hrun as [b1 [s1 [c1 [Hden Hj]]]].
      destruct (length s1 <? length s); [|discriminate Hj].
      apply IH in Hj as [b2 [s2 [c2 [Hstar Hk]]]].
      exists b2, s2, c2. split; [|exact Hk].
      econstructor; eassumption.
    + intros Hk. exists b, s, c. split; [constructor|exact Hk].
Qed.

(** Whenever the matcher succeeds, the continuation succeeded on a split
    the pattern relates to the one it started from. *)
Lemma run_sound ml r :
  forall b s c k res,
    run ml r b s c k = Some res ->
    exists b' s' c', Den ml r b s b' s' /\ k b' s' c' = Some res.
Proof.
  induction r as [|p|r1 IH1 r2 IH2|r1 IH1 r2 IH2|r1 IH1|i r1 IH1| |];
    intros b s c k res; cbn [run].
  - intros H. exists b, s, c. split; [constructor|exact H].
  - destruct s as [|x s]; [discriminate|].
    destruct (p x) eqn:Hp; [|discriminate].
    intros H. exists (x :: b), s, c. split; [constructor; exact Hp|exact H].
  - intros H. apply IH1 in H as [b1 [s1 [c1 [H1 H]]]].
    apply IH2 in H as [b2 [s2 [c2 [H2 H]]]].
    exists b2, s2, c2. split; [econstructor; eassumption|exact H].
  - destruct (run ml r1 b s c k) as [res'|] eqn:Hrun.
    + intros [= <-]. apply IH1 in Hrun as [b' [s' [c' [H1 H]]]].
      exists b', s', c'. split; [apply DenAltL; exact H1|exact H].
    + intros H. apply IH2 in H as [b' [s' [c' [H2 H]]]].
      exists b', s', c'. split; [apply DenAltR; exact H2|exact H].
  - apply iterate_sound. intros. eapply IH1. eassumption.
  - intros H. apply IH1 in H as [b' [s' [c' [H1 H]]]].
    eexists b', s', _. split; [constructor; exact H1|exact H].
  - destruct (atBol ml b) eqn:Hb; [|discriminate].
    intros H. exists b, s, c. split; [constructor; exact Hb|exact H].
  - destruct (atEol ml s) eqn:He; [|discriminate].
    intros H. exists b, s, c. split; [constructor; exact He|exact H].
Qed.

(** A match moves units from [rest] to [before] and changes nothing
    else. *)
Lemma Den_input ml r b s b' s' :
  Den ml r b s b' s' -> rev b' ++ s' = rev b ++ s.
Proof.
  induction 1; try reflexivity; try congruence.
  simpl. rewrite <- app_assoc. reflexivity.
Qed.

Lemma search_sound ml r rest :
  forall before idx m,
    search ml r before rest idx = Some m ->
    exists b s b' s',
      Den ml r b s b' s' /\ rev b ++ s = rev before ++ rest.
Proof.
  induction rest as [|x rest IH]; intros before idx m; simpl.
  - destruct (run ml r before [] [] _) as [[s' c]|] eqn:Hrun; [|discriminate].
    intros _. apply run_sound in Hrun as [b' [s1 [c1 [Hden _]]]].
    exists before, [], b', s1. split; [exact Hden|reflexivity].
  - destruct (run ml r before (x :: rest) [] _) as [[s' c]|] eqn:Hrun.
    + intros _. apply run_sound in Hrun as [b' [s1 [c1 [Hden _]]]].
      exists before, (x :: rest), b', s1. split; [exact Hden|reflexivity].
    + intros H. apply IH in H as [b [s [b' [s1 [Hden Heq]]]]].
      exists b, s, b', s1. split; [exact Hden|].
      rewrite Heq. simpl. rewrite <- app_assoc. reflexivity.
Qed.

(** A sequence matches through each of its members. *)
Lemma Den_seq_member ml rs r :
  In r rs ->
  forall b s b' s',
    Den ml (Regex.seq rs) b s b' s' ->
    exists b1 s1 b2 s2,
      Den ml r b1 s1 b2 s2 /\ rev b1 ++ s1 = rev b ++ s.
Proof.
  induction rs as [|r0 rs IH]; intros Hin b s b' s' Hden; [destruct Hin|].
  unfold Regex.seq in Hden. simpl in Hden.
  inversion Hden as [| |? ? ? ? bm sm ? ? H1 H2| | | | | | |]; subst.
  destruct Hin as [<-|Hin].
  - exists b, s, bm, sm. split; [exact H1|reflexivity].
  - destruct (IH Hin bm sm b' s' H2) as [b1 [s1 [b2 [s2 [Hr Heq]]]]].
    exists b1, s1, b2, s2. split; [exact Hr|].
    rewrite Heq. apply (Den_input _ _ _ _ _ _ H1).
Qed.

(** A literal under the [i] flag consumes its units up to case. *)
Lemma Den_litsi ml name :
  forall b s b' s',
    Den ml (litsi name) b s b' s' ->
    exists m, s = m ++ s' /\ toLowerCase m = toLowerCase name.
Proof.
  unfold litsi, Regex.seq.
  induction name as [|x name IH]; intros b s b' s' Hden; simpl in Hden.
  - inversion Hden; subst. exists []. split; reflexivity.
  - inversion Hden as [| |? ? ? ? bm sm ? ? H1 H2| | | | | | |]; subst.
    unfold chri in H1.
    inversion H1 as [|? y ? ? Hy| | | | | | | |]; subst.
    apply IH in H2 as [m [-> Hm]].
    exists (y :: m). split; [reflexivity|].
    simpl. rewrite Hm. f_equal. apply eqc_true. exact Hy.
Qed.

Lemma startsWith_app p s : startsWith (p ++ s) p = true.
Proof.
  induction p as [|c p IH]; simpl; [destruct s; reflexivity|].
  unfold eqc. rewrite Ascii.eqb_refl. exact IH.
Qed.

Lemma indexOf_app x s p :
  startsWith s p = true -> indexOf (x ++ s) p <> None.
Proof.
  intros Hs. induction x as [|c x IH].
  - destruct s; cbn [app indexOf]; rewrite Hs; discriminate.
  - cbn [app indexOf].
    destruct (startsWith (c :: x ++ s) p); [discriminate|].
    destruct (indexOf (x ++ s) p);
      [simpl; discriminate|exfalso; apply IH; reflexivity].
Qed.

(** A declaration pattern matches only where the name occurs up to case. *)
Lemma funcPattern_occurs searchText p text m :
  In p (funcPatterns searchText) ->
  exec p text = Some m ->
  indexOf (toLowerCase text) (toLowerCase searchText) <> None.
Proof.
  intros Hin Hexec. unfold exec in Hexec.
  apply search_sound in Hexec as [b [s [b' [s' [Hden Heq]]]]].
  simpl in Heq.
  assert (Hmember : exists b1 s1 b2 s2,
             Den (flag_m p) (litsi searchText) b1 s1 b2 s2
             /\ rev b1 ++ s1 = text).
  { unfold funcPatterns in Hin. cbv zeta in Hin.
    repeat (destruct Hin as [<-|Hin];
            [match type of Hden with
             | Den _ (body (re (Regex.seq ?rs))) _ _ _ _ =>
                 destruct (Den_seq_member false rs (litsi searchText)
                             ltac:(simpl; tauto) _ _ _ _ Hden)
                   as [b1 [s1 [b2 [s2 [Hr Hq]]]]]
             end;
             exists b1, s1, b2, s2; split; [exact Hr|congruence]|]).
    destruct Hin. }
  destruct Hmember as [b1 [s1 [b2 [s2 [Hlit Htext]]]]].
  apply Den_litsi in Hlit as [mid [-> Hmid]].
  rewrite <- Htext. unfold toLowerCase in *. rewrite !List.map_app, Hmid.
  apply indexOf_app. apply startsWith_app.
Qed.

Lemma firstPatternMatch_occurs searchText ps text i :
  (forall p, In p ps -> In p (funcPatterns searchText)) ->
  firstPatternMatch ps text = Some i ->
  indexOf (toLowerCase text) (toLowerCase searchText) <> None.
Proof.
  induction ps as [|p ps IH]; intros Hsub; simpl; [discriminate|].
  destruct (exec p text) as [m|] eqn:Hexec.
  - intros _. eapply funcPattern_occurs; [|exact Hexec].
    apply Hsub. left. reflexivity.
  - apply IH. intros q Hq. apply Hsub. right. exact Hq.
Qed.

(** X8. The text search finds an anchor exactly where the document
    contains it up to case, at its first occurrence: the six declaration
    patterns that follow the substring search (function, def, const/let/var,
    class, fn, func) never find an anchor the substring search missed.
    Strings are sequences of units below 256, on which the [i] flag of a
    pattern and toLowerCase identify the same units. *)
Theorem findTextMatch_is_substring_search (document : TextDocument)
        (searchText : str) :
  findTextMatch document searchText
  = option_map (positionAt document)
               (indexOf (toLowerCase (getText document))
                        (toLowerCase searchText)).
Proof.
  unfold findTextMatch.
  destruct (indexOf _ _) as [index|] eqn:Hindex; [reflexivity|].
  destruct (firstPatternMatch _ _) as [i|] eqn:Hpat; [|reflexivity].
  exfalso.
  apply (firstPatternMatch_occurs searchText _ _ _ (fun p H => H)) in Hpat.
  contradiction.
Qed.
End TextSearchFacts.

(* ================================================================== *)
(** ** DiffPreviewService: the proposed content *)
(* ================================================================== *)

Module ProposedContentFacts.
Import Js Vscode DiffPreviewService Notions Invariants JsFacts SpliceFacts.

Lemma join_cons_ne l ls : ls <> [] -> join (l :: ls) = l ++ nl :: join ls.
Proof. destruct ls; [congruence|reflexivity]. Qed.

(** Joining splits at any point of any line. *)
Lemma join_splice a x y c :
  join (a ++ (x ++ y) :: c) = join (a ++ [x]) ++ join (y :: c).
Proof.
  induction a as [|a0 a IH].
  - destruct c as [|c0 c]; simpl; [reflexivity|].
    rewrite <- app_assoc. reflexivity.
  - change ((a0 :: a) ++ (x ++ y) :: c) with (a0 :: (a ++ (x ++ y) :: c)).
    change ((a0 :: a) ++ [x]) with (a0 :: (a ++ [x])).
    rewrite !join_cons_ne by (destruct a; discriminate).
    rewrite IH, <- app_assoc. reflexivity.
Qed.

Lemma mapLast_snoc g init z : mapLast g (init ++ [z]) = init ++ [g z].
Proof.
  unfold mapLast. rewrite rev_app_distr. simpl. rewrite rev_involutive.
  reflexivity.
Qed.

(** The lines of a multi-line replacement, joined with what surrounds
    them. *)
Lemma join_newLines before after pre suf ls :
  ls <> [] ->
  join (before
        ++ mapLast (fun l => l ++ suf) (mapFirst (fun l => pre ++ l) ls)
        ++ after)
  = join (before ++ [pre]) ++ join ls ++ join (suf :: after).
Proof.
  intros Hne. destruct ls as [|n0 rest]; [now destruct Hne|]. cbn [mapFirst].
  destruct rest as [|r0 rest].
  - change [pre ++ n0] with ([] ++ [pre ++ n0]).
    rewrite mapLast_snoc. cbn [app]. rewrite <- app_assoc.
    rewrite join_splice. f_equal.
    change ((n0 ++ suf) :: after) with ([] ++ (n0 ++ suf) :: after).
    rewrite join_splice. reflexivity.
  - destruct (exists_last (l := r0 :: rest) ltac:(discriminate))
      as [init [z Hz]].
    rewrite Hz.
    change ((pre ++ n0) :: init ++ [z]) with (((pre ++ n0) :: init) ++ [z]).
    rewrite mapLast_snoc, <- !app_assoc. cbn [app].
    rewrite join_splice. f_equal.
    change (n0 :: init ++ (z ++ suf) :: after)
      with ((n0 :: init) ++ (z ++ suf) :: after).
    rewrite join_splice. reflexivity.
Qed.

Lemma nth_error_nth_inside (lines : list str) i :
  i < length lines -> nth_error lines i = Some (nth i lines []).
Proof.
  revert i. induction lines as [|l lines IH]; intros [|i]; simpl; intros H;
    try lia; auto. apply IH. lia.
Qed.

(** A replacement, on one line or more, is the code between the text
    before the start and the text from the end of the range. *)
Lemma replace_joined text position newCode r :
  rangeInside text r ->
  generateProposedContent text position newCode (Some r)
  = Ret (textBefore (split text) (start r) ++ newCode
         ++ textFrom (split text) (endp r)).
Proof.
  intros [Hstart Hend]. unfold generateProposedContent, textBefore, textFrom.
  cbv zeta.
  rewrite (nth_error_nth_inside _ _ Hstart), (nth_error_nth_inside _ _ Hend).
  set (pre := substringTo _ _). set (suf := substringFrom _ _).
  set (before := firstn _ _). set (after := skipn _ _).
  destruct (length (split newCode) =? 1).
  - f_equal. simpl app. rewrite join_splice. f_equal.
    change ((newCode ++ suf) :: after) with ([] ++ (newCode ++ suf) :: after).
    rewrite join_splice. reflexivity.
  - f_equal. rewrite join_newLines by apply splitOn_nonempty.
    rewrite join_split. reflexivity.
Qed.

Lemma setLine_splice (lines : list str) i v :
  i < length lines ->
  setLine lines i v = firstn i lines ++ v :: skipn (i + 1) lines.
Proof.
  revert i. induction lines as [|l lines IH]; intros [|i]; simpl; intros H;
    try lia; auto. rewrite IH by lia. reflexivity.
Qed.

Lemma insert_joined text position newCode :
  line position < length (split text) ->
  generateProposedContent text position newCode None
  = Ret (textBefore (split text) position ++ newCode
         ++ textFrom (split text) position).
Proof.
  intros Hline. unfold generateProposedContent, textBefore, textFrom.
  cbv zeta.
  destruct (length (split text) <=? line position) eqn:Hle;
    [apply Nat.leb_le in Hle; lia|].
  f_equal. rewrite setLine_splice by exact Hline.
  rewrite join_splice. f_equal.
  set (suf := substringFrom _ _). set (after := skipn _ _).
  change ((newCode ++ suf) :: after) with ([] ++ (newCode ++ suf) :: after).
  rewrite join_splice. reflexivity.
Qed.

(** X9. For a change on lines of the text, the proposed content is the
    text before the start of the change, then the new code, then the
    text from the end of the change: for an insertion (start and end are
    the position) and for a replacement (the ends of the range), whether
    the code has one line or several. *)
Theorem proposed_content_is_splice (text : str) (position : Position)
        (newCode : str) (range : option Range) :
  changeInside text position range ->
  generateProposedContent text position newCode range
  = Ret (textBefore (split text) (changeStart position range)
         ++ newCode
         ++ textFrom (split text) (changeEnd position range)).
Proof.
  intros [Hstart Hend]. destruct range as [r|].
  - apply replace_joined. split; assumption.
  - apply insert_joined. exact Hstart.
Qed.

Lemma proposed_content_is_splice_witness :
  changeInside (L "ab" ++ nl :: L "cd") (Scenario.at_ 0 0)
               (Some {| start := Scenario.at_ 0 1; endp := Scenario.at_ 1 1 |})
  /\ generateProposedContent (L "ab" ++ nl :: L "cd") (Scenario.at_ 0 0)
       (L "X" ++ nl :: L "Y")
       (Some {| start := Scenario.at_ 0 1; endp := Scenario.at_ 1 1 |})
     = Ret (textBefore (split (L "ab" ++ nl :: L "cd"))
              (changeStart (Scenario.at_ 0 0)
                 (Some {| start := Scenario.at_ 0 1;
                          endp := Scenario.at_ 1 1 |}))
            ++ (L "X" ++ nl :: L "Y")
            ++ textFrom (split (L "ab" ++ nl :: L "cd"))
                 (changeEnd (Scenario.at_ 0 0)
                    (Some {| start := Scenario.at_ 0 1;
                             endp := Scenario.at_ 1 1 |}))).
Proof.
  assert (H : changeInside (L "ab" ++ nl :: L "cd") (Scenario.at_ 0 0)
                (Some {| start := Scenario.at_ 0 1;
                         endp := Scenario.at_ 1 1 |}))
    by (split; vm_compute; lia).
  split; [exact H|].
  exact (proposed_content_is_splice _ (Scenario.at_ 0 0)
           (L "X" ++ nl :: L "Y") _ H).
Defined.

(** X10. Replacing the empty range at a position on a line of the text
    proposes the same content as inserting at that position. *)
Theorem empty_range_is_insertion (text : str) (position : Position)
        (newCode : str) :
  line position < length (split text) ->
  generateProposedContent text position newCode
    (Some {| start := position; endp := position |})
  = generateProposedContent text position newCode None.
Proof.
  intros Hline.
  rewrite insert_joined by exact Hline.
  rewrite replace_joined by (split; exact Hline).
  reflexivity.
Qed.

Lemma empty_range_is_insertion_witness :
  line (Scenario.at_ 1 1) < length (split (L "ab" ++ nl :: L "cd"))
  /\ generateProposedContent (L "ab" ++ nl :: L "cd") (Scenario.at_ 1 1)
       (L "X" ++ nl :: L "Y")
       (Some {| start := Scenario.at_ 1 1; endp := Scenario.at_ 1 1 |})
     = generateProposedContent (L "ab" ++ nl :: L "cd") (Scenario.at_ 1 1)
         (L "X" ++ nl :: L "Y") None.
Proof.
  assert (H : line (Scenario.at_ 1 1) < length (split (L "ab" ++ nl :: L "cd")))
    by (vm_compute; lia).
  split; [exact H|].
  exact (empty_range_is_insertion _ _ (L "X" ++ nl :: L "Y") H).
Defined.

(** X11. generateProposedContent throws exactly when it is given a range
    one of whose ends is on a line the text does not have; an insertion
    never throws, for any position. *)
Theorem generateProposedContent_throws (text : str) (position : Position)
        (newCode : str) (range : option Range) :
  (exists e, generateProposedContent text position newCode range = Throw e)
  <-> (exists r, range = Some r
                 /\ (length (split text) <= line (start r)
                     \/ length (split text) <= line (endp r))).
Proof.
  unfold generateProposedContent. cbv zeta. destruct range as [r|].
  - destruct (nth_error (split text) (line (start r))) as [startLine|] eqn:Hs.
    + destruct (nth_error (split text) (line (endp r))) as [endLine|] eqn:He.
      * split.
        -- intros [e H]. destruct (_ =? _); discriminate H.
        -- intros [r' [[= <-] [H|H]]].
           ++ apply nth_error_None in H. congruence.
           ++ apply nth_error_None in H. congruence.
      * split; [|intros _; eexists; reflexivity].
        intros _. exists r. split; [reflexivity|].
        right. apply nth_error_None. exact He.
    + split; [|intros _; eexists; reflexivity].
      intros _. exists r. split; [reflexivity|].
      left. apply nth_error_None. exact Hs.
  - split.
    + intros [e H]. destruct (_ <=? _); discriminate H.
    + intros [r [H _]]. discriminate H.
Qed.
End ProposedContentFacts.

(* ================================================================== *)
(** ** DiffPreviewService: previews and their resolution *)
(* ================================================================== *)

Module PreviewFacts.
Import Js Vscode DiffPreviewService Notions Invariants Behaviour JsFacts
       PendingChangeFacts.

Lemma documentEdits_app w evs (w' : World) :
  trace w' = trace w ++ evs ->
  documentEdits w' = documentEdits w ++ filter isEdit evs.
Proof.
  unfold documentEdits. intros ->. apply filter_app.
Qed.

(** The entry showPreview stores for the content [content], in world [w]. *)
Lemma showPreview_cases h editor pos code range w :
  showPreview h editor pos code range w
  = match generateProposedContent (getText (document editor)) pos code range
    with
    | Throw e =>
        (Ret {| success := false; action := error; changeId := None;
                error_ := Some e |}, w)
    | Ret content =>
        let cid := randomUUID h (clock w) in
        let stored :=
          <[cid := {| id := cid; originalUri := uri (document editor);
                      position := pos; range_ := range; newCode := code;
                      proposedContent := content;
                      createdAt := dateNow h (S (clock w)) |}]>
            (pendingChanges w) in
        match diffCommand h (S (S (clock w))) with
        | Ret _ =>
            (Ret {| success := true; action := preview_shown;
                    changeId := Some cid; error_ := None |},
             {| clock := S (S (S (clock w))); pendingChanges := stored;
                trace := trace w
                         ++ [DiffShown (uri (document editor))
                               (L "mistral-preview:"
                                ++ basename (uri (document editor))
                                ++ L "?" ++ cid)
                               (L "Preview Changes: "
                                ++ basename (uri (document editor)))] |})
        | Throw e =>
            (Ret {| success := false; action := error; changeId := None;
                    error_ := Some e |},
             {| clock := S (S (S (clock w))); pendingChanges := stored;
                trace := trace w |})
        end
    end.
Proof.
  unfold showPreview. unfold_monad.
  destruct (generateProposedContent _ _ _ _); [|destruct w; reflexivity].
  destruct (diffCommand h _) as [[]|]; reflexivity.
Qed.

(** X12. showPreview never throws and never edits a document. When it
    reports success the action is preview_shown and the id it returns is
    pending, with the position, range and code it was given and the
    proposed content generateProposedContent computed; when it fails the
    action is error, with a message and no id. *)
Theorem showPreview_outcome (h : Host) (editor : TextEditor) (pos : Position)
        (code : str) (range : option Range) (w : World) :
  exists r w',
    showPreview h editor pos code range w = (Ret r, w')
    /\ documentEdits w' = documentEdits w
    /\ if success r
       then action r = preview_shown
            /\ exists cid change,
                 changeId r = Some cid
                 /\ pendingChanges w' !! cid = Some change
                 /\ generateProposedContent (getText (document editor)) pos
                      code range = Ret (proposedContent change)
                 /\ originalUri change = uri (document editor)
                 /\ position change = pos
                 /\ range_ change = range
                 /\ newCode change = code
       else action r = error /\ changeId r = None
            /\ exists e, error_ r = Some e.
Proof.
  rewrite showPreview_cases.
  destruct (generateProposedContent _ _ _ _) as [content|e] eqn:Hgen.
  - cbv zeta. destruct (diffCommand h _) as [[]|e].
    + eexists _, _. split; [reflexivity|]. split.
      * rewrite (documentEdits_app w [DiffShown _ _ _]) by reflexivity.
        apply app_nil_r.
      * simpl. split; [reflexivity|].
        eexists _, _. split; [reflexivity|].
        split; [apply lookup_insert_eq|]. simpl. auto.
    + eexists _, _. split; [reflexivity|]. split; [reflexivity|].
      simpl. eauto.
  - eexists _, _. split; [reflexivity|]. split; [reflexivity|].
    simpl. eauto.
Qed.

(** X13. When the content was generated but the diff command fails,
    showPreview reports an error without an id, yet the change stays
    pending under the id it drew: only the cleanup can remove it. *)
Theorem failed_diff_leaves_change_pending (h : Host) (editor : TextEditor)
        (pos : Position) (code : str) (range : option Range) (w : World)
        (content e : str) :
  generateProposedContent (getText (document editor)) pos code range
  = Ret content ->
  diffCommand h (S (S (clock w))) = Throw e ->
  exists w',
    showPreview h editor pos code range w
    = (Ret {| success := false; action := error; changeId := None;
              error_ := Some e |}, w')
    /\ trace w' = trace w
    /\ pendingChanges w' !! randomUUID h (clock w)
       = Some {| id := randomUUID h (clock w);
                 originalUri := uri (document editor);
                 position := pos; range_ := range; newCode := code;
                 proposedContent := content;
                 createdAt := dateNow h (S (clock w)) |}.
Proof.
  intros Hgen Hdiff. rewrite showPreview_cases, Hgen. cbv zeta.
  rewrite Hdiff. eexists. split; [reflexivity|]. split; [reflexivity|].
  apply lookup_insert_eq.
Qed.

Lemma failed_diff_leaves_change_pending_witness :
  generateProposedContent (getText (document Scenario.editor0))
    (Scenario.at_ 0 0) (L "x") None
  = Ret (L "xconst x = 1;")
  /\ diffCommand Hosts.noDiff (S (S (clock Scenario.world0)))
     = Throw (L "Error: command 'vscode.diff' failed")
  /\ exists w',
       showPreview Hosts.noDiff Scenario.editor0 (Scenario.at_ 0 0) (L "x")
                   None Scenario.world0
       = (Ret {| success := false; action := error; changeId := None;
                 error_ := Some (L "Error: command 'vscode.diff' failed") |},
          w')
       /\ trace w' = trace Scenario.world0
       /\ pendingChanges w' !! randomUUID Hosts.noDiff (clock Scenario.world0)
          = Some {| id := randomUUID Hosts.noDiff (clock Scenario.world0);
                    originalUri := uri (document Scenario.editor0);
                    position := Scenario.at_ 0 0; range_ := None;
                    newCode := L "x";
                    proposedContent := L "xconst x = 1;";
                    createdAt :=
                      dateNow Hosts.noDiff (S (clock Scenario.world0)) |}.
Proof.
  assert (H1 : generateProposedContent (getText (document Scenario.editor0))
                 (Scenario.at_ 0 0) (L "x") None
               = Ret (L "xconst x = 1;")) by reflexivity.
  assert (H2 : diffCommand Hosts.noDiff (S (S (clock Scenario.world0)))
               = Throw (L "Error: command 'vscode.diff' failed"))
    by reflexivity.
  split; [exact H1|]. split; [exact H2|].
  exact (failed_diff_leaves_change_pending Hosts.noDiff Scenario.editor0
           (Scenario.at_ 0 0) (L "x") None Scenario.world0 _ _ H1 H2).
Defined.

(** The editor acceptChange edits is on the document of the change. *)
Lemma find_editor_uri (change : PendingChange) visible editor :
  find (fun e => eqs (uri (document e)) (originalUri change)) visible
  = Some editor ->
  uri (document editor) = originalUri change.
Proof.
  intros H. apply find_some in H as [_ H]. apply eqs_true. exact H.
Qed.

Ltac edits_of_trace w :=
  match goal with
  | |- documentEdits ?w' = _ =>
      let evs := fresh "evs" in
      evar (evs : list Event);
      rewrite (documentEdits_app w evs w');
      [subst evs|subst evs; simpl; rewrite <- ?app_assoc; reflexivity]
  end.

Ltac same_edits w :=
  first [reflexivity | edits_of_trace w; apply app_nil_r].

(** What acceptChange does with a pending change, for every host. *)
Lemma acceptChange_live h cid change w :
  pendingChanges w !! cid = Some change ->
  exists b w',
    acceptChange h cid w = (Ret b, w')
    /\ if b
       then documentEdits w' = documentEdits w ++ [editOf change]
            /\ pendingChanges w' = delete cid (pendingChanges w)
       else (documentEdits w' = documentEdits w
             /\ pendingChanges w' = pendingChanges w)
            \/ (documentEdits w' = documentEdits w ++ [editOf change]
                /\ pendingChanges w' = delete cid (pendingChanges w)
                /\ exists n e, closeActiveEditor h n = Throw e).
Proof.
  intros Hlive. unfold acceptChange. unfold_monad. rewrite Hlive.
  destruct (find _ (visibleTextEditors h (clock w))) as [editor|] eqn:Hfind.
  - apply find_editor_uri in Hfind. simpl. rewrite Hfind.
    destruct (editorEdit h (clock w)) as [[|]|e] eqn:Hedit; simpl.
    + destruct (closeActiveEditor h (S (clock w))) as [[]|e] eqn:Hclose; simpl.
      * exists true. eexists. split; [reflexivity|]. split; [|reflexivity].
        edits_of_trace w. reflexivity.
      * exists false. eexists. split; [reflexivity|]. right.
        split; [|split; [reflexivity|eauto]].
        edits_of_trace w. reflexivity.
    + exists false. eexists. split; [reflexivity|]. left.
      split; [|reflexivity]. same_edits w.
    + exists false. eexists. split; [reflexivity|]. left.
      split; [|reflexivity]. same_edits w.
  - simpl.
    destruct (openTextDocument h (clock w)) as [text|e]; simpl.
    2:{ exists false. eexists. split; [reflexivity|]. left.
        split; [|reflexivity]. same_edits w. }
    destruct (showTextDocument h (S (clock w))) as [cursor|e]; simpl.
    2:{ exists false. eexists. split; [reflexivity|]. left.
        split; [|reflexivity]. same_edits w. }
    destruct (editorEdit h (S (S (clock w)))) as [[|]|e]; simpl.
    + destruct (closeActiveEditor h (S (S (S (clock w))))) as [[]|e] eqn:Hclose;
        simpl.
      * exists true. eexists. split; [reflexivity|]. split; [|reflexivity].
        edits_of_trace w. reflexivity.
      * exists false. eexists. split; [reflexivity|]. right.
        split; [|split; [reflexivity|eauto]].
        edits_of_trace w. reflexivity.
    + exists false. eexists. split; [reflexivity|]. left.
      split; [|reflexivity]. same_edits w.
    + exists false. eexists. split; [reflexivity|]. left.
      split; [|reflexivity]. same_edits w.
Qed.

(** The events between two worlds, given one by one. *)
Ltac shown_last :=
  unfold shownLast; cbn [trace];
  first [ exists []; cbn [app]; rewrite <- ?app_assoc; reflexivity
        | eexists [_]; cbn [app]; rewrite <- ?app_assoc; reflexivity
        | eexists [_; _]; cbn [app]; rewrite <- ?app_assoc; reflexivity
        | eexists [_; _; _]; cbn [app]; rewrite <- ?app_assoc; reflexivity ].

Ltac no_notice :=
  unfold noNotice; cbn [trace];
  first [ exists []; split;
          [symmetry; apply app_nil_r|constructor]
        | eexists [_]; split;
          [cbn [app]; rewrite <- ?app_assoc; reflexivity
          |repeat constructor] ].

(** X14. acceptChange on a pending change, for every host: it returns
    and never throws, and what it does follows the answers of the host.
    When opening or showing the document, or the edit, throws, it
    returns false with the error shown last, no document edited and the
    entry kept. When the editor refuses the edit, it returns false
    without any notice, no document edited and the entry kept. When the
    editor accepts the edit, the edit made is the stored one (the range
    or position and the code of the change, on its document) and the
    entry is deleted; it then returns true with the success notice
    shown last, or, when closing the diff view throws, false with that
    error shown last. *)
Theorem acceptChange_pending (h : Host) (cid : str) (change : PendingChange)
        (w : World) :
  pendingChanges w !! cid = Some change ->
  exists b w',
    acceptChange h cid w = (Ret b, w')
    /\ match editCall h change w with
       | Throw e =>
           b = false /\ untouched w w'
           /\ shownLast (ShowErrorMessage
                           (L "Failed to apply changes: " ++ e)) w w'
       | Ret c =>
           match editorEdit h c with
           | Throw e =>
               b = false /\ untouched w w'
               /\ shownLast (ShowErrorMessage
                               (L "Failed to apply changes: " ++ e)) w w'
           | Ret false => b = false /\ untouched w w' /\ noNotice w w'
           | Ret true =>
               appliedChange cid change w w'
               /\ match closeActiveEditor h (S c) with
                  | Ret _ =>
                      b = true
                      /\ shownLast (ShowInformationMessage
                                      (L "Changes applied successfully."))
                                   w w'
                  | Throw e =>
                      b = false
                      /\ shownLast (ShowErrorMessage
                                      (L "Failed to apply changes: " ++ e))
                                   w w'
                  end
           end
       end.
Proof.
  intros Hlive. unfold acceptChange, editCall, untouched, appliedChange.
  unfold_monad. rewrite Hlive.
  destruct (find _ (visibleTextEditors h (clock w))) as [editor|] eqn:Hfind.
  - apply find_editor_uri in Hfind. simpl. rewrite Hfind.
    destruct (editorEdit h (clock w)) as [[|]|e]; simpl.
    + destruct (closeActiveEditor h (S (clock w))) as [[]|e]; simpl.
      * exists true. eexists. split; [reflexivity|].
        split; [split; [edits_of_trace w; reflexivity|reflexivity]|].
        split; [reflexivity|]. shown_last.
      * exists false. eexists. split; [reflexivity|].
        split; [split; [edits_of_trace w; reflexivity|reflexivity]|].
        split; [reflexivity|]. shown_last.
    + exists false. eexists. split; [reflexivity|]. split; [reflexivity|].
      split; [split; [same_edits w|reflexivity]|]. no_notice.
    + exists false. eexists. split; [reflexivity|]. split; [reflexivity|].
      split; [split; [same_edits w|reflexivity]|]. shown_last.
  - simpl.
    destruct (openTextDocument h (clock w)) as [text|e]; simpl.
    2:{ exists false. eexists. split; [reflexivity|]. split; [reflexivity|].
        split; [split; [same_edits w|reflexivity]|]. shown_last. }
    destruct (showTextDocument h (S (clock w))) as [cursor|e]; simpl.
    2:{ exists false. eexists. split; [reflexivity|]. split; [reflexivity|].
        split; [split; [same_edits w|reflexivity]|]. shown_last. }
    destruct (editorEdit h (S (S (clock w)))) as [[|]|e]; simpl.
    + destruct (closeActiveEditor h (S (S (S (clock w))))) as [[]|e]; simpl.
      * exists true. eexists. split; [reflexivity|].
        split; [split; [edits_of_trace w; reflexivity|reflexivity]|].
        split; [reflexivity|]. shown_last.
      * exists false. eexists. split; [reflexivity|].
        split; [split; [edits_of_trace w; reflexivity|reflexivity]|].
        split; [reflexivity|]. shown_last.
    + exists false. eexists. split; [reflexivity|]. split; [reflexivity|].
      split; [split; [same_edits w|reflexivity]|]. no_notice.
    + exists false. eexists. split; [reflexivity|]. split; [reflexivity|].
      split; [split; [same_edits w|reflexivity]|]. shown_last.
Qed.

Lemma acceptChange_pending_witness :
  pendingChanges Scenario.previewed !! Scenario.previewId
  = Some {| id := Scenario.previewId; originalUri := uri Scenario.appTs;
            position := Scenario.at_ 0 0; range_ := None;
            newCode := Scenario.importLine;
            proposedContent := Scenario.importLine ++ getText Scenario.appTs;
            createdAt := 1000 |}
  /\ exists b w',
       acceptChange Scenario.host0 Scenario.previewId Scenario.previewed
       = (Ret b, w')
       /\ match editCall Scenario.host0
                    {| id := Scenario.previewId;
                       originalUri := uri Scenario.appTs;
                       position := Scenario.at_ 0 0; range_ := None;
                       newCode := Scenario.importLine;
                       proposedContent :=
                         Scenario.importLine ++ getText Scenario.appTs;
                       createdAt := 1000 |}
                    Scenario.previewed with
          | Throw e =>
              b = false /\ untouched Scenario.previewed w'
              /\ shownLast (ShowErrorMessage
                              (L "Failed to apply changes: " ++ e))
                           Scenario.previewed w'
          | Ret c =>
              match editorEdit Scenario.host0 c with
              | Throw e =>
                  b = false /\ untouched Scenario.previewed w'
                  /\ shownLast (ShowErrorMessage
                                  (L "Failed to apply changes: " ++ e))
                               Scenario.previewed w'
              | Ret false =>
                  b = false /\ untouched Scenario.previewed w'
                  /\ noNotice Scenario.previewed w'
              | Ret true =>
                  appliedChange Scenario.previewId
                    {| id := Scenario.previewId;
                       originalUri := uri Scenario.appTs;
                       position := Scenario.at_ 0 0; range_ := None;
                       newCode := Scenario.importLine;
                       proposedContent :=
                         Scenario.importLine ++ getText Scenario.appTs;
                       createdAt := 1000 |}
                    Scenario.previewed w'
                  /\ match closeActiveEditor Scenario.host0 (S c) with
                     | Ret _ =>
                         b = true
                         /\ shownLast (ShowInformationMessage
                                         (L "Changes applied successfully."))
                                      Scenario.previewed w'
                     | Throw e =>
                         b = false
                         /\ shownLast (ShowErrorMessage
                                         (L "Failed to apply changes: " ++ e))
                                      Scenario.previewed w'
                     end
              end
          end.
Proof.
  assert (H : pendingChanges Scenario.previewed !! Scenario.previewId
              = Some {| id := Scenario.previewId;
                        originalUri := uri Scenario.appTs;
                        position := Scenario.at_ 0 0; range_ := None;
                        newCode := Scenario.importLine;
                        proposedContent :=
                          Scenario.importLine ++ getText Scenario.appTs;
                        createdAt := 1000 |}) by (vm_compute; reflexivity).
  split; [exact H|].
  exact (acceptChange_pending Scenario.host0 Scenario.previewId _
           Scenario.previewed H).
Defined.

(** X15. rejectChange on a pending change, for every host: the entry is
    deleted and no document is edited, also when the call throws, which
    it does exactly when closing the diff view fails; the notice that
    the changes were rejected is shown only when it returns. *)
Theorem rejectChange_pending (h : Host) (cid : str) (change : PendingChange)
        (w : World) :
  pendingChanges w !! cid = Some change ->
  exists o w',
    rejectChange h cid w = (o, w')
    /\ pendingChanges w' = delete cid (pendingChanges w)
    /\ documentEdits w' = documentEdits w
    /\ match o with
       | Ret _ =>
           closeActiveEditor h (clock w) = Ret tt
           /\ trace w' = trace w ++ [ActiveEditorClosed;
                                     ShowInformationMessage
                                       (L "Changes rejected.")]
       | Throw e =>
           closeActiveEditor h (clock w) = Throw e /\ trace w' = trace w
       end.
Proof.
  intros Hlive. unfold rejectChange. unfold_monad. rewrite Hlive. simpl.
  destruct (closeActiveEditor h (clock w)) as [[]|e]; simpl.
  - eexists _, _. split; [reflexivity|]. split; [reflexivity|].
    split; [same_edits w|]. split; [reflexivity|].
    simpl. rewrite <- app_assoc. reflexivity.
  - eexists _, _. split; [reflexivity|]. split; [reflexivity|].
    split; [reflexivity|]. split; reflexivity.
Qed.

Lemma rejectChange_pending_witness :
  pendingChanges Scenario.previewed !! Scenario.previewId
  = Some {| id := Scenario.previewId; originalUri := uri Scenario.appTs;
            position := Scenario.at_ 0 0; range_ := None;
            newCode := Scenario.importLine;
            proposedContent := Scenario.importLine ++ getText Scenario.appTs;
            createdAt := 1000 |}
  /\ exists o w',
       rejectChange Hosts.noClose Scenario.previewId Scenario.previewed
       = (o, w')
       /\ pendingChanges w'
          = delete Scenario.previewId (pendingChanges Scenario.previewed)
       /\ documentEdits w' = documentEdits Scenario.previewed
       /\ match o with
          | Ret _ =>
              closeActiveEditor Hosts.noClose (clock Scenario.previewed)
              = Ret tt
              /\ trace w' = trace Scenario.previewed
                            ++ [ActiveEditorClosed;
                                ShowInformationMessage (L "Changes rejected.")]
          | Throw e =>
              closeActiveEditor Hosts.noClose (clock Scenario.previewed)
              = Throw e
              /\ trace w' = trace Scenario.previewed
          end.
Proof.
  assert (H : pendingChanges Scenario.previewed !! Scenario.previewId
              = Some {| id := Scenario.previewId;
                        originalUri := uri Scenario.appTs;
                        position := Scenario.at_ 0 0; range_ := None;
                        newCode := Scenario.importLine;
                        proposedContent :=
                          Scenario.importLine ++ getText Scenario.appTs;
                        createdAt := 1000 |}) by (vm_compute; reflexivity).
  split; [exact H|].
  exact (rejectChange_pending Hosts.noClose Scenario.previewId _
           Scenario.previewed H).
Defined.

(** X16. A preview followed by the acceptance of the id it returned,
    with nothing in between: the only edit that can reach the document
    is the previewed one (the same document, range, position and code),
    and when acceptChange returns true it was made and the pending
    changes are those from before the preview, without that id. *)
Theorem preview_then_accept (h : Host) (editor : TextEditor) (pos : Position)
        (code : str) (range : option Range) (w w1 : World)
        (r : PreviewResult) (cid : str) :
  showPreview h editor pos code range w = (Ret r, w1) ->
  changeId r = Some cid ->
  exists b w2,
    acceptChange h cid w1 = (Ret b, w2)
    /\ if b
       then documentEdits w2
            = documentEdits w
              ++ [EditApplied (uri (document editor)) range pos code]
            /\ pendingChanges w2 = delete cid (pendingChanges w)
       else documentEdits w2 = documentEdits w
            \/ documentEdits w2
               = documentEdits w
                 ++ [EditApplied (uri (document editor)) range pos code].
Proof.
  rewrite showPreview_cases.
  destruct (generateProposedContent _ _ _ _) as [content|e];
    [|intros [= <- <-]; discriminate].
  cbv zeta. destruct (diffCommand h _) as [[]|e];
    [|intros [= <- <-]; discriminate].
  intros [= <- <-]. simpl. intros [= <-].
  match goal with
  | |- context [acceptChange h ?c ?w1] =>
      destruct (acceptChange_live h c _ w1 (lookup_insert_eq _ _ _))
        as [b [w2 [Hrun Hcases]]]
  end.
  exists b, w2. split; [exact Hrun|].
  match type of Hrun with
  | acceptChange _ _ ?w1 = _ =>
      assert (Hsame : documentEdits w1 = documentEdits w)
        by (rewrite (documentEdits_app w [DiffShown _ _ _]) by reflexivity;
            apply app_nil_r)
  end.
  rewrite Hsame in Hcases. simpl in Hcases. unfold editOf in Hcases.
  simpl in Hcases.
  destruct b.
  - destruct Hcases as [Hedits Hpending]. split; [exact Hedits|].
    rewrite Hpending. apply delete_insert_eq.
  - destruct Hcases as [[Hedits _]|[Hedits _]]; auto.
Qed.

Lemma preview_then_accept_witness :
  showPreview Scenario.host0 Scenario.editor0 (Scenario.at_ 0 0) (L "x") None
              Scenario.world0
  = (Ret {| success := true; action := preview_shown;
            changeId := Some (L "change-0"); error_ := None |},
     snd (showPreview Scenario.host0 Scenario.editor0 (Scenario.at_ 0 0)
                      (L "x") None Scenario.world0))
  /\ changeId {| success := true; action := preview_shown;
                 changeId := Some (L "change-0"); error_ := None |}
     = Some (L "change-0")
  /\ exists b w2,
       acceptChange Scenario.host0 (L "change-0")
         (snd (showPreview Scenario.host0 Scenario.editor0 (Scenario.at_ 0 0)
                           (L "x") None Scenario.world0))
       = (Ret b, w2)
       /\ if b
          then documentEdits w2
               = documentEdits Scenario.world0
                 ++ [EditApplied (uri (document Scenario.editor0)) None
                                 (Scenario.at_ 0 0) (L "x")]
               /\ pendingChanges w2
                  = delete (L "change-0") (pendingChanges Scenario.world0)
          else documentEdits w2 = documentEdits Scenario.world0
               \/ documentEdits w2
                  = documentEdits Scenario.world0
                    ++ [EditApplied (uri (document Scenario.editor0)) None
                                    (Scenario.at_ 0 0) (L "x")].
Proof.
  assert (H1 : showPreview Scenario.host0 Scenario.editor0 (Scenario.at_ 0 0)
                 (L "x") None Scenario.world0
               = (Ret {| success := true; action := preview_shown;
                         changeId := Some (L "change-0"); error_ := None |},
                  snd (showPreview Scenario.host0 Scenario.editor0
                         (Scenario.at_ 0 0) (L "x") None Scenario.world0)))
    by reflexivity.
  assert (H2 : changeId {| success := true; action := preview_shown;
                           changeId := Some (L "change-0"); error_ := None |}
               = Some (L "change-0")) by reflexivity.
  split; [exact H1|]. split; [exact H2|].
  exact (preview_then_accept Scenario.host0 Scenario.editor0
           (Scenario.at_ 0 0) (L "x") None Scenario.world0 _ _ _ H1 H2).
Defined.

(** X17. The cleanup keeps exactly the pending changes that are at most
    ten minutes ([maxAge], in milliseconds) old at the time it runs,
    unchanged, and does nothing else. *)
Theorem cleanup_keeps_recent (h : Host) (w : World) :
  exists w',
    cleanup h w = (Ret tt, w')
    /\ trace w' = trace w
    /\ forall cid change,
         pendingChanges w' !! cid = Some change
         <-> pendingChanges w !! cid = Some change
             /\ dateNow h (clock w) - createdAt change <= maxAge.
Proof.
  unfold cleanup, bind, callPure, call, getPending, setPending.
  eexists. split; [reflexivity|].
  split; [reflexivity|]. intros cid change. cbn [pendingChanges clock].
  apply map_lookup_filter_Some.
Qed.

(** X18. A pending change older than ten minutes when the cleanup runs
    cannot be accepted afterwards: acceptChange returns false, shows the
    warning and edits nothing. *)
Theorem expired_change_not_accepted (h : Host) (cid : str)
        (change : PendingChange) (w : World) :
  pendingChanges w !! cid = Some change ->
  maxAge < dateNow h (clock w) - createdAt change ->
  exists w1 w2,
    cleanup h w = (Ret tt, w1)
    /\ acceptChange h cid w1 = (Ret false, w2)
    /\ documentEdits w2 = documentEdits w
    /\ trace w2
       = trace w ++ [ShowWarningMessage (L "Change not found or expired.")].
Proof.
  intros Hlive Hold.
  assert (Hgone : pendingChanges (snd (cleanup h w)) !! cid = None).
  { unfold cleanup, bind, callPure, call, getPending, setPending.
    cbn [snd pendingChanges clock].
    apply map_lookup_filter_None. right.
    intros change' Hchange'. cbn [snd]. rewrite Hlive in Hchange'.
    injection Hchange' as <-. lia. }
  exists (snd (cleanup h w)). eexists.
  split; [reflexivity|].
  split; [apply acceptChange_absent; exact Hgone|].
  split; [|reflexivity]. rewrite documentEdits_warning. reflexivity.
Qed.

Lemma expired_change_not_accepted_witness :
  pendingChanges {| clock := 700; pendingChanges := {[ L "c" := Hosts.changeAt 1000 ]};
                    trace := [] |} !! L "c"
  = Some (Hosts.changeAt 1000)
  /\ maxAge < dateNow Scenario.host0 700 - createdAt (Hosts.changeAt 1000)
  /\ exists w1 w2,
       cleanup Scenario.host0
               {| clock := 700;
                  pendingChanges := {[ L "c" := Hosts.changeAt 1000 ]};
                  trace := [] |} = (Ret tt, w1)
       /\ acceptChange Scenario.host0 (L "c") w1 = (Ret false, w2)
       /\ documentEdits w2
          = documentEdits {| clock := 700;
                             pendingChanges :=
                               {[ L "c" := Hosts.changeAt 1000 ]};
                             trace := [] |}
       /\ trace w2
          = [] ++ [ShowWarningMessage (L "Change not found or expired.")].
Proof.
  assert (H1 : pendingChanges
                 {| clock := 700;
                    pendingChanges := {[ L "c" := Hosts.changeAt 1000 ]};
                    trace := [] |} !! L "c"
               = Some (Hosts.changeAt 1000)) by apply lookup_singleton_eq.
  assert (H2 : maxAge < dateNow Scenario.host0 700
                        - createdAt (Hosts.changeAt 1000))
    by (unfold maxAge, Hosts.changeAt;
        cbn [dateNow Scenario.host0 createdAt]; lia).
  split; [exact H1|]. split; [exact H2|].
  exact (expired_change_not_accepted Scenario.host0 (L "c") _ _ H1 H2).
Defined.

Lemma includes_nl (code : str) : includes code [nl] = false -> ~ In nl code.
Proof.
  unfold includes. induction code as [|c code IH]; [intros _ []|].
  cbn [indexOf startsWith]. destruct (eqc nl c) eqn:Hc.
  - destruct code; discriminate.
  - cbn [andb]. intros H [Hin|Hin].
    + apply eqc_false in Hc. congruence.
    + apply IH; [|exact Hin]. destruct (indexOf code [nl]); [discriminate H|].
      reflexivity.
Qed.

(** X19. showGhostText never throws and calls nothing that can fail: it
    returns the id it drew and stores the change under it, as an
    insertion (no range) with an empty proposed content; the text of the
    decoration never contains a line feed: it is the code when the code
    has one line, and its first line followed by three dots otherwise. *)
Theorem showGhostText_outcome (h : Host) (editor : TextEditor) (pos : Position)
        (code : str) (w : World) :
  exists w' text,
    showGhostText h editor pos code w = (Ret (randomUUID h (clock w)), w')
    /\ trace w' = trace w ++ [GhostTextShown (uri (document editor)) pos text]
    /\ ~ In nl text
    /\ text = (if includes code [nl]
               then nth 0 (split code) [] ++ L "..." else code)
    /\ pendingChanges w' !! randomUUID h (clock w)
       = Some {| id := randomUUID h (clock w);
                 originalUri := uri (document editor);
                 position := pos; range_ := None; newCode := code;
                 proposedContent := [];
                 createdAt := dateNow h (S (clock w)) |}.
Proof.
  unfold showGhostText. unfold_monad. eexists _, _.
  split; [reflexivity|]. split; [reflexivity|].
  pose proof (splitOn_pieces nl code) as Hpieces.
  pose proof (splitOn_nonempty nl code) as Hne.
  fold (split code) in Hpieces, Hne.
  destruct (split code) as [|l ls] eqn:Hsplit; [congruence|].
  inversion Hpieces as [|? ? Hl _]; subst.
  destruct (includes code [nl]) eqn:Hincl.
  - split; [|split; [reflexivity|apply lookup_insert_eq]].
    intros Hin. apply in_app_or in Hin as [Hin|Hin]; [exact (Hl Hin)|].
    simpl in Hin. repeat destruct Hin as [Hin|Hin]; try discriminate Hin.
    exact Hin.
  - apply includes_nl in Hincl.
    rewrite (split_line _ Hincl) in Hsplit. injection Hsplit as <- <-.
    rewrite app_nil_r.
    split; [exact Hincl|split; [reflexivity|apply lookup_insert_eq]].
Qed.
End PreviewFacts.

(* ================================================================== *)
(** ** What the services do to the outside, on every path *)
(* ================================================================== *)

Module BehaviourFacts.
Import Js Regex Vscode IntentDetector SymbolResolver SmartApplyService
       SidebarProvider Notions Invariants Behaviour JsFacts.
Local Open Scope js_scope.

Section Emits.
Context (P : Event -> Prop).

Lemma emits_ret {A} (a : A) : emits P (ret a).
Proof. intros w. exists []. split; [symmetry; apply app_nil_r|constructor]. Qed.

Lemma emits_throw {A} e : emits P (@throw A e).
Proof. intros w. exists []. split; [symmetry; apply app_nil_r|constructor]. Qed.

Lemma emits_read {A} (state : nat -> A) : emits P (read state).
Proof. intros w. exists []. split; [symmetry; apply app_nil_r|constructor]. Qed.

Lemma emits_call {A} (oracle : nat -> Outcome A) : emits P (call oracle).
Proof. intros w. exists []. split; [symmetry; apply app_nil_r|constructor]. Qed.

Lemma emits_emit e : P e -> emits P (emit e).
Proof.
  intros He w. exists [e]. split; [reflexivity|].
  constructor; [exact He|constructor].
Qed.

Lemma emits_bind {A B} (c : M A) (f : A -> M B) :
  emits P c -> (forall a, emits P (f a)) -> emits P (bind c f).
Proof.
  intros Hc Hf w. unfold bind. destruct (Hc w) as [evs1 [Ht1 Hp1]].
  destruct (c w) as [[a|e] w1]; simpl in Ht1.
  - destruct (Hf a w1) as [evs2 [Ht2 Hp2]]. exists (evs1 ++ evs2).
    split; [rewrite Ht2, Ht1; symmetry; apply app_assoc|].
    apply Forall_app. auto.
  - exists evs1. auto.
Qed.

(** Host state read and then used: the continuation is only ever given
    what the host exposes. *)
Lemma emits_bind_read {A B} (state : nat -> A) (f : A -> M B) :
  (forall n, emits P (f (state n))) -> emits P (bind (read state) f).
Proof. intros Hf w. unfold bind, read. apply Hf. Qed.

Lemma emits_tryCatch {A} (c : M A) (handler : str -> M A) :
  emits P c -> (forall e, emits P (handler e)) -> emits P (tryCatch c handler).
Proof.
  intros Hc Hh w. unfold tryCatch. destruct (Hc w) as [evs1 [Ht1 Hp1]].
  destruct (c w) as [[a|e] w1]; simpl in Ht1.
  - exists evs1. auto.
  - destruct (Hh e w1) as [evs2 [Ht2 Hp2]]. exists (evs1 ++ evs2).
    split; [rewrite Ht2, Ht1; symmetry; apply app_assoc|].
    apply Forall_app. auto.
Qed.

Lemma emits_quiet {A} (c : M A) :
  (forall w, trace (snd (c w)) = trace w) -> emits P c.
Proof.
  intros Hq w. exists []. split; [rewrite Hq; symmetry; apply app_nil_r|].
  constructor.
Qed.
End Emits.

Lemma emits_weaken {A} (P Q : Event -> Prop) (c : M A) :
  (forall e, P e -> Q e) -> emits P c -> emits Q c.
Proof.
  intros Hpq Hc w. destruct (Hc w) as [evs [Ht Hp]]. exists evs.
  split; [exact Ht|]. eapply Forall_impl; eassumption.
Qed.

(** One step through a computation of the services. *)
Ltac emits_step :=
  match goal with
  | |- emits _ (ret _) => apply emits_ret
  | |- emits _ (throw _) => apply emits_throw
  | |- emits _ (read _) => apply emits_read
  | |- emits _ (call _) => apply emits_call
  | |- emits _ (callPure _) => apply emits_call
  | |- emits _ (emit _) => apply emits_emit; simpl; auto
  | |- emits _ (tryCatch _ _) => apply emits_tryCatch; [|intros ?]
  | |- emits _ (bind _ _) => apply emits_bind; [|intros ?]
  | |- emits _ (match ?x with _ => _ end) => destruct x
  | |- emits _ (if ?b then _ else _) => destruct b
  end.

Lemma resolveAnchor_quiet h document anchor cursor w :
  trace (snd (resolveAnchor h document anchor cursor w)) = trace w
  /\ pendingChanges (snd (resolveAnchor h document anchor cursor w))
     = pendingChanges w.
Proof.
  unfold resolveAnchor.
  destruct anchor as [[|c anchor]|]; try (split; reflexivity).
  destruct (if eqs _ _ then _ else _); [split; reflexivity|].
  unfold bind. rewrite SymbolResolverFacts.getDocumentSymbols_returns.
  destruct (symbolStages _ _); [split; reflexivity|].
  destruct (findTextMatch _ _); split; reflexivity.
Qed.

Lemma handleCreate_emits h payload :
  emits fromCreate (handleCreate h payload).
Proof.
  unfold handleCreate, chooseBasePath. repeat emits_step.
Qed.

Lemma handleCommand_emits h payload :
  emits fromCommand (handleCommand h payload).
Proof.
  unfold handleCommand. repeat emits_step.
Qed.

Lemma showPreview_emits h editor pos code range :
  emits fromPreview (DiffPreviewService.showPreview h editor pos code range).
Proof.
  unfold DiffPreviewService.showPreview, DiffPreviewService.lift.
  apply emits_tryCatch; [|intros ?; apply emits_ret].
  apply emits_bind; [apply emits_quiet; reflexivity|intros ?].
  apply emits_bind; [apply emits_call|intros ?].
  apply emits_bind; [apply emits_call|intros ?].
  apply emits_bind; [apply emits_quiet; reflexivity|intros ?].
  apply emits_bind; [apply emits_quiet; reflexivity|intros ?].
  repeat emits_step.
Qed.

Lemma fallbackNotice_emits config payload resolved :
  emits fromPreview (fallbackNotice config payload resolved).
Proof.
  unfold fallbackNotice. repeat emits_step.
Qed.

Lemma edit_emits h editor range pos text :
  emits (fun e => isEdit e = true) (DiffPreviewService.edit h editor range pos text).
Proof.
  unfold DiffPreviewService.edit. repeat emits_step.
Qed.

(** handleEdit on the active editor: notices and a preview, or notices
    and an edit. *)
Lemma editInPlace_emits h editor payload config :
  emits (fun e => fromPreview e
                  \/ (isEdit e = true /\ shouldPreview config payload = false))
        (editInPlace h editor payload config).
Proof.
  unfold editInPlace.
  apply emits_bind;
    [apply emits_quiet; intros w; apply resolveAnchor_quiet|intros resolved].
  apply emits_bind;
    [eapply emits_weaken; [|apply fallbackNotice_emits]; auto|intros _].
  destruct (shouldPreview config payload).
  - apply emits_bind;
      [eapply emits_weaken; [|apply showPreview_emits]; auto|intros r].
    repeat emits_step.
  - apply emits_bind;
      [eapply emits_weaken; [|apply edit_emits]; simpl; auto|intros r].
    repeat emits_step.
Qed.

Lemma handleEdit_emits h payload config :
  emits (fun e => fromCreate e \/ fromPreview e
                  \/ (isEdit e = true /\ shouldPreview config payload = false))
        (handleEdit h payload config).
Proof.
  unfold handleEdit.
  apply emits_bind; [apply emits_read|intros [editor|]].
  - apply emits_bind; [unfold checkTarget; repeat emits_step|intros check].
    destruct check.
    + eapply emits_weaken; [|apply editInPlace_emits]. tauto.
    + eapply emits_weaken; [|apply handleCreate_emits]. tauto.
    + apply emits_ret.
  - eapply emits_weaken; [|apply handleCreate_emits]. tauto.
Qed.

(** Every event of applySingle comes from creating a file, staging a
    command, previewing, or an edit made when the configuration read
    says that this payload is not previewed. *)
Lemma applySingle_emits h payload :
  emits (fun e => fromCreate e \/ fromCommand e \/ fromPreview e
                  \/ (isEdit e = true
                      /\ exists n, shouldPreview (configuration h n) payload
                                   = false))
        (applySingle h payload).
Proof.
  unfold applySingle.
  apply emits_bind_read. intros n.
  apply emits_bind; [apply emits_read|intros activeEditor].
  pose proof (SmartApplyFacts.resolveIntent_keeps_payload_intent
                (configuration h n)
                (option_map (fun e => uri (document e)) activeEditor) payload)
    as Hkeeps.
  destruct (resolveIntent _ _ _) as [intent payload']. simpl in Hkeeps.
  assert (Hedit : emits (fun e => fromCreate e \/ fromCommand e
                                  \/ fromPreview e
                                  \/ (isEdit e = true
                                      /\ exists n,
                                           shouldPreview (configuration h n)
                                                         payload = false))
                        (handleEdit h payload' (configuration h n))).
  { eapply emits_weaken; [|apply handleEdit_emits].
    intros e [H|[H|[H1 H2]]]; auto.
    right. right. right. split; [exact H1|]. exists n.
    unfold shouldPreview in *. rewrite <- Hkeeps. exact H2. }
  destruct intent as [[]|]; try exact Hedit.
  - eapply emits_weaken; [|apply handleCreate_emits]. tauto.
  - eapply emits_weaken; [|apply handleCommand_emits]. tauto.
Qed.

Lemma applyEach_emits (P : Event -> Prop) h payloads n :
  Forall (fun p => emits P (applySingle h p)) payloads ->
  emits P (applyEach h payloads n).
Proof.
  induction 1 as [|p rest Hp Hrest IH]; simpl; [apply emits_ret|].
  apply emits_bind; [exact Hp|intros r].
  destruct (success r); [exact IH|apply emits_ret].
Qed.

Lemma notify_emits result : emits isNotice (notify result).
Proof.
  unfold notify. repeat emits_step.
Qed.

(** The caller: what [apply] emits, and notices. *)
Lemma handleApplyUpdate_emits (P : Event -> Prop) h payload :
  (forall e, isNotice e -> P e) ->
  emits P (apply h payload) ->
  emits P (handleApplyUpdate h payload).
Proof.
  intros Hnotice Happly. unfold handleApplyUpdate.
  apply emits_tryCatch.
  - apply emits_bind; [exact Happly|intros r].
    apply emits_bind;
      [eapply emits_weaken; [exact Hnotice|apply notify_emits]|intros _].
    apply emits_ret.
  - intros e. apply emits_bind; [apply emits_emit; apply Hnotice; exact I|].
    intros _. apply emits_ret.
Qed.

Lemma apply_emits (P : Event -> Prop) h payload :
  (forall p, emits P (applySingle h p)) -> emits P (apply h payload).
Proof.
  intros Hsingle. destruct payload as [single|payloads]; simpl.
  - apply Hsingle.
  - apply applyEach_emits. apply Forall_forall. intros p _. apply Hsingle.
Qed.

(** X20. Nothing the extension does when code is applied executes a
    command: on every path of _handleApplyUpdate, for a single unit or a
    batch and whatever the host answers, text sent to a terminal is sent
    with execute false (it is staged for the user to run), and the trace
    is only extended. *)
Theorem apply_never_executes (h : Host)
        (payload : ApplyPayload + list ApplyPayload) :
  emits notExecuted (handleApplyUpdate h payload).
Proof.
  apply handleApplyUpdate_emits;
    [intros [] H; simpl in *; solve [exact I|reflexivity|contradiction]|].
  apply apply_emits. intros p.
  eapply emits_weaken; [|apply applySingle_emits].
  intros [] H; simpl in *; try exact I.
  destruct H as [[]|[H|[[]|[H _]]]]; [exact H|discriminate H].
Qed.

(** X21. When the preview mode read from the configuration is "always"
    at every moment, applying code never edits a document: on every path
    of _handleApplyUpdate, for a single unit or a batch, no edit reaches
    an editor (edits are only ever proposed). *)
Theorem always_preview_never_edits (h : Host)
        (payload : ApplyPayload + list ApplyPayload) :
  (forall n, previewMode (configuration h n) = always) ->
  emits noEdit (handleApplyUpdate h payload).
Proof.
  intros Halways.
  apply handleApplyUpdate_emits;
    [intros [] H; simpl in *; solve [exact I|reflexivity|contradiction]|].
  apply apply_emits. intros p.
  eapply emits_weaken; [|apply applySingle_emits].
  intros e H. unfold noEdit.
  destruct H as [H|[H|[H|[_ [n H]]]]].
  - destruct e; simpl in *; tauto.
  - destruct e; simpl in *; tauto.
  - destruct e; simpl in *; tauto.
  - unfold shouldPreview in H. rewrite Halways in H. discriminate H.
Qed.

Lemma always_preview_never_edits_witness :
  (forall n, previewMode
               (configuration (Hosts.withConfiguration Hosts.alwaysPreview) n)
             = always)
  /\ emits noEdit
       (handleApplyUpdate (Hosts.withConfiguration Hosts.alwaysPreview)
          (inl (Scenario.payload None (L "x = 1")))).
Proof.
  assert (H : forall n,
             previewMode
               (configuration (Hosts.withConfiguration Hosts.alwaysPreview) n)
             = always) by (intros n; reflexivity).
  split; [exact H|].
  exact (always_preview_never_edits
           (Hosts.withConfiguration Hosts.alwaysPreview)
           (inl (Scenario.payload None (L "x = 1"))) H).
Defined.

(** X22. The legacy "applyCode" message is applied as an explicit edit:
    unless the preview mode is "never", it never edits a document
    directly, whatever intent the classifier detects for the code. *)
Theorem legacy_apply_is_previewed (h : Host) (code : str)
        (language : option str) :
  (forall n, previewMode (configuration h n) <> never) ->
  emits noEdit (handleApplyUpdate h (inl (legacyPayload code language))).
Proof.
  intros Hmode.
  apply handleApplyUpdate_emits;
    [intros [] H; simpl in *; solve [exact I|reflexivity|contradiction]|].
  simpl. eapply emits_weaken; [|apply applySingle_emits].
  intros e H. unfold noEdit.
  destruct H as [H|[H|[H|[_ [n H]]]]].
  - destruct e; simpl in *; tauto.
  - destruct e; simpl in *; tauto.
  - destruct e; simpl in *; tauto.
  - specialize (Hmode n). unfold shouldPreview, legacyPayload in H.
    simpl in H. destruct (previewMode (configuration h n));
      try discriminate H. congruence.
Qed.

Lemma legacy_apply_is_previewed_witness :
  (forall n, previewMode (configuration Scenario.host0 n) <> never)
  /\ emits noEdit
       (handleApplyUpdate Scenario.host0
          (inl (legacyPayload (L "x = 1") None))).
Proof.
  assert (H : forall n, previewMode (configuration Scenario.host0 n) <> never)
    by (intros n; discriminate).
  split; [exact H|].
  exact (legacy_apply_is_previewed Scenario.host0 (L "x = 1") None H).
Defined.

(** The legacy message with the code [x = 1], in [app.ts]: the
    classifier is not adopted (a default edit at 0.4), the unit reaches
    the preview decision of handleEdit, and the preview mode decides.
    Under "edits_only" a preview is opened, the change is pending and
    nothing is edited; under "never" the same message edits the
    document at the cursor. *)
Lemma legacy_edit_reaches_preview_decision :
  confidence (detect (L "x = 1") (L "plaintext")
                     (Some (uri Scenario.appTs))) = (4 # 10)%Q
  /\ fst (handleApplyUpdate Scenario.host0
            (inl (legacyPayload (L "x = 1") None)) Scenario.world0)
     = Ret {| success := true; action := preview_shown; message := None;
              changeId := Some (L "change-0") |}
  /\ documentEdits
       (snd (handleApplyUpdate Scenario.host0
               (inl (legacyPayload (L "x = 1") None)) Scenario.world0))
     = []
  /\ documentEdits
       (snd (handleApplyUpdate (Hosts.withConfiguration Hosts.neverPreview)
               (inl (legacyPayload (L "x = 1") None)) Scenario.world0))
     = [EditApplied (uri Scenario.appTs) None (Scenario.at_ 0 3) (L "x = 1")].
Proof. repeat split; vm_compute; reflexivity. Qed.
End BehaviourFacts.

(* ================================================================== *)
(** ** The results of apply *)
(* ================================================================== *)

Module ResultFacts.
Import Js Regex Vscode IntentDetector SymbolResolver SmartApplyService
       SidebarProvider Notions Invariants Behaviour JsFacts.
Local Open Scope js_scope.

Section Returns.
Context {A : Type} (Q : A -> Prop).

Lemma returns_ret (a : A) : Q a -> returns Q (ret a).
Proof. intros Ha w a' w' [= <- <-]. exact Ha. Qed.

Lemma returns_throw e : returns Q (throw e).
Proof. intros w a w' H. discriminate H. Qed.

Lemma returns_bind {B} (c : M B) (f : B -> M A) :
  (forall b, returns Q (f b)) -> returns Q (bind c f).
Proof.
  intros Hf w a w'. unfold bind. destruct (c w) as [[b|e] w1].
  - apply Hf.
  - discriminate.
Qed.

Lemma returns_tryCatch (c : M A) (handler : str -> M A) :
  returns Q c -> (forall e, returns Q (handler e)) ->
  returns Q (tryCatch c handler).
Proof.
  intros Hc Hh w a w'. unfold tryCatch.
  destruct (c w) as [[b|e] w1] eqn:Hrun.
  - intros [= <- <-]. eapply Hc. exact Hrun.
  - apply Hh.
Qed.
End Returns.

Ltac returns_step :=
  match goal with
  | |- returns _ (ret _) => apply returns_ret
  | |- returns _ (throw _) => apply returns_throw
  | |- returns _ (tryCatch _ _) => apply returns_tryCatch; [|intros ?]
  | |- returns _ (bind _ _) => apply returns_bind; intros ?
  | |- returns _ (match ?x with _ => _ end) => destruct x
  | |- returns _ (if ?b then _ else _) => destruct b
  end.

Ltac result_leaf :=
  simpl; repeat split; auto; try discriminate; try (intros; discriminate).

Lemma handleCreate_result h payload :
  returns (fun r => wellFormed r /\ (action r = created \/ action r = cancelled))
          (handleCreate h payload).
Proof.
  unfold handleCreate, wellFormed.
  repeat returns_step; result_leaf.
Qed.

Lemma handleCommand_result h payload :
  returns (fun r => wellFormed r /\ action r = sent_to_terminal)
          (handleCommand h payload).
Proof.
  unfold handleCommand, wellFormed.
  repeat returns_step; result_leaf.
Qed.

Lemma editInPlace_result h editor payload config :
  returns (fun r => wellFormed r /\ action r <> cancelled
                    /\ (action r = preview_shown
                        -> shouldPreview config payload = true))
          (editInPlace h editor payload config).
Proof.
  unfold editInPlace, wellFormed.
  apply returns_bind. intros resolved. apply returns_bind. intros _.
  destruct (shouldPreview config payload).
  - repeat returns_step; result_leaf.
  - apply returns_bind. intros [|]; apply returns_ret; result_leaf.
Qed.

Lemma returns_bind_read {A B} (Q : B -> Prop) (state : nat -> A) (f : A -> M B) :
  (forall n, returns Q (f (state n))) -> returns Q (bind (read state) f).
Proof. intros Hf w. unfold bind, read. apply Hf. Qed.

Lemma returns_weaken {A} (P Q : A -> Prop) (c : M A) :
  (forall a, P a -> Q a) -> returns P c -> returns Q c.
Proof. intros Hpq Hc w a w' Hrun. apply Hpq. eapply Hc. exact Hrun. Qed.

Lemma handleEdit_result h payload config :
  returns (fun r => wellFormed r
                    /\ (action r = preview_shown
                        -> shouldPreview config payload = true))
          (handleEdit h payload config).
Proof.
  unfold handleEdit. apply returns_bind. intros [editor|].
  - apply returns_bind. intros [| |].
    + eapply returns_weaken; [|apply editInPlace_result].
      intros r [Hwf [_ Hp]]. split; assumption.
    + eapply returns_weaken; [|apply handleCreate_result].
      intros r [Hwf [Ha|Ha]]; (split; [exact Hwf|]); rewrite Ha; discriminate.
    + apply returns_ret. unfold wellFormed. result_leaf.
  - eapply returns_weaken; [|apply handleCreate_result].
    intros r [Hwf [Ha|Ha]]; (split; [exact Hwf|]); rewrite Ha; discriminate.
Qed.

(** A result of applySingle is well formed, and it is a preview only
    when the configuration read says that this payload is previewed. *)
Lemma applySingle_result h payload :
  returns (fun r => wellFormed r
                    /\ (action r = preview_shown
                        -> exists n, shouldPreview (configuration h n) payload
                                     = true))
          (applySingle h payload).
Proof.
  unfold applySingle. apply returns_bind_read. intros n.
  apply returns_bind. intros activeEditor.
  pose proof (SmartApplyFacts.resolveIntent_keeps_payload_intent
                (configuration h n)
                (option_map (fun e => uri (document e)) activeEditor) payload)
    as Hkeeps.
  destruct (resolveIntent _ _ _) as [intent payload']. simpl in Hkeeps.
  assert (Hedit : returns
                    (fun r => wellFormed r
                              /\ (action r = preview_shown
                                  -> exists n,
                                       shouldPreview (configuration h n)
                                                     payload = true))
                    (handleEdit h payload' (configuration h n))).
  { eapply returns_weaken; [|apply handleEdit_result].
    intros r [Hwf Hp]. split; [exact Hwf|]. intros Ha. exists n.
    specialize (Hp Ha). unfold shouldPreview in *. rewrite <- Hkeeps.
    exact Hp. }
  destruct intent as [[]|]; try exact Hedit.
  - eapply returns_weaken; [|apply handleCreate_result].
    intros r [Hwf [Ha|Ha]]; (split; [exact Hwf|]); rewrite Ha; discriminate.
  - eapply returns_weaken; [|apply handleCommand_result].
    intros r [Hwf Ha]; (split; [exact Hwf|]); rewrite Ha; discriminate.
Qed.

(** The loop of apply returns its own summary or the result of a unit
    that did not succeed. *)
Lemma applyEach_result h payloads n :
  returns (fun r => wellFormed r /\ action r <> preview_shown
                    /\ changeId r = None)
          (applyEach h payloads n).
Proof.
  induction payloads as [|p rest IH]; simpl.
  - apply returns_ret. unfold wellFormed. result_leaf.
  - intros w r w'. unfold bind.
    destruct (applySingle h p w) as [[r1|e] w1] eqn:Hrun; [|discriminate].
    destruct (success r1) eqn:Hsuccess; [apply IH|].
    intros [= <- <-].
    destruct (applySingle_result h p w r1 w1 Hrun) as [[Hs Hid] _].
    split; [split; assumption|].
    rewrite Hsuccess in Hs.
    destruct (action r1); try discriminate Hs;
      (split; [discriminate|]); destruct Hid as [Hid|Hid];
      solve [exact Hid|discriminate Hid].
Qed.

Lemma apply_result h payload :
  returns wellFormed (apply h payload).
Proof.
  destruct payload as [single|payloads]; simpl.
  - eapply returns_weaken; [|apply applySingle_result].
    intros r [Hwf _]. exact Hwf.
  - eapply returns_weaken; [|apply applyEach_result].
    intros r [Hwf _]. exact Hwf.
Qed.

(** X23. _handleApplyUpdate never throws: for every payload and every
    host it posts a result, and the result is well formed: success is
    true exactly for the actions created, edited, sent_to_terminal and
    preview_shown, and a change id is present only with preview_shown.
    What apply throws is posted as an error result. *)
Theorem handleApplyUpdate_result (h : Host)
        (payload : ApplyPayload + list ApplyPayload) (w : World) :
  exists r w',
    handleApplyUpdate h payload w = (Ret r, w')
    /\ wellFormed r
    /\ match apply h payload w with
       | (Ret applied, _) => r = applied
       | (Throw e, _) =>
           r = {| success := false; action := error; message := Some e;
                  changeId := None |}
       end.
Proof.
  unfold handleApplyUpdate, tryCatch, bind.
  destruct (apply h payload w) as [[applied|e] w1] eqn:Hrun.
  - assert (Hnotify : exists w2, notify applied w1 = (Ret tt, w2)).
    { unfold notify.
      destruct (success applied), (action applied);
        unfold emit, ret; eauto. }
    destruct Hnotify as [w2 ->]. unfold ret.
    eexists _, _. split; [reflexivity|]. split; [|reflexivity].
    exact (apply_result h payload w applied w1 Hrun).
  - unfold emit, ret. eexists _, _. split; [reflexivity|].
    split; [|reflexivity]. unfold wellFormed. simpl. auto.
Qed.

(** X24. apply on an array never reports a preview: its result is its
    own summary or the result of the first unit that did not succeed,
    so it never has the action preview_shown and never carries a change
    id, also when units of the array opened previews. *)
Theorem batch_reports_no_preview (h : Host) (payloads : list ApplyPayload) :
  returns (fun r => action r <> preview_shown /\ changeId r = None)
          (apply h (inr payloads)).
Proof.
  simpl. eapply returns_weaken; [|apply applyEach_result].
  intros r [_ H]. exact H.
Qed.
End ResultFacts.

(* ================================================================== *)
(** ** Cancelling, and the pending changes of apply *)
(* ================================================================== *)

Module CancelFacts.
Import Js Regex Vscode IntentDetector SymbolResolver SmartApplyService
       SidebarProvider Notions Invariants Behaviour JsFacts ResultFacts.
Local Open Scope js_scope.

Lemma quiet_ret {A} (a : A) : quiet (ret a).
Proof. intros w. split; reflexivity. Qed.

Lemma quiet_read {A} (state : nat -> A) : quiet (read state).
Proof. intros w. split; reflexivity. Qed.

Lemma quiet_call {A} (oracle : nat -> Outcome A) : quiet (call oracle).
Proof. intros w. split; reflexivity. Qed.

Lemma quiet_bind {A B} (c : M A) (f : A -> M B) :
  quiet c -> (forall a, quiet (f a)) -> quiet (bind c f).
Proof.
  intros Hc Hf w. unfold bind. destruct (Hc w) as [Ht Hp].
  destruct (c w) as [[a|e] w1]; simpl in *.
  - destruct (Hf a w1) as [Ht' Hp']. split; congruence.
  - split; assumption.
Qed.

Lemma quiet_tryCatch {A} (c : M A) (handler : str -> M A) :
  quiet c -> (forall e, quiet (handler e)) -> quiet (tryCatch c handler).
Proof.
  intros Hc Hh w. unfold tryCatch. destruct (Hc w) as [Ht Hp].
  destruct (c w) as [[a|e] w1]; simpl in *.
  - split; assumption.
  - destruct (Hh e w1) as [Ht' Hp']. split; congruence.
Qed.

Ltac quiet_step :=
  match goal with
  | |- quiet (ret _) => apply quiet_ret
  | |- quiet (read _) => apply quiet_read
  | |- quiet (call _) => apply quiet_call
  | |- quiet (callPure _) => apply quiet_call
  | |- quiet (tryCatch _ _) => apply quiet_tryCatch; [|intros ?]
  | |- quiet (bind _ _) => apply quiet_bind; [|intros ?]
  | |- quiet (match ?x with _ => _ end) => destruct x
  | |- quiet (if ?b then _ else _) => destruct b
  end.

Section Silent.
Context {A : Type} (Q : A -> Prop).

Lemma silent_ret (a : A) : silentWhen Q (ret a).
Proof. intros w a' w' [= <- <-] _. split; reflexivity. Qed.

Lemma silent_never (c : M A) : returns (fun a => ~ Q a) c -> silentWhen Q c.
Proof. intros Hc w a w' Hrun Hq. destruct (Hc w a w' Hrun Hq). Qed.

Lemma silent_bind {B} (c : M B) (f : B -> M A) :
  quiet c -> (forall b, silentWhen Q (f b)) -> silentWhen Q (bind c f).
Proof.
  intros Hc Hf w a w'. unfold bind. destruct (Hc w) as [Ht Hp].
  destruct (c w) as [[b|e] w1]; simpl in *; [|discriminate].
  intros Hrun Hq. destruct (Hf b w1 a w' Hrun Hq). split; congruence.
Qed.
End Silent.

Lemma chooseBasePath_quiet h config workspaceRoot :
  quiet (chooseBasePath h config workspaceRoot).
Proof.
  unfold chooseBasePath. repeat quiet_step.
Qed.

Lemma handleCreate_silent h payload :
  silentWhen (fun r => action r = cancelled) (handleCreate h payload).
Proof.
  unfold handleCreate.
  apply silent_bind; [apply quiet_read|intros config].
  apply silent_bind; [apply quiet_read|intros folders].
  assert (Huntitled :
            silentWhen (fun r => action r = cancelled)
              (call (openTextDocument h) ;;
               call (showTextDocument h) ;;
               emit (UntitledShown (cleanCodeForFile (code payload))
                       (normalizeLanguage (language payload))) ;;
               ret (createdResult (L "Created new file")))).
  { apply silent_never. repeat returns_step. discriminate. }
  destruct (ptarget payload) as [[|c target]|]; try exact Huntitled.
  destruct folders as [[|workspaceRoot rest]|]; try exact Huntitled.
  - apply silent_never. apply returns_throw.
  - apply silent_bind; [apply chooseBasePath_quiet|intros [basePath|]];
      [|apply silent_ret].
    apply silent_bind; [repeat quiet_step|intros [|]]; [apply silent_ret|].
    apply silent_never. repeat returns_step. discriminate.
Qed.

Lemma handleEdit_silent h payload config :
  silentWhen (fun r => action r = cancelled) (handleEdit h payload config).
Proof.
  unfold handleEdit.
  apply silent_bind; [apply quiet_read|intros [editor|]];
    [|apply handleCreate_silent].
  apply silent_bind; [unfold checkTarget; repeat quiet_step|intros [| |]].
  - apply silent_never. eapply returns_weaken; [|apply editInPlace_result].
    intros r [_ [H _]]. exact H.
  - apply handleCreate_silent.
  - apply silent_ret.
Qed.

Lemma applySingle_silent h payload :
  silentWhen (fun r => action r = cancelled) (applySingle h payload).
Proof.
  unfold applySingle.
  apply silent_bind; [apply quiet_read|intros config].
  apply silent_bind; [apply quiet_read|intros activeEditor].
  destruct (resolveIntent _ _ _) as [[[]|] payload'].
  - apply handleCreate_silent.
  - apply handleEdit_silent.
  - apply silent_never. eapply returns_weaken; [|apply handleCommand_result].
    intros r [_ Ha]. rewrite Ha. discriminate.
  - apply handleEdit_silent.
Qed.

(** X25. A cancelled unit leaves no trace: when _handleApplyUpdate posts
    a result with the action cancelled for a single payload, nothing was
    shown, written, sent or edited and the pending changes are as
    before; the user was only asked. *)
Theorem cancelled_is_silent (h : Host) (payload : ApplyPayload) (w w' : World)
        (r : ApplyResult) :
  handleApplyUpdate h (inl payload) w = (Ret r, w') ->
  action r = cancelled ->
  trace w' = trace w /\ pendingChanges w' = pendingChanges w.
Proof.
  unfold handleApplyUpdate, tryCatch, bind. simpl apply.
  destruct (applySingle h payload w) as [[r1|e] w1] eqn:Hrun.
  - destruct (notify r1 w1) as [[[]|e] w2] eqn:Hnotify.
    + intros [= <- <-] Hcancelled.
      destruct (applySingle_silent h payload w r1 w1 Hrun Hcancelled)
        as [Ht Hp].
      unfold notify in Hnotify. rewrite Hcancelled in Hnotify.
      destruct (success r1); injection Hnotify as <-; split; assumption.
    + unfold emit, ret. intros [= <- <-]. discriminate.
  - unfold emit, ret. intros [= <- <-]. discriminate.
Qed.

Lemma cancelled_is_silent_witness :
  handleApplyUpdate Scenario.host0 (inl Scenario.unitB) Scenario.world0
  = (Ret cancelledResult,
     snd (handleApplyUpdate Scenario.host0 (inl Scenario.unitB)
                            Scenario.world0))
  /\ action cancelledResult = cancelled
  /\ trace (snd (handleApplyUpdate Scenario.host0 (inl Scenario.unitB)
                                   Scenario.world0))
     = trace Scenario.world0
  /\ pendingChanges (snd (handleApplyUpdate Scenario.host0
                            (inl Scenario.unitB) Scenario.world0))
     = pendingChanges Scenario.world0.
Proof.
  assert (H1 : handleApplyUpdate Scenario.host0 (inl Scenario.unitB)
                                 Scenario.world0
               = (Ret cancelledResult,
                  snd (handleApplyUpdate Scenario.host0 (inl Scenario.unitB)
                                         Scenario.world0)))
    by (vm_compute; reflexivity).
  assert (H2 : action cancelledResult = cancelled) by reflexivity.
  split; [exact H1|]. split; [exact H2|].
  exact (cancelled_is_silent Scenario.host0 Scenario.unitB Scenario.world0 _ _
           H1 H2).
Defined.
End CancelFacts.

(* ================================================================== *)
(** ** Without previews; writing files *)
(* ================================================================== *)

Module PendingFacts.
Import Js Regex Vscode IntentDetector SymbolResolver SmartApplyService
       SidebarProvider Notions Invariants Behaviour JsFacts ResultFacts.
Local Open Scope js_scope.

Lemma keeps_ret {A} (a : A) : keepsPending (ret a).
Proof. intros w. reflexivity. Qed.

Lemma keeps_throw {A} e : keepsPending (@throw A e).
Proof. intros w. reflexivity. Qed.

Lemma keeps_read {A} (state : nat -> A) : keepsPending (read state).
Proof. intros w. reflexivity. Qed.

Lemma keeps_call {A} (oracle : nat -> Outcome A) : keepsPending (call oracle).
Proof. intros w. reflexivity. Qed.

Lemma keeps_emit e : keepsPending (emit e).
Proof. intros w. reflexivity. Qed.

Lemma keeps_bind {A B} (c : M A) (f : A -> M B) :
  keepsPending c -> (forall a, keepsPending (f a)) -> keepsPending (bind c f).
Proof.
  intros Hc Hf w. unfold bind. specialize (Hc w).
  destruct (c w) as [[a|e] w1]; simpl in *.
  - rewrite Hf. exact Hc.
  - exact Hc.
Qed.

Lemma keeps_bind_read {A B} (state : nat -> A) (f : A -> M B) :
  (forall n, keepsPending (f (state n))) -> keepsPending (bind (read state) f).
Proof. intros Hf w. unfold bind, read. apply Hf. Qed.

Lemma keeps_tryCatch {A} (c : M A) (handler : str -> M A) :
  keepsPending c -> (forall e, keepsPending (handler e)) ->
  keepsPending (tryCatch c handler).
Proof.
  intros Hc Hh w. unfold tryCatch. specialize (Hc w).
  destruct (c w) as [[a|e] w1]; simpl in *.
  - exact Hc.
  - rewrite Hh. exact Hc.
Qed.

Ltac keeps_step :=
  match goal with
  | |- keepsPending (ret _) => apply keeps_ret
  | |- keepsPending (throw _) => apply keeps_throw
  | |- keepsPending (read _) => apply keeps_read
  | |- keepsPending (call _) => apply keeps_call
  | |- keepsPending (callPure _) => apply keeps_call
  | |- keepsPending (emit _) => apply keeps_emit
  | |- keepsPending (tryCatch _ _) => apply keeps_tryCatch; [|intros ?]
  | |- keepsPending (bind _ _) => apply keeps_bind; [|intros ?]
  | |- keepsPending (match ?x with _ => _ end) => destruct x
  | |- keepsPending (if ?b then _ else _) => destruct b
  end.

Lemma handleCreate_keeps h payload : keepsPending (handleCreate h payload).
Proof. unfold handleCreate, chooseBasePath. repeat keeps_step. Qed.

Lemma handleCommand_keeps h payload : keepsPending (handleCommand h payload).
Proof. unfold handleCommand. repeat keeps_step. Qed.

Lemma editInPlace_keeps h editor payload config :
  shouldPreview config payload = false ->
  keepsPending (editInPlace h editor payload config).
Proof.
  intros Hdirect. unfold editInPlace. rewrite Hdirect.
  apply keeps_bind;
    [intros w; apply BehaviourFacts.resolveAnchor_quiet|intros resolved].
  apply keeps_bind; [unfold fallbackNotice; repeat keeps_step|intros _].
  unfold DiffPreviewService.edit. repeat keeps_step.
Qed.

Lemma handleEdit_keeps h payload config :
  shouldPreview config payload = false ->
  keepsPending (handleEdit h payload config).
Proof.
  intros Hdirect. unfold handleEdit.
  apply keeps_bind; [apply keeps_read|intros [editor|]];
    [|apply handleCreate_keeps].
  apply keeps_bind; [unfold checkTarget; repeat keeps_step|intros [| |]].
  - apply editInPlace_keeps. exact Hdirect.
  - apply handleCreate_keeps.
  - apply keeps_ret.
Qed.

Lemma applySingle_keeps h payload :
  (forall n, shouldPreview (configuration h n) payload = false) ->
  keepsPending (applySingle h payload).
Proof.
  intros Hdirect. unfold applySingle.
  apply keeps_bind_read. intros n.
  apply keeps_bind; [apply keeps_read|intros activeEditor].
  pose proof (SmartApplyFacts.resolveIntent_keeps_payload_intent
                (configuration h n)
                (option_map (fun e => uri (document e)) activeEditor) payload)
    as Hkeeps.
  destruct (resolveIntent _ _ _) as [intent payload']. simpl in Hkeeps.
  assert (Hedit : keepsPending (handleEdit h payload' (configuration h n))).
  { apply handleEdit_keeps. specialize (Hdirect n).
    unfold shouldPreview in *. rewrite Hkeeps. exact Hdirect. }
  destruct intent as [[]|]; try exact Hedit.
  - apply handleCreate_keeps.
  - apply handleCommand_keeps.
Qed.

Lemma applyEach_keeps h payloads n :
  (forall p, keepsPending (applySingle h p)) ->
  keepsPending (applyEach h payloads n).
Proof.
  intros Hsingle. induction payloads as [|p rest IH]; simpl;
    [apply keeps_ret|].
  apply keeps_bind; [apply Hsingle|intros r].
  destruct (success r); [exact IH|apply keeps_ret].
Qed.

(** X26. When the preview mode read from the configuration is "never" at
    every moment, applying code never creates a pending change and never
    reports a preview: on every path of _handleApplyUpdate, for a single
    unit or a batch, the pending changes are left as they were. *)
Theorem never_preview_keeps_pending (h : Host)
        (payload : ApplyPayload + list ApplyPayload) :
  (forall n, previewMode (configuration h n) = never) ->
  keepsPending (handleApplyUpdate h payload)
  /\ returns (fun r => action r <> preview_shown) (handleApplyUpdate h payload).
Proof.
  intros Hnever.
  assert (Hdirect : forall p n, shouldPreview (configuration h n) p = false).
  { intros p n. unfold shouldPreview. rewrite Hnever. reflexivity. }
  split.
  - unfold handleApplyUpdate. apply keeps_tryCatch; [|intros e; repeat keeps_step].
    apply keeps_bind; [|intros r; unfold notify; repeat keeps_step].
    destruct payload as [single|payloads]; simpl.
    + apply applySingle_keeps. intros n. apply Hdirect.
    + apply applyEach_keeps. intros p. apply applySingle_keeps.
      intros n. apply Hdirect.
  - unfold handleApplyUpdate. apply returns_tryCatch.
    + intros w r w'. unfold bind.
      destruct (apply h payload w) as [[r1|e] w1] eqn:Hrun; [|discriminate].
      destruct (notify r1 w1) as [[[]|e] w2]; [|discriminate].
      intros [= <- <-]. destruct payload as [single|payloads]; simpl in Hrun.
      * destruct (applySingle_result h single w r1 w1 Hrun) as [_ Hp].
        intros Ha. destruct (Hp Ha) as [n Hn].
        rewrite Hdirect in Hn. discriminate Hn.
      * destruct (applyEach_result h payloads _ w r1 w1 Hrun) as [_ [Ha _]].
        exact Ha.
    + intros e. repeat returns_step. discriminate.
Qed.

Lemma never_preview_keeps_pending_witness :
  (forall n, previewMode
               (configuration (Hosts.withConfiguration Hosts.neverPreview) n)
             = never)
  /\ keepsPending
       (handleApplyUpdate (Hosts.withConfiguration Hosts.neverPreview)
          (inl (Scenario.payload (Some Edit) Scenario.importLine)))
  /\ returns (fun r => action r <> preview_shown)
       (handleApplyUpdate (Hosts.withConfiguration Hosts.neverPreview)
          (inl (Scenario.payload (Some Edit) Scenario.importLine))).
Proof.
  assert (H : forall n,
             previewMode
               (configuration (Hosts.withConfiguration Hosts.neverPreview) n)
             = never) by (intros n; reflexivity).
  split; [exact H|].
  exact (never_preview_keeps_pending
           (Hosts.withConfiguration Hosts.neverPreview)
           (inl (Scenario.payload (Some Edit) Scenario.importLine)) H).
Defined.
End PendingFacts.

(* ================================================================== *)
(** ** handleCreate: when a file is written *)
(* ================================================================== *)

Module CreateFacts.
Import Js Regex Vscode IntentDetector SymbolResolver SmartApplyService
       SidebarProvider Notions Invariants Behaviour JsFacts PendingChangeFacts.
Local Open Scope js_scope.





End CreateFacts.

(* ================================================================== *)
(** ** What is cleaned, and what the classifier may override *)
(* ================================================================== *)

Module CleanFacts.
Import Js Regex Vscode IntentDetector SmartApplyService Notions Invariants
       JsFacts.

(** trimStart removes white space from the start, and nothing else. *)
Lemma trimStart_parts s :
  exists blank,
    s = blank ++ trimStart s /\ Forall (fun c => isSpace c = true) blank.
Proof.
  induction s as [|c s [blank [Hs Hblank]]]; simpl.
  - exists []. split; [reflexivity|constructor].
  - destruct (isSpace c) eqn:Hc.
    + exists (c :: blank). split; [simpl; congruence|].
      constructor; assumption.
    + exists []. split; [reflexivity|constructor].
Qed.

Lemma trimStart_head s c r : trimStart s = c :: r -> isSpace c = false.
Proof.
  induction s as [|x s IH]; simpl; [discriminate|].
  destruct (isSpace x) eqn:Hx; [exact IH|].
  intros [= <- _]. exact Hx.
Qed.

Lemma trimStart_idem s : trimStart (trimStart s) = trimStart s.
Proof.
  destruct (trimStart s) as [|c r] eqn:Hs; [reflexivity|].
  simpl. rewrite (trimStart_head _ _ _ Hs). reflexivity.
Qed.

Lemma trimEnd_parts s :
  exists blank,
    s = trimEnd s ++ blank /\ Forall (fun c => isSpace c = true) blank.
Proof.
  unfold trimEnd. destruct (trimStart_parts (rev s)) as [blank [Hs Hblank]].
  exists (rev blank). split.
  - rewrite <- rev_app_distr, <- Hs, rev_involutive. reflexivity.
  - apply List.Forall_rev. exact Hblank.
Qed.

(** trim removes white space from the two ends, and nothing else. *)
Lemma trim_parts s :
  exists before after,
    s = before ++ trim s ++ after
    /\ Forall (fun c => isSpace c = true) before
    /\ Forall (fun c => isSpace c = true) after.
Proof.
  unfold trim. destruct (trimStart_parts s) as [before [Hs Hbefore]].
  destruct (trimEnd_parts (trimStart s)) as [after [Ht Hafter]].
  exists before, after. split; [|split; assumption].
  rewrite <- Ht. exact Hs.
Qed.

Lemma trimEnd_last s init c :
  trimEnd s = init ++ [c] -> isSpace c = false.
Proof.
  unfold trimEnd. intros H. apply (f_equal (@rev ascii)) in H.
  rewrite rev_involutive, rev_app_distr in H. simpl in H.
  exact (trimStart_head _ _ _ H).
Qed.

Lemma trimStart_trim s : trimStart (trim s) = trim s.
Proof.
  unfold trim. destruct (trimEnd_parts (trimStart s)) as [blank [Ht _]].
  destruct (trimEnd (trimStart s)) as [|c r] eqn:He; [reflexivity|].
  simpl in Ht. apply trimStart_head in Ht. simpl. rewrite Ht. reflexivity.
Qed.

Lemma trimEnd_trim s : trimEnd (trim s) = trim s.
Proof.
  unfold trim, trimEnd. rewrite rev_involutive, trimStart_idem. reflexivity.
Qed.

Lemma trim_idem s : trim (trim s) = trim s.
Proof.
  unfold trim at 1. rewrite trimStart_trim. apply trimEnd_trim.
Qed.

(** X28. The command handleCommand stages is the code without its ends,
    and with one prompt at most removed. Either the code is white space,
    the command, white space, and the command does not start with a
    prompt character ($, > or %); or the code is white space, one prompt
    character, white space, the command, white space. What lies inside
    the command, line feeds and further prompt characters included, is
    sent as it is, and the command neither starts nor ends with white
    space. *)
Theorem cleanCommand_keeps_inside (code : str) :
  exists blank1 blank2 after,
    Forall (fun c => isSpace c = true) blank1
    /\ Forall (fun c => isSpace c = true) blank2
    /\ Forall (fun c => isSpace c = true) after
    /\ trimStart (cleanCommand code) = cleanCommand code
    /\ trimEnd (cleanCommand code) = cleanCommand code
    /\ ((code = blank1 ++ cleanCommand code ++ after
         /\ match cleanCommand code with
            | c :: _ => ~ In c (L "$>%")
            | [] => True
            end)
        \/ (exists c,
               In c (L "$>%")
               /\ code = blank1 ++ c :: blank2 ++ cleanCommand code ++ after)).
Proof.
  unfold cleanCommand.
  destruct (trim_parts code) as [b1 [a1 [Hcode [Hb1 Ha1]]]].
  destruct (trim code) as [|c rest] eqn:Htrim.
  - exists b1, [], a1. repeat split; auto. left. split; [exact Hcode|exact I].
  - destruct (existsb (eqc c) (L "$>%")) eqn:Hprompt.
    + apply existsb_exists in Hprompt as [x [Hx Hc]].
      apply eqc_true in Hc. subst x.
      destruct (trimStart_parts rest) as [b3 [Hrest Hb3]].
      destruct (trim_parts (trimStart rest)) as [b4 [a4 [Hu [Hb4 Ha4]]]].
      exists b1, (b3 ++ b4), (a4 ++ a1).
      split; [exact Hb1|]. split; [apply Forall_app; split; assumption|].
      split; [apply Forall_app; split; assumption|].
      split; [apply trimStart_trim|]. split; [apply trimEnd_trim|].
      right. exists c. split; [exact Hx|].
      rewrite Hcode. rewrite Hrest at 1. rewrite Hu at 1.
      rewrite <- !app_assoc. simpl. rewrite <- !app_assoc. reflexivity.
    + rewrite <- Htrim, trim_idem, Htrim.
      exists b1, [], a1.
      split; [exact Hb1|]. split; [constructor|]. split; [exact Ha1|].
      split; [rewrite <- Htrim; apply trimStart_trim|].
      split; [rewrite <- Htrim; apply trimEnd_trim|].
      left. split; [exact Hcode|].
      intros Hin.
      assert (Hex : existsb (eqc c) (L "$>%") = true).
      { apply existsb_exists. exists c. split; [exact Hin|].
        apply eqc_true. reflexivity. }
      congruence.
Qed.

(** X29. cleanCodeForFile only removes from the start: when the first
    line is a header for it, the code is that line, then white space,
    then the result, which does not start with white space; otherwise
    the code is returned as it is. *)
Theorem cleanCodeForFile_suffix (code : str) :
  exists blank,
    code = (if isFileHeader (head0 (split code))
            then head0 (split code) ++ blank else [])
           ++ cleanCodeForFile code
    /\ Forall (fun c => isSpace c = true) blank
    /\ (if isFileHeader (head0 (split code))
        then trimStart (cleanCodeForFile code) = cleanCodeForFile code
        else cleanCodeForFile code = code).
Proof.
  unfold cleanCodeForFile. cbv zeta.
  destruct (isFileHeader (head0 (split code))).
  - pose proof (join_split code) as Hjoin.
    destruct (split code) as [|l0 rest]; simpl head0; simpl skipn.
    + exists []. simpl in *. subst code. repeat split; constructor.
    + destruct rest as [|l1 rest].
      * exists []. simpl in *. subst code. rewrite !app_nil_r.
        repeat split; constructor.
      * rewrite join_cons in Hjoin.
        destruct (trimStart_parts (join (l1 :: rest))) as [blank [Hs Hblank]].
        exists (nl :: blank). split; [|split].
        -- rewrite <- Hjoin. rewrite Hs at 1.
           rewrite <- app_assoc. reflexivity.
        -- constructor; [reflexivity|exact Hblank].
        -- apply trimStart_idem.
  - exists []. repeat split; constructor.
Qed.
End CleanFacts.

Module AdoptionFacts.
Import Js Regex Vscode IntentDetector SmartApplyService Notions Invariants
       JsFacts.

(** X30. What the auto-detection block of applySingle can change. The
    code, the language and the intent of the payload are never changed,
    and a target or an anchor the payload has is never replaced: an
    empty one is filled from the verdict. The unit is routed on the
    intent of the payload, with the payload unchanged, or on the intent
    of the verdict, and then auto-detection is on and the confidence of
    the verdict is at least 0.7: the verdicts at 0.6, 0.4 and 0.3 are
    never adopted. *)
Theorem resolveIntent_adoption (config : SmartApplyConfig)
        (activeFile : option str) (payload : ApplyPayload) :
  let d := detect (code payload) (language payload) activeFile in
  let routed := fst (resolveIntent config activeFile payload) in
  let p' := snd (resolveIntent config activeFile payload) in
  code p' = code payload
  /\ language p' = language payload
  /\ pintent p' = pintent payload
  /\ (ptarget p' = ptarget payload
      \/ (truthy (ptarget payload) = false /\ ptarget p' = target d
          /\ truthy (target d) = true))
  /\ (panchor p' = panchor payload
      \/ (truthy (panchor payload) = false /\ panchor p' = anchor d
          /\ truthy (anchor d) = true))
  /\ ((routed = pintent payload /\ p' = payload)
      \/ (autoDetectIntent config = true
          /\ routed = Some (intent d)
          /\ (7 # 10 <= confidence d)%Q)).
Proof.
  cbv zeta. unfold resolveIntent.
  destruct (autoDetectIntent config); [|simpl; tauto].
  pose proof (IntentDetectorFacts.detect_rated (code payload)
                (language payload) activeFile) as Hrated.
  cbv zeta in Hrated.
  destruct (Qgtb _ _) eqn:Hq; [|simpl; tauto].
  simpl. repeat (split; [reflexivity|]).
  split; [|split].
  - destruct (truthy (target _)) eqn:Ht; simpl; [|tauto].
    destruct (truthy (ptarget payload)) eqn:Hp; simpl; tauto.
  - destruct (truthy (anchor _)) eqn:Ht; simpl; [|tauto].
    destruct (truthy (panchor payload)) eqn:Hp; simpl; tauto.
  - right. split; [reflexivity|]. split; [reflexivity|].
    unfold rated in Hrated.
    destruct Hrated as [[_ Hc]|[[_ Hc]|[_ Hc]]]; simpl in Hc;
      repeat (destruct Hc as [Hc|Hc]; [|]); try contradiction;
        rewrite <- Hc in *;
        solve [discriminate Hq | unfold Qle; simpl; lia].
Qed.
End AdoptionFacts.
